(** * OpenDKP Helper: the auction-completion tracker of [content.js]

    A shallow embedding of the tracker in the content script: the width
    parser, the context extractors (table shape and tab shape), the
    roll-off resolution, the alert policy, the notification dispatch and
    the completion / deduplication state machine, with the properties the
    specification states about them.

    Modelling conventions.
    - A JavaScript string is a list of code units.  The model keeps the
      code units below 256 (Latin-1), so a string is a [list ascii]; the
      character classes below are the JavaScript ones cut to that range.
    - Regular expressions are terms of [re], run by a backtracking matcher
      that lists the successes in the order the JavaScript engine tries
      them; the head of the list is the match [String.prototype.match]
      reports.
    - [parseInt] results are [NaN] or an exact integer ([Z]); integers
      above 2^53, which JavaScript rounds, stay exact here.
    - [parseFloat] on a decimal literal is rounded to binary64 (nearest,
      ties to even) and overflows to [PosInf], as in JavaScript; the
      finite doubles are kept as exact rationals.
    - The DOM is abstracted to what the code reads from it: text contents,
      the first link or number input of a cell, the rows of a table, the
      inline style width of a timer. *)

From Stdlib Require Import ZArith QArith Ascii String List Bool Lia DecimalString.
From stdpp Require Import gmap strings list.
Import ListNotations.

#[local] Open Scope Z_scope.
#[local] Open Scope list_scope.

(** ** JavaScript strings *)

Abbreviation jsstring := (list ascii).

(** A string literal as a list of code units. *)
Definition str (s : string) : jsstring := list_ascii_of_string s.

Definition code (c : ascii) : N := N_of_ascii c.

(** [\d] *)
Definition is_digit (c : ascii) : bool :=
  (48 <=? code c)%N && (code c <=? 57)%N.

(** LineTerminator (below 256): LF and CR. *)
Definition is_line_terminator (c : ascii) : bool :=
  (code c =? 10)%N || (code c =? 13)%N.

(** [\s]: WhiteSpace and LineTerminator (below 256): TAB, LF, VT, FF, CR,
    SPACE and NBSP. *)
Definition is_space (c : ascii) : bool :=
  ((9 <=? code c)%N && (code c <=? 13)%N) || (code c =? 32)%N || (code c =? 160)%N.

(** [.] without the [s] flag: anything but a line terminator. *)
Definition is_dot (c : ascii) : bool := negb (is_line_terminator c).

Definition is_char (a c : ascii) : bool := Ascii.eqb a c.

(** [[\s-]] *)
Definition is_space_or_dash (c : ascii) : bool := is_space c || is_char "-" c.

Definition is_upper (c : ascii) : bool := (65 <=? code c)%N && (code c <=? 90)%N.
Definition is_lower (c : ascii) : bool := (97 <=? code c)%N && (code c <=? 122)%N.

(** [[a-zA-Z]] *)
Definition is_alpha (c : ascii) : bool := is_upper c || is_lower c.

(** [[a-zA-Z0-9\s-]] *)
Definition is_name_char (c : ascii) : bool :=
  is_alpha c || is_digit c || is_space c || is_char "-" c.

(** [[^[]] *)
Definition is_not_lbracket (c : ascii) : bool := negb (is_char "[" c).

(** [String.prototype.trim]: white space and line terminators are removed
    at both ends. *)
Fixpoint trimStart (s : jsstring) : jsstring :=
  match s with
  | c :: s' => if is_space c then trimStart s' else s
  | [] => []
  end.

Definition trimEnd (s : jsstring) : jsstring := rev (trimStart (rev s)).

Definition trim (s : jsstring) : jsstring := trimEnd (trimStart s).

(** [String.prototype.toLowerCase] on the Latin-1 range: A-Z and the
    accented capitals 192-222 (but the multiplication sign 215) move up
    by 32. *)
Definition lower_char (c : ascii) : ascii :=
  let n := code c in
  if ((65 <=? n)%N && (n <=? 90)%N) ||
     ((192 <=? n)%N && (n <=? 222)%N && negb (n =? 215)%N)
  then ascii_of_N (n + 32) else c.

Definition toLowerCase (s : jsstring) : jsstring := map lower_char s.

Definition str_eqb (a b : jsstring) : bool := bool_decide (a = b).

(** [s.startsWith(p)] *)
Fixpoint startsWith (s p : jsstring) : bool :=
  match p, s with
  | [], _ => true
  | a :: p', c :: s' => Ascii.eqb a c && startsWith s' p'
  | _ :: _, [] => false
  end.

(** [s.includes(c)] for a one-character needle. *)
Definition includes (s : jsstring) (c : ascii) : bool := existsb (is_char c) s.

(** [s.substring(s.indexOf(c) + 1)]: what follows the first [c]; the whole
    string when [c] does not occur ([indexOf] is then -1). *)
Fixpoint after_first (c : ascii) (s : jsstring) : option jsstring :=
  match s with
  | x :: s' => if Ascii.eqb c x then Some s' else after_first c s'
  | [] => None
  end.

Definition substring_after_indexOf (c : ascii) (s : jsstring) : jsstring :=
  match after_first c s with Some r => r | None => s end.

(** [s.split(',')] *)
Fixpoint split_on (c : ascii) (s : jsstring) : list jsstring :=
  match s with
  | [] => [[]]
  | x :: s' =>
      if Ascii.eqb c x then [] :: split_on c s'
      else match split_on c s' with
           | p :: ps => (x :: p) :: ps
           | [] => [[x]]
           end
  end.

(** ** Regular expressions

    The fragment the script uses: literal characters, character classes,
    greedy and lazy repetition of a class, an optional group, capture
    groups, sequencing and the end anchor. *)

Inductive re : Type :=
| Chr (c : ascii)                         (* a literal character *)
| Cls (p : ascii -> bool)                 (* a character class *)
| Star (greedy : bool) (p : ascii -> bool) (* p* or p*? *)
| Plus (greedy : bool) (p : ascii -> bool) (* p+ or p+? *)
| Opt (r : re)                            (* (?:r)? *)
| Grp (i : nat) (r : re)                  (* the i-th capture group *)
| Seq (r1 r2 : re)
| Eps                                     (* the empty pattern *)
| Eos.                                    (* $ without the m flag *)

(** Captures, most recent binding first. *)
Definition caps := list (nat * jsstring).

Fixpoint group (i : nat) (c : caps) : option jsstring :=
  match c with
  | (j, w) :: c' => if Nat.eqb i j then Some w else group i c'
  | [] => None
  end.

(** The suffixes left by [p*], longest repetition first. *)
Fixpoint star_greedy (p : ascii -> bool) (s : jsstring) : list jsstring :=
  match s with
  | c :: s' => if p c then star_greedy p s' ++ [s] else [s]
  | [] => [[]]
  end.

(** The suffixes left by [p*?], shortest repetition first. *)
Fixpoint star_lazy (p : ascii -> bool) (s : jsstring) : list jsstring :=
  match s with
  | c :: s' => if p c then s :: star_lazy p s' else [s]
  | [] => [[]]
  end.

Definition star (greedy : bool) (p : ascii -> bool) (s : jsstring) : list jsstring :=
  if greedy then star_greedy p s else star_lazy p s.

(** What the pattern consumed between [s] and its suffix [s']. *)
Definition consumed (s s' : jsstring) : jsstring :=
  take (length s - length s')%nat s.

(** [run r (c, s)]: every way [r] matches a prefix of [s], as the captures
    and the remaining suffix, in backtracking order. *)
Fixpoint run (r : re) (st : caps * jsstring) : list (caps * jsstring) :=
  let '(c, s) := st in
  match r with
  | Chr a =>
      match s with
      | x :: s' => if Ascii.eqb a x then [(c, s')] else []
      | [] => []
      end
  | Cls p =>
      match s with
      | x :: s' => if p x then [(c, s')] else []
      | [] => []
      end
  | Star g p => map (fun s' => (c, s')) (star g p s)
  | Plus g p =>
      match s with
      | x :: s' => if p x then map (fun s'' => (c, s'')) (star g p s') else []
      | [] => []
      end
  | Opt r' => run r' st ++ [st]
  | Grp i r' => map (fun '(c', s') => ((i, consumed s s') :: c', s')) (run r' st)
  | Seq r1 r2 => flat_map (run r2) (run r1 st)
  | Eps => [st]
  | Eos => match s with [] => [st] | _ :: _ => [] end
  end.

(** [s.match(/^r/)]: the captures of the first success, anchored at the
    start of [s]. *)
Definition match_anchored (r : re) (s : jsstring) : option caps :=
  match run r ([], s) with
  | (c, _) :: _ => Some c
  | [] => None
  end.

(** An unanchored search: the leftmost start at which [r] matches, with
    the text before the match, the captures and the text after it. *)
Fixpoint search_from (r : re) (before : jsstring) (s : jsstring)
  : option (jsstring * caps * jsstring) :=
  match run r ([], s) with
  | (c, rest) :: _ => Some (rev before, c, rest)
  | [] =>
      match s with
      | x :: s' => search_from r (x :: before) s'
      | [] => None
      end
  end.

Definition search (r : re) (s : jsstring) : option (jsstring * caps * jsstring) :=
  search_from r [] s.

(** [s.replace(/r/, '')]: the first match is removed. *)
Definition remove_first (r : re) (s : jsstring) : jsstring :=
  match search r s with
  | Some (before, _, rest) => before ++ rest
  | None => s
  end.

(** [m[i]] of a match; an unset group reads as the empty string here (every
    group the script reads takes part in its match). *)
Definition grp (i : nat) (c : caps) : jsstring :=
  match group i c with Some w => w | None => [] end.

(** The concatenation of a list of patterns. *)
Definition seqs (rs : list re) : re := fold_right Seq Eps rs.

(** The longest prefix of [s] in the class [p], and what follows it. *)
Fixpoint span (p : ascii -> bool) (s : jsstring) : jsstring * jsstring :=
  match s with
  | c :: s' =>
      if p c then let '(a, b) := span p s' in (c :: a, b) else ([], s)
  | [] => ([], [])
  end.

(** ** Numbers *)

(** What [parseInt] returns. *)
Inductive jsint : Type :=
| NaN
| Int (z : Z).

(** A value that is a number, or [null] / [undefined] ([None]). *)
Abbreviation jsval := (option jsint).

(** Truthiness of a number-or-null: [null], [NaN] and [0] are falsy. *)
Definition truthy (v : jsval) : bool :=
  match v with
  | Some (Int z) => negb (z =? 0)
  | _ => false
  end.

(** [v > n] for an integer [n]; comparisons with [NaN] are false and
    [null] converts to 0. *)
Definition gtZ (v : jsval) (n : Z) : bool :=
  match v with
  | Some (Int z) => n <? z
  | Some NaN => false
  | None => n <? 0
  end.

(** [a === b] on numbers-or-null: [NaN] equals nothing. *)
Definition strict_eq (a b : jsval) : bool :=
  match a, b with
  | Some (Int x), Some (Int y) => x =? y
  | None, None => true
  | _, _ => false
  end.

(** [v || 0] read as an integer. *)
Definition or0 (v : jsval) : Z :=
  match v with
  | Some (Int z) => z
  | _ => 0
  end.

Definition digit_value (c : ascii) : Z := Z.of_N (code c) - 48.

(** The value of a string of decimal digits. *)
Definition decimal_value (s : jsstring) : Z :=
  fold_left (fun a c => 10 * a + digit_value c) s 0.

Definition is_hex_digit (c : ascii) : bool :=
  is_digit c ||
  ((65 <=? code c)%N && (code c <=? 70)%N) ||
  ((97 <=? code c)%N && (code c <=? 102)%N).

Definition hex_digit_value (c : ascii) : Z :=
  if is_digit c then Z.of_N (code c) - 48
  else if (code c <=? 70)%N then Z.of_N (code c) - 55
  else Z.of_N (code c) - 87.

Definition hex_value (s : jsstring) : Z :=
  fold_left (fun a c => 16 * a + hex_digit_value c) s 0.

(** [parseInt(s)] without a radix: leading white space is skipped, a sign
    is read, a [0x] / [0X] prefix switches to radix 16, and the longest
    run of digits is the value; no digit at all gives [NaN]. *)
Definition parseInt (s : jsstring) : jsint :=
  let s1 := trimStart s in
  let '(neg, s2) :=
    match s1 with
    | c :: r => if is_char "-" c then (true, r)
                else if is_char "+" c then (false, r) else (false, s1)
    | [] => (false, s1)
    end in
  let '(hex, s3) :=
    match s2 with
    | z :: x :: r =>
        if is_char "0" z && (is_char "x" x || is_char "X" x)
        then (true, r) else (false, s2)
    | _ => (false, s2)
    end in
  let ds := fst (span (if hex then is_hex_digit else is_digit) s3) in
  match ds with
  | [] => NaN
  | _ :: _ =>
      let v := if hex then hex_value ds else decimal_value ds in
      Int (if neg then - v else v)
  end.

(** [parseInt] of a value that may be [undefined]: [parseInt(undefined)]
    is [NaN]. *)
Definition parseInt_opt (s : option jsstring) : jsint :=
  match s with
  | Some t => parseInt t
  | None => NaN
  end.

(** What [parseFloat] returns on an unsigned literal: a finite double, kept
    as the exact rational it denotes, or [+Infinity]. *)
Inductive jsfloat : Type :=
| FNaN
| Fin (q : Q)
| PosInf.

(** Every rational at or above 2^1024 - 2^970 rounds to [+Infinity]. *)
Definition BINARY64_OVERFLOW : Z := 2 ^ 1024 - 2 ^ 970.

(** Round to an integer, ties to even. *)
Definition round_half_even (n d : Z) : Z :=
  let q := n / d in
  let r := n mod d in
  if 2 * r <? d then q
  else if d <? 2 * r then q + 1
  else if Z.even q then q else q + 1.

(** The binary64 number nearest to [n / d] (ties to even), for [0 <= n]. *)
Definition binary64_of_ratio (n : Z) (d : positive) : jsfloat :=
  if n <=? 0 then Fin 0
  else if BINARY64_OVERFLOW * Z.pos d <=? n then PosInf
  else
    let e0 := Z.log2 n - Z.log2 (Z.pos d) in
    (* e = floor (log2 (n / d)) *)
    let e :=
      if (if 0 <=? e0 then Z.pos d * 2 ^ e0 <=? n else Z.pos d <=? n * 2 ^ (- e0))
      then e0 else e0 - 1 in
    (* the exponent of the last place: 53 significant bits, subnormals
       below 2^-1022 *)
    let p := Z.max (e - 52) (-1074) in
    if 0 <=? p then
      Fin (inject_Z (round_half_even n (Z.pos d * 2 ^ p) * 2 ^ p))
    else
      Fin (Qmake (round_half_even (n * 2 ^ (- p)) (Z.pos d)) (Z.to_pos (2 ^ (- p)))).

(** [parseFloat] on the literals the width pattern lets through: digits,
    then optionally a dot and digits.  A string that does not start with a
    digit gives [NaN]; signs, exponents and [Infinity] are left out, since
    the only call passes group 1 of that pattern. *)
Definition parseFloat (s : jsstring) : jsfloat :=
  let '(ip, rest) := span is_digit s in
  match ip with
  | [] => FNaN
  | _ :: _ =>
      let fp :=
        match rest with
        | c :: r => if is_char "." c then fst (span is_digit r) else []
        | [] => []
        end in
      binary64_of_ratio (decimal_value (ip ++ fp)) (Z.to_pos (10 ^ Z.of_nat (length fp)))
  end.

(** ** The width parser *)

(** [element.style], with its [width] property. *)
Record Style := { width : jsstring }.

(** What [getWidthPercent] reads of an element. *)
Record Element := { style : option Style }.

(** [/^(\d+(?:\.\d+)?)%$/] *)
Definition WIDTH_RE : re :=
  seqs [Grp 1 (Seq (Plus true is_digit)
                   (Opt (Seq (Chr ".") (Plus true is_digit))));
        Chr "%"; Eos].

(** [getWidthPercent(element)]: the numeric width of a progress bar's
    inline style, [None] ([null]) when it cannot be parsed. *)
Definition getWidthPercent (element : option Element) : option jsfloat :=
  match element with
  | None => None
  | Some el =>
      match style el with
      | None => None
      | Some st =>
          match width st with
          | [] => None
          | widthStr =>
              match match_anchored WIDTH_RE widthStr with
              | Some m => Some (parseFloat (grp 1 m))
              | None => None
              end
          end
      end
  end.

(** An element whose inline style width is [w]. *)
Definition element_of_width (w : jsstring) : option Element :=
  Some {| style := Some {| width := w |} |}.

(** [width > 1] and [width <= 0] on a parsed width. *)
Definition float_gt (w : jsfloat) (z : Z) : bool :=
  match w with
  | Fin q => if Qlt_le_dec (inject_Z z) q then true else false
  | PosInf => true
  | FNaN => false
  end.

Definition float_le (w : jsfloat) (z : Z) : bool :=
  match w with
  | Fin q => Qle_bool q (inject_Z z)
  | PosInf => false
  | FNaN => false
  end.

(** ** What the matcher computes

    [matches r w s'] : the pattern [r] can consume [w] when [s'] follows. *)

Fixpoint matches (r : re) (w s' : jsstring) : Prop :=
  match r with
  | Chr a => w = [a]
  | Cls p => exists x, w = [x] /\ p x = true
  | Star _ p => forallb p w = true
  | Plus _ p => w <> [] /\ forallb p w = true
  | Opt r' => w = [] \/ matches r' w s'
  | Grp _ r' => matches r' w s'
  | Seq r1 r2 =>
      exists w1 w2, w = w1 ++ w2 /\ matches r1 w1 (w2 ++ s') /\ matches r2 w2 s'
  | Eps => w = []
  | Eos => w = [] /\ s' = []
  end.

(** Patterns without capture groups leave the captures alone. *)
Fixpoint no_groups (r : re) : bool :=
  match r with
  | Grp _ _ => false
  | Opt r' => no_groups r'
  | Seq r1 r2 => no_groups r1 && no_groups r2
  | _ => true
  end.


(** [heads r st x]: the matcher's first success on [st] is [x]. *)
Definition heads (r : re) (st x : caps * jsstring) : Prop :=
  exists l, run r st = x :: l.

(** Every capture group of [r] can only hold words with the property [P]. *)
Fixpoint groups_sat (P : nat -> jsstring -> Prop) (r : re) : Prop :=
  match r with
  | Grp i r' => (forall w s', matches r' w s' -> P i w) /\ groups_sat P r'
  | Opt r' => groups_sat P r'
  | Seq r1 r2 => groups_sat P r1 /\ groups_sat P r2
  | _ => True
  end.

(** The group [i] is bound by every match of [r]. *)
Fixpoint binds (i : nat) (r : re) : bool :=
  match r with
  | Grp j r' => Nat.eqb i j || binds i r'
  | Seq r1 r2 => binds i r1 || binds i r2
  | _ => false
  end.

(** The inline style width [getWidthPercent] gets to parse: [None] when
    the element, its style or the width itself is absent (empty). *)
Definition inline_width (element : option Element) : option jsstring :=
  match element with
  | Some el =>
      match style el with
      | Some st => match width st with [] => None | w => Some w end
      | None => None
      end
  | None => None
  end.

(** A non-empty string of decimal digits. *)
Definition all_digits (s : jsstring) : Prop :=
  s <> [] /\ forallb is_digit s = true.

(** An unsigned decimal number: digits, then optionally a dot and digits. *)
Definition decimal_literal (s : jsstring) : Prop :=
  exists ip, all_digits ip /\
    (s = ip \/ exists fp, all_digits fp /\ s = ip ++ "."%char :: fp).

(** An unsigned decimal number immediately followed by [%]. *)
Definition unsigned_decimal_percent (s : jsstring) : Prop :=
  exists lit, decimal_literal lit /\ s = lit ++ ["%"%char].

(** The digits before the dot of a width string. *)
Definition integer_part (s : jsstring) : jsstring := fst (span is_digit s).

(** A finite number that is not negative. *)
Definition finite_nonneg (w : jsfloat) : Prop :=
  exists q, w = Fin q /\ (0 <= q)%Q.

(** ** Item-name cleaning *)

(** [/^\d+[\s-]+(.+)$/] *)
Definition BID_PREFIX_RE : re :=
  seqs [Plus true is_digit; Plus true is_space_or_dash;
        Grp 1 (Plus true is_dot); Eos].

(** [/^\d+(.+)$/] *)
Definition NO_SPACE_RE : re :=
  seqs [Plus true is_digit; Grp 1 (Plus true is_dot); Eos].

(** The removal of a leading bid amount from an item name.  The script
    repeats these lines in [extractTimerContext] (twice), in
    [extractTableContext] and in [showNotification]:
<<
    const bidPrefixMatch = name.match(/^\d+[\s-]+(.+)$/);
    if (bidPrefixMatch) { name = bidPrefixMatch[1].trim(); }
    else {
      const noSpaceMatch = name.match(/^\d+(.+)$/);
      if (noSpaceMatch && noSpaceMatch[1].length > 0) { name = noSpaceMatch[1].trim(); }
    }
>> *)
Definition cleanBidPrefix (name : jsstring) : jsstring :=
  match match_anchored BID_PREFIX_RE name with
  | Some bidPrefixMatch => trim (grp 1 bidPrefixMatch)
  | None =>
      match match_anchored NO_SPACE_RE name with
      | Some noSpaceMatch =>
          if (0 <? length (grp 1 noSpaceMatch))%nat
          then trim (grp 1 noSpaceMatch) else name
      | None => name
      end
  end.

(** A string is truthy when it is not empty; [null] is falsy. *)
Definition truthy_str (s : option jsstring) : bool :=
  match s with
  | Some (_ :: _) => true
  | _ => false
  end.

Definition is_null_str (s : option jsstring) : bool :=
  match s with None => true | Some _ => false end.

(** The removal of a leading ["<winner> -"] from the item name, at the end
    of both extractors:
<<
    if (context.itemName && context.winner) {
      const w = context.winner.trim().toLowerCase();
      const n = context.itemName.trim();
      if (n.toLowerCase().startsWith(w + ' -')) {
        context.itemName = n.substring(n.indexOf('-') + 1).trim();
      }
    }
>> *)
Definition sanitizeItemName (itemName winner : option jsstring) : option jsstring :=
  match itemName, winner with
  | Some ((_ :: _) as name), Some ((_ :: _) as win) =>
      let w := toLowerCase (trim win) in
      let n := trim name in
      if startsWith (toLowerCase n) (w ++ str " -")
      then Some (trim (substring_after_indexOf "-" n))
      else itemName
  | _, _ => itemName
  end.

(** [s] begins with a numeric token followed by white space or a dash. *)
Definition numeric_token_prefix (s : jsstring) : bool :=
  let '(ds, rest) := span is_digit s in
  match ds, rest with
  | _ :: _, c :: _ => is_space_or_dash c
  | _, _ => false
  end.


(** [s] begins with a decimal digit. *)
Definition leading_digit (s : jsstring) : bool :=
  match s with
  | c :: _ => is_digit c
  | [] => false
  end.

(** ** The DOM, as the extractors read it *)

(** A table cell ([td]). *)
Record Cell := {
  textContent : jsstring;            (* cell.textContent *)
  link : option jsstring;            (* cell.querySelector('a')?.textContent *)
  characterLink : option jsstring;   (* cell.querySelector('a[href*="/characters/"]')?.textContent *)
  numberInput : option jsstring      (* cell.querySelector('input[type="number"]')?.value *)
}.

(** A table row ([tr]). *)
Record Row := {
  hasHeaderCell : bool;              (* row.querySelector('th') *)
  cells : list Cell;                 (* row.querySelectorAll('td') *)
  rowCharacterLink : option jsstring;(* row.querySelector('a[href*="/characters/"]')?.textContent *)
  rowNumberInput : option jsstring   (* row.querySelector('input[type="number"]')?.value *)
}.

Record Table := {
  rows : list Row;                   (* table.querySelectorAll('tbody tr, tr') *)
  hasCharacterLinks : bool           (* table.querySelectorAll('a[href*="/characters/"]').length > 0 *)
}.

(** A tab panel; [querySelector('table.p-datatable-table, table')] is the
    first of its tables. *)
Record Panel := {
  tables : list Table                (* tabPanel.querySelectorAll('table') *)
}.

(** The row around a timer of the table shape. *)
Record TableRow := {
  rowCells : list Cell;              (* tableRow.querySelectorAll('td') *)
  allRows : option (list Row)        (* tableRow.parentElement?.querySelectorAll('tr') *)
}.

(** The container around a timer of the tab shape, with the tab panels the
    document answers for it. *)
Record Container := {
  containerId : jsstring;            (* auctionContainer.id *)
  tabOffset : option jsstring;       (* querySelector('.tab-offset')?.textContent *)
  divs : list jsstring;              (* the textContent of each div inside *)
  idPanel : option Panel;            (* the panel found through the container id *)
  activePanel : option Panel         (* .p-tabview-panel.p-tabview-panel-active *)
}.

(** A timer element: its inline style and its surroundings. *)
Record Timer := {
  element : Element;
  closestRow : option TableRow;      (* timerElement.closest('tr') *)
  auctionContainer : option Container
    (* closest('a[id*="_header_action"]') || closest('.p-tabview-nav-link')
       || parentElement *)
}.

(** ** Auction contexts *)

(** [{ winner: ..., bid: ... }] *)
Record Entry := {
  e_winner : jsstring;
  e_bid : jsval
}.

(** The context object both extractors build (the fields that only feed the
    log and the debugging snapshot, [rowNumber], [timestamp],
    [rawWinnerText], are left out). *)
Record Context := {
  winner : option jsstring;
  bidAmount : jsval;
  itemName : option jsstring;
  quantity : jsval;
  timerWidth : option jsfloat;
  noBid : bool;
  isTableStructure : bool;
  rollOffWinners : option (list Entry);   (* [None]: undefined *)
  rollOffBid : jsval;
  isRollOff : bool;
  multipleWinners : bool;
  actualWinners : option (list Entry)     (* [None]: undefined *)
}.

(** [a.length] *)
Definition len {A} (l : list A) : Z := Z.of_nat (length l).

(** [quantity || 1] *)
Definition or1 (q : jsval) : Z := if truthy q then or0 q else 1.

Definition is_null (v : jsval) : bool :=
  match v with None => true | Some _ => false end.

(** [rollOffWinners.length > 1 && rollOffBid !== null &&
     rollOffWinners.length > (quantity || 1)] *)
Definition computeIsRollOff (rollOffWinners : list Entry) (rollOffBid quantity : jsval) : bool :=
  (1 <? len rollOffWinners) && negb (is_null rollOffBid) &&
  (or1 quantity <? len rollOffWinners).

(** [[...l].sort((a, b) => (b.bid || 0) - (a.bid || 0))]: a stable sort by
    bid, highest first. *)
Fixpoint insert_desc (x : Entry) (l : list Entry) : list Entry :=
  match l with
  | y :: l' =>
      if or0 (e_bid x) <? or0 (e_bid y) then y :: insert_desc x l' else x :: l
  | [] => [x]
  end.

Definition sort_desc (l : list Entry) : list Entry := fold_right insert_desc [] l.

(** [Math.max(x, ...l)] *)
Definition max_of (x : Z) (l : list Z) : Z := fold_left Z.max l x.

(** The winners among the bidders, as both extractors choose them:
<<
    let actualWinners = [];
    if (isRollOff) { actualWinners = rollOffWinners; }
    else if (rollOffWinners.length > 0 && bidAmount) {
      if (quantity && quantity > 1 && rollOffWinners.length > 0) {
        const sortedBidders = [...rollOffWinners].sort((a, b) => (b.bid || 0) - (a.bid || 0));
        actualWinners = sortedBidders.slice(0, quantity);
      } else {
        const highestBid = Math.max(...rollOffWinners.map(w => w.bid || 0));
        actualWinners = rollOffWinners.filter(w => w.bid === highestBid);
        if (actualWinners.length > 1 && (!quantity || quantity === 1)) {
          actualWinners = [actualWinners[0]];
        }
      }
    } else if (winner) { actualWinners = [{ winner: winner, bid: bidAmount }]; }
>> *)
Definition selectActualWinners (isRollOff : bool) (rollOffWinners : list Entry)
    (bidAmount quantity : jsval) (winner : option jsstring) : list Entry :=
  if isRollOff then rollOffWinners
  else
    match rollOffWinners with
    | w0 :: ws =>
        if truthy bidAmount then
          if truthy quantity && gtZ quantity 1 then
            take (Z.to_nat (or0 quantity)) (sort_desc rollOffWinners)
          else
            let highestBid := max_of (or0 (e_bid w0)) (map (fun w => or0 (e_bid w)) ws) in
            let actualWinners :=
              filter (fun w => strict_eq (e_bid w) (Some (Int highestBid)) = true)
                     rollOffWinners in
            if (1 <? len actualWinners) &&
               (negb (truthy quantity) || strict_eq quantity (Some (Int 1)))
            then take 1 actualWinners
            else actualWinners
        else
          match winner with
          | Some ((_ :: _) as w) => [{| e_winner := w; e_bid := bidAmount |}]
          | _ => []
          end
    | [] =>
        match winner with
        | Some ((_ :: _) as w) => [{| e_winner := w; e_bid := bidAmount |}]
        | _ => []
        end
    end.

(** [l.length > 0 ? l : undefined] *)
Definition nonempty_or_undefined {A} (l : list A) : option (list A) :=
  match l with [] => None | _ => Some l end.

(** ** The table shape: [extractTableContext] *)

(** [/x\s*(\d+)$/] *)
Definition QUANTITY_RE : re :=
  seqs [Chr "x"; Star true is_space; Grp 1 (Plus true is_digit); Eos].

(** [/\s*x\s*\d+$/] *)
Definition QUANTITY_SUFFIX_RE : re :=
  seqs [Star true is_space; Chr "x"; Star true is_space; Plus true is_digit; Eos].

(** [cells[i]] *)
Definition cell_at (i : nat) (cs : list Cell) : option Cell := cs !! i.

(** The item name, before the bid amount is removed, and the quantity of
    a table row:
<<
    const itemText = itemCell?.textContent?.trim() || '';
    const quantityMatch = itemText.match(/x\s*(\d+)$/);
    const quantity = quantityMatch ? parseInt(quantityMatch[1]) : 1;
    let itemName = quantityMatch ? itemText.replace(/\s*x\s*\d+$/, '').trim() : itemText;
>> *)
Definition tableRawItem (itemText : jsstring) : jsstring * jsint :=
  match search QUANTITY_RE itemText with
  | Some (_, quantityMatch, _) =>
      (trim (remove_first QUANTITY_SUFFIX_RE itemText), parseInt (grp 1 quantityMatch))
  | None => (itemText, Int 1)
  end.

(** [itemCell?.textContent?.trim() || ''] *)
Definition tableItemText (tableRow : TableRow) : jsstring :=
  match cell_at 2 (rowCells tableRow) with
  | Some c => trim (textContent c)
  | None => []
  end.

(** The entries of the other rows that share this row's bid:
<<
    rollOffWinners = Array.from(allRows)
      .map(row => {
        const cells = row.querySelectorAll('td');
        const rowWinner = cells[1]?.querySelector('a')?.textContent?.trim();
        const rowBid = cells[3]?.textContent?.trim();
        return { winner: rowWinner, bid: parseInt(rowBid) };
      })
      .filter(entry => entry.winner && entry.bid === bidAmount);
>> *)
Definition tableRowEntry (row : Row) : option jsstring * jsint :=
  let cs := cells row in
  let rowWinner :=
    match cell_at 1 cs with
    | Some c => option_map trim (link c)
    | None => None
    end in
  let rowBid := option_map (fun c => trim (textContent c)) (cell_at 3 cs) in
  (rowWinner, parseInt_opt rowBid).

Definition tableRollOffWinners (rs : list Row) (bidAmount : jsval) : list Entry :=
  flat_map (fun row =>
    match tableRowEntry row with
    | (Some ((_ :: _) as w), b) =>
        if strict_eq (Some b) bidAmount then [{| e_winner := w; e_bid := Some b |}] else []
    | _ => []
    end) rs.

Definition extractTableContext (timerElement : Timer) : option Context :=
  match closestRow timerElement with
  | None => None
  | Some tableRow =>
      let cs := rowCells tableRow in
      if (length cs <? 4)%nat then None
      else
        let winnerCell := cell_at 1 cs in
        let bidCell := cell_at 3 cs in
        let winner :=
          match winnerCell with
          | Some c =>
              match link c with
              | Some t => Some (trim t)
              | None => Some (trim (textContent c))
              end
          | None => None
          end in
        let itemText := tableItemText tableRow in
        let '(rawItemName, quantity) := tableRawItem itemText in
        let itemName := cleanBidPrefix rawItemName in
        let bidText := option_map (fun c => trim (textContent c)) bidCell in
        let bidAmount : jsval :=
          if truthy_str bidText then Some (parseInt_opt bidText) else None in
        let '(rollOffWinners, rollOffBid) :=
          match allRows tableRow with
          | Some rs =>
              if truthy bidAmount then
                let found := tableRollOffWinners rs bidAmount in
                (found, if 1 <? len found then bidAmount else None)
              else ([], None)
          | None => ([], None)
          end in
        let noBid := negb (truthy bidAmount) || strict_eq bidAmount (Some (Int 0)) in
        let isRollOff := computeIsRollOff rollOffWinners rollOffBid (Some quantity) in
        let actualWinners :=
          selectActualWinners isRollOff rollOffWinners bidAmount (Some quantity) winner in
        let multipleWinners := 1 <? len actualWinners in
        Some {|
          winner := winner;
          bidAmount := bidAmount;
          itemName := sanitizeItemName (Some itemName) winner;
          quantity := Some quantity;
          timerWidth := getWidthPercent (Some (element timerElement));
          noBid := noBid;
          isTableStructure := true;
          rollOffWinners := Some rollOffWinners;
          rollOffBid := rollOffBid;
          isRollOff := isRollOff;
          multipleWinners := multipleWinners;
          actualWinners := nonempty_or_undefined actualWinners
        |}
  end.

(** ** The tab shape: [extractTimerContext] *)

(** [/^(.+?)\s*-\s*(\d+)$/] *)
Definition WINNER_RE : re :=
  seqs [Grp 1 (Plus false is_dot); Star true is_space; Chr "-";
        Star true is_space; Grp 2 (Plus true is_digit); Eos].

(** [/^(.+?)\s*x\s*(\d+)$/] *)
Definition ITEM_RE : re :=
  seqs [Grp 1 (Plus false is_dot); Star true is_space; Chr "x";
        Star true is_space; Grp 2 (Plus true is_digit); Eos].

(** [/^\d+$/] *)
Definition DIGITS_RE : re := seqs [Plus true is_digit; Eos].

(** [/^[a-zA-Z][a-zA-Z0-9\s-]+$/] *)
Definition NAME_RE : re := seqs [Cls is_alpha; Plus true is_name_char; Eos].

(** [/\s*\(.*?$/] *)
Definition PAREN_TAIL_RE : re :=
  seqs [Star true is_space; Chr "("; Star false is_dot; Eos].

Definition test (r : re) (s : jsstring) : bool :=
  match match_anchored r s with Some _ => true | None => false end.

(** [!isNaN(v) && v > 0] *)
Definition valid_positive (v : jsint) : bool :=
  match v with Int z => 0 <? z | NaN => false end.

(** [a > b] on numbers-or-null. *)
Definition js_gt (a b : jsval) : bool :=
  match a, b with
  | Some NaN, _ | _, Some NaN => false
  | _, _ => or0 b <? or0 a
  end.

(** The winner and the bid of the header line:
<<
    const match = winnerText.match(/^(.+?)\s*-\s*(\d+)$/);
    if (match) { winner = match[1].trim(); bidAmount = parseInt(match[2]); }
>> *)
Definition parseWinnerText (winnerText : jsstring) : option jsstring * jsval :=
  match winnerText with
  | [] => (None, None)
  | _ =>
      match match_anchored WINNER_RE winnerText with
      | Some m => (Some (trim (grp 1 m)), Some (parseInt (grp 2 m)))
      | None => (None, None)
      end
  end.

(** The loop over the divs of the container, for the item name and the
    quantity: a div of the form "name x N" sets both and ends the loop; a
    div without dash and without x, longer than 3, sets the name with
    quantity 1 and the loop goes on.
<<
    for (const div of itemDivs) {
      const text = div.textContent.trim();
      const itemMatch = text.match(/^(.+?)\s*x\s*(\d+)$/);
      if (itemMatch) { ...; itemName = extractedName; quantity = parseInt(itemMatch[2]); break; }
      else if (text && !text.includes('-') && !text.includes('x') && text.length > 3) {
        ...; itemName = fallbackName; quantity = 1;
      }
    }
>> *)
Fixpoint scanItemDivs (itemDivs : list jsstring) (itemName : option jsstring)
    (quantity : jsval) : option jsstring * jsval :=
  match itemDivs with
  | [] => (itemName, quantity)
  | div :: rest =>
      let text := trim div in
      match match_anchored ITEM_RE text with
      | Some itemMatch =>
          (Some (cleanBidPrefix (trim (grp 1 itemMatch))),
           Some (parseInt (grp 2 itemMatch)))
      | None =>
          if truthy_str (Some text) && negb (includes text "-") &&
             negb (includes text "x") && (3 <? length text)%nat
          then scanItemDivs rest (Some (cleanBidPrefix text)) (Some (Int 1))
          else scanItemDivs rest itemName quantity
      end
  end.

(** *** [extractWinnersFromTable] *)

(** A cell whose number input holds a valid positive bid:
    [bidInput && bidInput.value], then [!isNaN(bidValue) && bidValue > 0]. *)
Definition inputBidOk (cell : Cell) : bool :=
  match numberInput cell with
  | Some ((_ :: _) as v) => valid_positive (parseInt v)
  | _ => false
  end.

(** A cell whose text is a number above 10:
    [cellText.match(/^\d+$/) && parseInt(cellText) > 10]. *)
Definition textBidOk (cell : Cell) : bool :=
  let cellText := trim (textContent cell) in
  test DIGITS_RE cellText && gtZ (Some (parseInt cellText)) 10.

(** Strategy 1 of a row: the first cell with a character link whose text is
    not empty is the name cell; the bid cell is looked for in the three
    cells after it. *)
Fixpoint findNameLinkCell (cs : list Cell) : option (Cell * option Cell) :=
  match cs with
  | [] => None
  | cell :: rest =>
      match characterLink cell with
      | Some t =>
          match trim t with
          | _ :: _ =>
              Some (cell, List.find (fun c => inputBidOk c || textBidOk c) (take 3 rest))
          | [] => findNameLinkCell rest
          end
      | None => findNameLinkCell rest
      end
  end.

(** [['name', 'winner', '#', 'rank', 'raid main', 'raid main']] *)
Definition NOT_A_NAME : list jsstring :=
  [str "name"; str "winner"; str "#"; str "rank"; str "raid main"; str "raid main"].

(** Strategy 2 of a row: a cell whose text looks like a name. *)
Definition looksLikeName (cell : Cell) : bool :=
  let cellText := trim (textContent cell) in
  truthy_str (Some cellText) && test NAME_RE cellText &&
  (1 <? length cellText)%nat &&
  negb (existsb (str_eqb (toLowerCase cellText)) NOT_A_NAME).

(** Strategy 2 of a row: a cell that looks like a bid. *)
Definition looksLikeBid (cell : Cell) : bool :=
  match numberInput cell with
  | Some ((_ :: _) as v) => valid_positive (parseInt v)
  | _ => textBidOk cell
  end.

(** The first name-like cell and the last bid-like cell of the row. *)
Definition findNameAndBidCells (cs : list Cell) : option Cell * option Cell :=
  (List.find looksLikeName cs, List.find looksLikeBid (rev cs)).

(** The name and the bid cell of a row, by strategy 1 and then strategy 2. *)
Definition rowNameAndBidCells (cs : list Cell) : option Cell * option Cell :=
  match findNameLinkCell cs with
  | Some (nameCell, bidCell) => (Some nameCell, bidCell)
  | None => findNameAndBidCells cs
  end.

(** The name of a row: the link of the name cell, or else its text, without
    a trailing "(...". *)
Definition rowName (nameCell : Cell) : jsstring :=
  let name :=
    match link nameCell with
    | Some t => trim t
    | None => trim (textContent nameCell)
    end in
  trim (remove_first PAREN_TAIL_RE name).

(** The bid of a row: the input value of the bid cell, or else its text,
    or else the default bid. *)
Definition rowBidOf (bidCell : option Cell) (defaultBid : jsval) : jsval :=
  let rowBid : jsval :=
    match bidCell with
    | Some cell =>
        match numberInput cell with
        | Some ((_ :: _) as v) => Some (parseInt v)
        | _ =>
            let cellText := trim (textContent cell) in
            if test DIGITS_RE cellText then Some (parseInt cellText) else None
        end
    | None => None
    end in
  if negb (truthy rowBid) && truthy defaultBid then defaultBid else rowBid.

(** What a row contributes: its bidder name and bid, when it is not a
    header row, has two cells or more, and has a usable name. *)
Definition rowEntry (row : Row) (defaultBid : jsval) : option Entry :=
  if hasHeaderCell row then None
  else if (length (cells row) <? 2)%nat then None
  else
    match rowNameAndBidCells (cells row) with
    | (Some nameCell, bidCell) =>
        let name := rowName nameCell in
        if truthy_str (Some name) && (0 <? length name)%nat &&
           negb (test DIGITS_RE name) && (1 <? length name)%nat
        then Some {| e_winner := name; e_bid := rowBidOf bidCell defaultBid |}
        else None
    | (None, _) => None
    end.

(** [winnersMap.get(name)] on a map kept in insertion order. *)
Definition winnersMap_get (m : list Entry) (name : jsstring) : option Entry :=
  List.find (fun e => str_eqb (e_winner e) name) m.

(** [winnersMap.set(name, entry)]: an existing key keeps its place. *)
Fixpoint winnersMap_set (m : list Entry) (entry : Entry) : list Entry :=
  match m with
  | [] => [entry]
  | e :: m' =>
      if str_eqb (e_winner e) (e_winner entry) then entry :: m'
      else e :: winnersMap_set m' entry
  end.

(** The update of the map by one row:
<<
    const existing = winnersMap.get(name);
    if (!existing || !rowBid || (rowBid && (!existing.bid || rowBid > existing.bid))) {
      winnersMap.set(name, { winner: name, bid: rowBid });
    }
>> *)
Definition recordBid (m : list Entry) (entry : Entry) : list Entry :=
  let rowBid := e_bid entry in
  let overwrite :=
    match winnersMap_get m (e_winner entry) with
    | None => true
    | Some existing =>
        negb (truthy rowBid) ||
        (truthy rowBid && (negb (truthy (e_bid existing)) || js_gt rowBid (e_bid existing)))
    end in
  if overwrite then winnersMap_set m entry else m.

(** The scan of the rows into the map, from the empty map. *)
Definition scanRows (rs : list Row) (defaultBid : jsval) (m : list Entry) : list Entry :=
  fold_left (fun m row =>
               match rowEntry row defaultBid with
               | Some entry => recordBid m entry
               | None => m
               end) rs m.

(** [extractWinnersFromTable(table, defaultBid)]: [Array.from(winnersMap.values())]. *)
Definition extractWinnersFromTable (table : Table) (defaultBid : jsval) : list Entry :=
  scanRows (rows table) defaultBid [].

(** *** The strategies of [extractTimerContext] *)

(** The variables the strategies assign. *)
Record Found := {
  f_winner : option jsstring;
  f_bidAmount : jsval;
  f_rollOffWinners : list Entry;
  f_rollOffBid : jsval
}.

(** One part of a comma-separated winner list:
<<
    const match = part.match(/^(.+?)\s*-\s*(\d+)$/);
    if (match) { return { winner: match[1].trim(), bid: parseInt(match[2]) }; }
    if (bidAmount && part.trim().length > 0) { return { winner: part.trim(), bid: bidAmount }; }
    return null;
>> *)
Definition parseWinnerPart (bidAmount : jsval) (part : jsstring) : option Entry :=
  match match_anchored WINNER_RE part with
  | Some m => Some {| e_winner := trim (grp 1 m); e_bid := Some (parseInt (grp 2 m)) |}
  | None =>
      if truthy bidAmount && (0 <? length (trim part))%nat
      then Some {| e_winner := trim part; e_bid := bidAmount |}
      else None
  end.

(** [l.every(w => w.bid === l[0].bid)] *)
Definition allSameBidAs (first : Entry) (l : list Entry) : bool :=
  forallb (fun w => strict_eq (e_bid w) (e_bid first)) l.

(** [l.every(w => w.bid === l[0].bid && w.bid !== null)] *)
Definition allSameBidNotNull (first : Entry) (l : list Entry) : bool :=
  forallb (fun w => strict_eq (e_bid w) (e_bid first) && negb (is_null (e_bid w))) l.

(** Strategy 1: several winners in the header line, separated by commas. *)
Definition strategy1 (winnerText : jsstring) (f : Found) : Found :=
  if truthy_str (Some winnerText) && includes winnerText "," then
    let winnerParts := map trim (split_on "," winnerText) in
    let parsedWinners := omap (parseWinnerPart (f_bidAmount f)) winnerParts in
    match parsedWinners with
    | first :: _ :: _ =>
        if allSameBidAs first parsedWinners && gtZ (e_bid first) 0
        then {| f_winner := f_winner f; f_bidAmount := f_bidAmount f;
                f_rollOffWinners := parsedWinners; f_rollOffBid := e_bid first |}
        else {| f_winner := f_winner f; f_bidAmount := f_bidAmount f;
                f_rollOffWinners := parsedWinners; f_rollOffBid := f_rollOffBid f |}
    | _ => f
    end
  else f.

(** [a.toLowerCase() === b.toLowerCase()] *)
Definition same_name (a b : jsstring) : bool :=
  str_eqb (toLowerCase a) (toLowerCase b).

(** A single bidder found in a table: its bid replaces the header's when
    the names agree; it becomes the winner when the header gave none. *)
Definition adoptSingle (tableWinner : Entry) (f : Found) : Found :=
  let bidOk := truthy (e_bid tableWinner) && gtZ (e_bid tableWinner) 0 in
  let f' :=
    if truthy_str (f_winner f) && truthy_str (Some (e_winner tableWinner)) &&
       same_name (match f_winner f with Some w => w | None => [] end) (e_winner tableWinner)
    then
      if bidOk
      then {| f_winner := f_winner f; f_bidAmount := e_bid tableWinner;
              f_rollOffWinners := f_rollOffWinners f; f_rollOffBid := f_rollOffBid f |}
      else f
    else if truthy_str (Some (e_winner tableWinner)) && negb (truthy_str (f_winner f))
    then {| f_winner := Some (e_winner tableWinner);
            f_bidAmount := if bidOk then e_bid tableWinner else f_bidAmount f;
            f_rollOffWinners := f_rollOffWinners f; f_rollOffBid := f_rollOffBid f |}
    else f in
  {| f_winner := f_winner f'; f_bidAmount := f_bidAmount f';
     f_rollOffWinners := [tableWinner]; f_rollOffBid := f_rollOffBid f' |}.

(** The row of the header's winner, looked up by its character link, with a
    valid positive bid in its number input. *)
Fixpoint findWinnerRow (rs : list Row) (winner : jsstring) : option jsint :=
  match rs with
  | [] => None
  | row :: rest =>
      if hasHeaderCell row then findWinnerRow rest winner
      else
        match rowCharacterLink row with
        | Some t =>
            if same_name (trim t) winner then
              match rowNumberInput row with
              | Some ((_ :: _) as v) =>
                  if valid_positive (parseInt v) then Some (parseInt v)
                  else findWinnerRow rest winner
              | _ => findWinnerRow rest winner
              end
            else findWinnerRow rest winner
        | None => findWinnerRow rest winner
        end
  end.

(** Strategy 2: the first table of the tab panel. *)
Definition strategy2 (bidsTable : Table) (f : Found) : Found :=
  let extracted := extractWinnersFromTable bidsTable (f_bidAmount f) in
  match extracted with
  | first :: _ :: _ =>
      if allSameBidNotNull first extracted && gtZ (e_bid first) 0
      then {| f_winner := f_winner f; f_bidAmount := f_bidAmount f;
              f_rollOffWinners := extracted; f_rollOffBid := e_bid first |}
      else {| f_winner := f_winner f; f_bidAmount := f_bidAmount f;
              f_rollOffWinners := extracted; f_rollOffBid := f_rollOffBid f |}
  | [tableWinner] => adoptSingle tableWinner f
  | [] =>
      match f_winner f with
      | Some ((_ :: _) as winner) =>
          match findWinnerRow (rows bidsTable) winner with
          | Some tableBid =>
              {| f_winner := f_winner f; f_bidAmount := Some tableBid;
                 f_rollOffWinners := [{| e_winner := winner; e_bid := Some tableBid |}];
                 f_rollOffBid := f_rollOffBid f |}
          | None => f
          end
      | _ => f
      end
  end.

(** Strategy 3: every table of the tab panel that has character links; a
    roll-off ends the loop. *)
Fixpoint strategy3 (auctionTables : list Table) (f : Found) : Found :=
  match auctionTables with
  | [] => f
  | table :: rest =>
      if hasCharacterLinks table then
        let extracted := extractWinnersFromTable table (f_bidAmount f) in
        match extracted with
        | first :: _ :: _ =>
            if allSameBidNotNull first extracted && gtZ (e_bid first) 0
            then {| f_winner := f_winner f; f_bidAmount := f_bidAmount f;
                    f_rollOffWinners := extracted; f_rollOffBid := e_bid first |}
            else
              strategy3 rest
                (match f_rollOffWinners f with
                 | [] => {| f_winner := f_winner f; f_bidAmount := f_bidAmount f;
                            f_rollOffWinners := extracted; f_rollOffBid := f_rollOffBid f |}
                 | _ => f
                 end)
        | [tableWinner] => strategy3 rest (adoptSingle tableWinner f)
        | [] => strategy3 rest f
        end
      else strategy3 rest f
  end.

(** The bidders at the cap in one table (strategy 4): a row with a cell
    whose text is 1000, paired with the first character link of the row's
    cells. *)
Definition capBidder (row : Row) : option Entry :=
  if hasHeaderCell row then None
  else if (length (cells row) <? 2)%nat then None
  else
    if existsb (fun c => let cellText := trim (textContent c) in
                         test DIGITS_RE cellText &&
                         strict_eq (Some (parseInt cellText)) (Some (Int 1000)))
               (cells row)
    then
      match List.find (fun c => negb (is_null_str (characterLink c))) (cells row) with
      | Some c =>
          match option_map trim (characterLink c) with
          | Some ((_ :: _) as rowWinner) =>
              Some {| e_winner := rowWinner; e_bid := Some (Int 1000) |}
          | _ => None
          end
      | None => None
      end
    else None.

(** Strategy 4: the first table with more than one bidder at the cap. *)
Fixpoint strategy4 (auctionTables : list Table) (f : Found) : Found :=
  match auctionTables with
  | [] => f
  | table :: rest =>
      let capBidders := omap capBidder (rows table) in
      if (1 <? len capBidders)
      then {| f_winner := f_winner f; f_bidAmount := f_bidAmount f;
              f_rollOffWinners := capBidders; f_rollOffBid := Some (Int 1000) |}
      else strategy4 rest f
  end.

Definition extractTimerContext (timerElement : Timer) : option Context :=
  match auctionContainer timerElement with
  | None => None
  | Some container =>
      let winnerText :=
        match tabOffset container with
        | Some t => trim t
        | None => []
        end in
      let '(winner, bidAmount) := parseWinnerText winnerText in
      let '(itemName, quantity) := scanItemDivs (divs container) None None in
      let f0 := {| f_winner := winner; f_bidAmount := bidAmount;
                   f_rollOffWinners := []; f_rollOffBid := None |} in
      let f1 := strategy1 winnerText f0 in
      let hasId := truthy_str (Some (containerId container)) in
      let f3 :=
        if truthy (f_bidAmount f1) && gtZ (f_bidAmount f1) 0 then
          let tabPanel :=
            if hasId then
              match idPanel container with
              | Some p => Some p
              | None => activePanel container
              end
            else activePanel container in
          match tabPanel with
          | Some panel =>
              let f2 :=
                match tables panel with
                | bidsTable :: _ => strategy2 bidsTable f1
                | [] => f1
                end in
              if (len (f_rollOffWinners f2) <=? 1)
              then strategy3 (tables panel) f2 else f2
          | None => f1
          end
        else f1 in
      let f4 :=
        if (len (f_rollOffWinners f3) <=? 1) &&
           strict_eq (f_bidAmount f3) (Some (Int 1000))
        then
          match (if hasId then idPanel container else None) with
          | Some panel => strategy4 (tables panel) f3
          | None => f3
          end
        else f3 in
      let winner := f_winner f4 in
      let bidAmount := f_bidAmount f4 in
      let rollOffWinners := f_rollOffWinners f4 in
      let rollOffBid := f_rollOffBid f4 in
      let noBid := negb (truthy bidAmount) || strict_eq bidAmount (Some (Int 0)) in
      let isRollOff := computeIsRollOff rollOffWinners rollOffBid quantity in
      let actualWinners :=
        selectActualWinners isRollOff rollOffWinners bidAmount quantity winner in
      let multipleWinners := 1 <? len actualWinners in
      Some {|
        winner := winner;
        bidAmount := bidAmount;
        itemName := sanitizeItemName itemName winner;
        quantity := quantity;
        timerWidth := getWidthPercent (Some (element timerElement));
        noBid := noBid;
        isTableStructure := false;
        rollOffWinners := nonempty_or_undefined rollOffWinners;
        rollOffBid := rollOffBid;
        isRollOff := isRollOff;
        multipleWinners := multipleWinners;
        actualWinners := nonempty_or_undefined actualWinners
      |}
  end.

(** At most one leading bid token: nothing, or digits followed by white
    space or dashes. *)
Definition bid_token (tok : jsstring) : Prop :=
  tok = [] \/
  exists ds seps, tok = ds ++ seps /\ all_digits ds /\
    seps <> [] /\ forallb is_space_or_dash seps = true.

(** A name on one line, without surrounding white space, that begins with
    neither a digit nor a dash. *)
Definition plain_name (name : jsstring) : Prop :=
  match name with
  | c :: _ => is_digit c = false /\ is_space_or_dash c = false
  | [] => False
  end /\
  forallb is_dot name = true /\
  trim name = name.


(** A table-shape timer whose row holds the given winner, item text and bid
    in its cells 1 to 3, among the rows [rs]. *)
Definition text_cell (t : jsstring) : Cell :=
  {| textContent := t; link := None; characterLink := None; numberInput := None |}.

Definition link_cell (t : jsstring) : Cell :=
  {| textContent := t; link := Some t; characterLink := Some t; numberInput := None |}.

Definition auction_row (n w item b : jsstring) : Row :=
  {| hasHeaderCell := false;
     cells := [text_cell n; link_cell w; text_cell item; text_cell b;
               text_cell []; text_cell []];
     rowCharacterLink := Some w; rowNumberInput := None |}.

Definition table_timer (widthStr : jsstring) (r : Row) (rs : list Row) : Timer :=
  {| element := {| style := Some {| width := widthStr |} |};
     closestRow := Some {| rowCells := cells r; allRows := Some rs |};
     auctionContainer := None |}.

(** A bid row of a tab panel: row number, bidder link, bid. *)
Definition bid_row (n w b : jsstring) : Row :=
  {| hasHeaderCell := false;
     cells := [text_cell n; link_cell w; text_cell b];
     rowCharacterLink := Some w; rowNumberInput := None |}.

(** A tab-shape timer: the header line, the item line and the bid rows of
    the one table of its panel. *)
Definition tab_timer (widthStr header item : jsstring) (rs : list Row) : Timer :=
  {| element := {| style := Some {| width := widthStr |} |};
     closestRow := None;
     auctionContainer :=
       Some {| containerId := str "pr_id_2_header_action";
               tabOffset := Some header;
               divs := [header; item];
               idPanel := Some {| tables := [{| rows := rs; hasCharacterLinks := true |}] |};
               activePanel := None |} |}.





(** ** Notions the properties of the bidder lists are stated with *)

(** The entries the rows of a table contribute, in row order. *)
Definition rowEntries (rs : list Row) (defaultBid : jsval) : list Entry :=
  omap (fun row => rowEntry row defaultBid) rs.

(** The bids the scan counts for [name], in row order: for each row that
    carries the name, the bid read from the row, or the default bid when
    none could be read from it. *)
Definition countedBids (name : jsstring) (rs : list Row) (defaultBid : jsval) : list Z :=
  map (fun e => or0 (e_bid e))
      (filter (fun e => str_eqb (e_winner e) name = true) (rowEntries rs defaultBid)).

(** The bidders of a context: [rollOffWinners], empty when undefined. *)
Definition bidders (ctx : Context) : list Entry :=
  match rollOffWinners ctx with
  | Some l => l
  | None => []
  end.

(** The winners of a context: [actualWinners], empty when undefined. *)
Definition winners (ctx : Context) : list Entry :=
  match actualWinners ctx with
  | Some l => l
  | None => []
  end.

(** The winner of the header alone, with the bid amount that was read for
    it, when there is a winner. *)
Definition headerWinnerOnly (winner : option jsstring) (bidAmount : jsval) : list Entry :=
  match winner with
  | Some ((_ :: _) as w) => [{| e_winner := w; e_bid := bidAmount |}]
  | _ => []
  end.

(** The highest bid among the bidders (0 when there is none). *)
Definition topBid (l : list Entry) : Z :=
  match l with
  | w0 :: ws => max_of (or0 (e_bid w0)) (map (fun w => or0 (e_bid w)) ws)
  | [] => 0
  end.

(** The bidders that share the top bid. *)
Definition topBidders (l : list Entry) : list Entry :=
  filter (fun w => strict_eq (e_bid w) (Some (Int (topBid l))) = true) l.

(** An entry with a usable bid: a number other than 0. *)
Definition has_bid (e : Entry) : Prop := truthy (e_bid e) = true.

(** An entry whose bid is an integer. *)
Definition is_number (e : Entry) : Prop := exists z, e_bid e = Some (Int z).

(** The header bid under which the tables are scanned:
    [bidAmount && bidAmount > 0]. *)
Definition positive_bid (f : Found) : Prop :=
  truthy (f_bidAmount f) = true /\ gtZ (f_bidAmount f) 0 = true.

(** How both extractors settle the roll-off flag, the winners and the
    no-bid flag from the bidders they found. *)
Definition resolved (ctx : Context) : Prop :=
  isRollOff ctx = computeIsRollOff (bidders ctx) (rollOffBid ctx) (quantity ctx) /\
  winners ctx =
    selectActualWinners (isRollOff ctx) (bidders ctx) (bidAmount ctx)
                        (quantity ctx) (winner ctx) /\
  actualWinners ctx = nonempty_or_undefined (winners ctx) /\
  noBid ctx = negb (truthy (bidAmount ctx)) || strict_eq (bidAmount ctx) (Some (Int 0)) /\
  Forall is_number (bidders ctx).

(** ** Settings, clock and page *)

(** The settings the tracker reads ([settings], loaded from storage). *)
Record Settings := {
  SOUND_TYPE : jsstring;
  SOUND_PROFILE : jsstring;
  RAID_LEADER_SOUNDS : jsstring;     (* empty: undefined *)
  RAIDER_SOUNDS : jsstring;          (* empty: undefined *)
  FLASH_SCREEN : bool;
  BROWSER_NOTIFICATIONS : bool;
  SMART_BIDDING : bool;
  QUIET_HOURS : bool;
  QUIET_START : jsstring;
  QUIET_END : jsstring;
  DISABLE_VISUALS : bool;
  ENABLE_TTS : bool;
  ANNOUNCE_NEW_AUCTIONS : option bool (* [None]: undefined *)
}.

(** [CONFIG], the defaults. *)
Definition CONFIG : Settings := {|
  SOUND_TYPE := str "bell";
  SOUND_PROFILE := str "raidleader";
  RAID_LEADER_SOUNDS := [];
  RAIDER_SOUNDS := [];
  FLASH_SCREEN := true;
  BROWSER_NOTIFICATIONS := true;
  SMART_BIDDING := false;
  QUIET_HOURS := false;
  QUIET_START := str "22:00";
  QUIET_END := str "08:00";
  DISABLE_VISUALS := false;
  ENABLE_TTS := false;
  ANNOUNCE_NEW_AUCTIONS := Some false
|}.

(** What the clock answers during one callback: [Date.now()] and the local
    hours and minutes of [new Date()]. *)
Record Clock := {
  now : Z;
  hours : Z;
  minutes : Z
}.

Inductive Permission : Type := Granted | Denied | Default.

(** The identity of a timer element. *)
Abbreviation handle := nat.

(** The page during one callback: the timers in the document, the element
    behind each handle, and what the policy reads besides. *)
Record Page := {
  timers : list handle;              (* document.querySelectorAll(TIMER_SELECTOR) *)
  timerOf : handle -> Timer;
  contains : handle -> bool;         (* document.contains(timer) *)
  characterLinks : list jsstring;    (* the text of each character link of the top bar *)
  bidElements : bool;                (* a bid input or a bid button is on the page *)
  bidActivity : option jsstring;     (* sessionStorage.getItem('opendkp_bid_activity') *)
  permission : Permission;           (* Notification.permission *)
  announceWindow : bool;             (* isWithinAnnounceWindow() *)
  clock : Clock
}.

(** ** Effects *)

(** What [showNotification] starts. *)
Inductive Output : Type :=
| BrowserNotification (details : Context)  (* new Notification(...) *)
| PermissionRequest                        (* Notification.requestPermission() *)
| ConsoleMessage                           (* console.log of the message *)
| Flash                                    (* flashScreen() *)
| Sound (soundType : jsstring)             (* playCustomSound(soundType) *)
| Beep                                     (* playBeepFallback() *)
| SpeakScheduled (details : Context).      (* setTimeout(speakNotification) *)

(** What the tracker does, in the order it does it. *)
Inductive Effect : Type :=
| Marked (h : handle)                 (* alertedTimers.add(h) *)
| Recorded (sig : jsstring)           (* recordCompleted(sig) *)
| Out (h : handle) (o : Output)       (* an output of the alert for h *)
| Announced (h : handle).             (* the new-auction announcement starts *)

(** The state of the content script. *)
Record State := {
  alertedTimers : gset handle;
  timersWithProgress : gset handle;
  allTimers : list handle;            (* a Set, in insertion order *)
  announcedNewAuctions : gset handle;
  initializationComplete : bool;
  navigationProtectionActive : bool;
  recentCompletedMap : gmap jsstring Z;
  userCharacterNames : list jsstring;
  settings : Settings;
  settingsLoaded : bool;
  trace : list Effect
}.

Definition initialState : State := {|
  alertedTimers := ∅;
  timersWithProgress := ∅;
  allTimers := [];
  announcedNewAuctions := ∅;
  initializationComplete := false;
  navigationProtectionActive := false;
  recentCompletedMap := ∅;
  userCharacterNames := [];
  settings := CONFIG;
  settingsLoaded := false;
  trace := []
|}.

Definition emit (e : Effect) (s : State) : State :=
  {| alertedTimers := alertedTimers s;
     timersWithProgress := timersWithProgress s;
     allTimers := allTimers s;
     announcedNewAuctions := announcedNewAuctions s;
     initializationComplete := initializationComplete s;
     navigationProtectionActive := navigationProtectionActive s;
     recentCompletedMap := recentCompletedMap s;
     userCharacterNames := userCharacterNames s;
     settings := settings s;
     settingsLoaded := settingsLoaded s;
     trace := trace s ++ [e] |}.

(** [alertedTimers.add(h)] *)
Definition markAlerted (h : handle) (s : State) : State :=
  emit (Marked h)
  {| alertedTimers := {[h]} ∪ alertedTimers s;
     timersWithProgress := timersWithProgress s;
     allTimers := allTimers s;
     announcedNewAuctions := announcedNewAuctions s;
     initializationComplete := initializationComplete s;
     navigationProtectionActive := navigationProtectionActive s;
     recentCompletedMap := recentCompletedMap s;
     userCharacterNames := userCharacterNames s;
     settings := settings s;
     settingsLoaded := settingsLoaded s;
     trace := trace s |}.

(** [timersWithProgress.add(h)] *)
Definition markProgress (h : handle) (s : State) : State :=
  {| alertedTimers := alertedTimers s;
     timersWithProgress := {[h]} ∪ timersWithProgress s;
     allTimers := allTimers s;
     announcedNewAuctions := announcedNewAuctions s;
     initializationComplete := initializationComplete s;
     navigationProtectionActive := navigationProtectionActive s;
     recentCompletedMap := recentCompletedMap s;
     userCharacterNames := userCharacterNames s;
     settings := settings s;
     settingsLoaded := settingsLoaded s;
     trace := trace s |}.

Definition setRecent (m : gmap jsstring Z) (s : State) : State :=
  {| alertedTimers := alertedTimers s;
     timersWithProgress := timersWithProgress s;
     allTimers := allTimers s;
     announcedNewAuctions := announcedNewAuctions s;
     initializationComplete := initializationComplete s;
     navigationProtectionActive := navigationProtectionActive s;
     recentCompletedMap := m;
     userCharacterNames := userCharacterNames s;
     settings := settings s;
     settingsLoaded := settingsLoaded s;
     trace := trace s |}.

Definition setCharacterNames (names : list jsstring) (s : State) : State :=
  {| alertedTimers := alertedTimers s;
     timersWithProgress := timersWithProgress s;
     allTimers := allTimers s;
     announcedNewAuctions := announcedNewAuctions s;
     initializationComplete := initializationComplete s;
     navigationProtectionActive := navigationProtectionActive s;
     recentCompletedMap := recentCompletedMap s;
     userCharacterNames := names;
     settings := settings s;
     settingsLoaded := settingsLoaded s;
     trace := trace s |}.

Definition setAllTimers (l : list handle) (s : State) : State :=
  {| alertedTimers := alertedTimers s;
     timersWithProgress := timersWithProgress s;
     allTimers := l;
     announcedNewAuctions := announcedNewAuctions s;
     initializationComplete := initializationComplete s;
     navigationProtectionActive := navigationProtectionActive s;
     recentCompletedMap := recentCompletedMap s;
     userCharacterNames := userCharacterNames s;
     settings := settings s;
     settingsLoaded := settingsLoaded s;
     trace := trace s |}.

Definition markAnnounced (h : handle) (s : State) : State :=
  {| alertedTimers := alertedTimers s;
     timersWithProgress := timersWithProgress s;
     allTimers := allTimers s;
     announcedNewAuctions := {[h]} ∪ announcedNewAuctions s;
     initializationComplete := initializationComplete s;
     navigationProtectionActive := navigationProtectionActive s;
     recentCompletedMap := recentCompletedMap s;
     userCharacterNames := userCharacterNames s;
     settings := settings s;
     settingsLoaded := settingsLoaded s;
     trace := trace s |}.

Definition setFlags (init prot : bool) (s : State) : State :=
  {| alertedTimers := alertedTimers s;
     timersWithProgress := timersWithProgress s;
     allTimers := allTimers s;
     announcedNewAuctions := announcedNewAuctions s;
     initializationComplete := init;
     navigationProtectionActive := prot;
     recentCompletedMap := recentCompletedMap s;
     userCharacterNames := userCharacterNames s;
     settings := settings s;
     settingsLoaded := settingsLoaded s;
     trace := trace s |}.

Definition setSettings (st : Settings) (s : State) : State :=
  {| alertedTimers := alertedTimers s;
     timersWithProgress := timersWithProgress s;
     allTimers := allTimers s;
     announcedNewAuctions := announcedNewAuctions s;
     initializationComplete := initializationComplete s;
     navigationProtectionActive := navigationProtectionActive s;
     recentCompletedMap := recentCompletedMap s;
     userCharacterNames := userCharacterNames s;
     settings := st;
     settingsLoaded := true;
     trace := trace s |}.

(** ** Completion signatures *)

(** [COMPLETED_SUPPRESS_MS = 2 * 60 * 1000] *)
Definition COMPLETED_SUPPRESS_MS : Z := 2 * 60 * 1000.

(** A number in a template string (integers print in decimal). *)
Definition number_to_string (z : Z) : jsstring :=
  str (DecimalString.NilZero.string_of_int (Z.to_int z)).

Definition or_empty (s : option jsstring) : jsstring :=
  match s with Some t => t | None => [] end.

(** [buildCompletionSignature(ctx)]: item, winner and bid, lower-cased and
    trimmed, joined by a bar; a missing context gives ["||0"]. *)
Definition buildCompletionSignature (ctx : option Context) : jsstring :=
  let item := trim (toLowerCase (or_empty (ctx ≫= itemName))) in
  let winner := trim (toLowerCase (or_empty (ctx ≫= winner))) in
  let bid := or0 (ctx ≫= bidAmount) in
  item ++ str "|" ++ winner ++ str "|" ++ number_to_string bid.

(** [isRecentlyCompleted(signature)]: recorded, at a time other than 0,
    less than two minutes ago. *)
Definition isRecentlyCompleted (nowMs : Z) (signature : jsstring) (s : State) : bool :=
  match recentCompletedMap s !! signature with
  | Some ts => if ts =? 0 then false else nowMs - ts <? COMPLETED_SUPPRESS_MS
  | None => false
  end.

(** [recordCompleted(signature)]: the signature is stamped with the time;
    above 200 entries the map drops those older than two minutes. *)
Definition recordCompleted (nowMs : Z) (signature : jsstring) (s : State) : State :=
  let m := <[signature := nowMs]> (recentCompletedMap s) in
  let m' :=
    if (200 <? Z.of_nat (size m))
    then filter (fun kv => ~ (COMPLETED_SUPPRESS_MS < nowMs - kv.2)) m
    else m in
  emit (Recorded signature) (setRecent m' s).

(** ** The alert policy *)

(** [s.replace(':', '')] *)
Fixpoint remove_first_char (c : ascii) (s : jsstring) : jsstring :=
  match s with
  | x :: s' => if Ascii.eqb c x then s' else x :: remove_first_char c s'
  | [] => []
  end.

(** [a >= b] and [a <= b] on what [parseInt] returns. *)
Definition int_ge (a : Z) (b : jsint) : bool :=
  match b with Int z => z <=? a | NaN => false end.
Definition int_le (a : Z) (b : jsint) : bool :=
  match b with Int z => a <=? z | NaN => false end.
Definition jsint_gt (a b : jsint) : bool :=
  match a, b with Int x, Int y => y <? x | _, _ => false end.

(** [isQuietHours()] *)
Definition isQuietHours (c : Clock) (st : Settings) : bool :=
  if negb (QUIET_HOURS st) then false
  else
    let currentTime := hours c * 100 + minutes c in
    let startTime := parseInt (remove_first_char ":" (QUIET_START st)) in
    let endTime := parseInt (remove_first_char ":" (QUIET_END st)) in
    if jsint_gt startTime endTime
    then int_ge currentTime startTime || int_le currentTime endTime
    else int_ge currentTime startTime && int_le currentTime endTime.

(** [/^([^[]+)\s*\[/] *)
Definition CHARACTER_RE : re :=
  seqs [Grp 1 (Plus true is_not_lbracket); Star true is_space; Chr "["].

(** [extractUserCharacterNames()]: the names before the bracket of each
    character link of the top bar. *)
Definition extractUserCharacterNames (p : Page) : list jsstring :=
  omap (fun text =>
          match match_anchored CHARACTER_RE (trim text) with
          | Some m => Some (trim (grp 1 m))
          | None => None
          end) (characterLinks p).

(** [isUserCharacter(winnerName)] *)
Definition isUserCharacter (names : list jsstring) (winnerName : jsstring) : bool :=
  match winnerName, names with
  | [], _ | _, [] => false
  | _, _ => existsb (fun characterName => same_name characterName winnerName) names
  end.

(** [isUserBidding(context)]; the character names are read from the page
    when none is known yet, and kept. *)
Definition isUserBidding (p : Page) (context : Context) (s : State) : bool * State :=
  let s1 :=
    match userCharacterNames s with
    | [] => setCharacterNames (extractUserCharacterNames p) s
    | _ => s
    end in
  match userCharacterNames s1 with
  | [] =>
      if bidElements p then (true, s1)
      else
        match bidActivity p with
        | Some ((_ :: _) as recentBidActivity) =>
            match parseInt recentBidActivity with
            | Int activityTime =>
                (now (clock p) - activityTime <? 5 * 60 * 1000, s1)
            | NaN => (false, s1)
            end
        | _ => (false, s1)
        end
  | names =>
      match winner context with
      | Some ((_ :: _) as w) => (isUserCharacter names w, s1)
      | _ =>
          match rollOffWinners context with
          | Some ((_ :: _) as l) =>
              (existsb (fun participant => isUserCharacter names (e_winner participant)) l, s1)
          | _ => (false, s1)
          end
      end
  end.

Definition is_some {A} (o : option A) : bool :=
  match o with Some _ => true | None => false end.

(** Rule 2 of [shouldAlert]: in smart bidding mode, with the raider
    profile, only the auctions the user is bidding on pass. *)
Definition smartBiddingFilter (p : Page) (context : Context) (s : State) : bool * State :=
  if SMART_BIDDING (settings s) && str_eqb (SOUND_PROFILE (settings s)) (str "raider")
  then isUserBidding p context s
  else (true, s).

(** [shouldAlert(context)] *)
Definition shouldAlert (p : Page) (context : Context) (s : State) : bool * State :=
  (* Rule 1: no alert if nobody bid *)
  if noBid context then (false, s)
  else
    (* Rule 2: smart bidding, only alert if the user is bidding *)
    let '(pass, s1) := smartBiddingFilter p context s in
    if negb pass then (false, s1)
    else
      (* Rule 3: quiet hours, visual notifications only *)
      if isQuietHours (clock p) (settings s1) then (negb (DISABLE_VISUALS (settings s1)), s1)
      (* Rule 4: a single winner *)
      else if truthy_str (winner context) && negb (is_some (rollOffWinners context))
      then (true, s1)
      (* Rule 5: several winners of a multi-item auction *)
      else if gtZ (quantity context) 1 && is_some (rollOffWinners context) &&
              (or0 (quantity context) <=? len (bidders context))
      then (true, s1)
      (* Rule 6: roll-off *)
      else if isRollOff context && is_some (rollOffWinners context) &&
              (or1 (quantity context) <? len (bidders context))
      then (true, s1)
      (* Rule 7: a valid bid amount *)
      else if truthy (bidAmount context) && gtZ (bidAmount context) 0
      then (true, s1)
      else (false, s1).

(** ** The outputs *)

(** [getCurrentSoundType()] *)
Definition getCurrentSoundType (st : Settings) : jsstring :=
  match SOUND_TYPE st with
  | _ :: _ => SOUND_TYPE st
  | [] =>
      if str_eqb (SOUND_PROFILE st) (str "raidleader") then
        match RAID_LEADER_SOUNDS st with _ :: _ => RAID_LEADER_SOUNDS st | [] => SOUND_TYPE CONFIG end
      else if str_eqb (SOUND_PROFILE st) (str "raider") then
        match RAIDER_SOUNDS st with _ :: _ => RAIDER_SOUNDS st | [] => SOUND_TYPE CONFIG end
      else SOUND_TYPE CONFIG
  end.

(** [playChime()]: nothing in quiet hours, else the sound of the profile,
    or a beep when there is none. *)
Definition playChime (c : Clock) (st : Settings) : list Output :=
  if isQuietHours c st then []
  else
    match getCurrentSoundType st with
    | [] => [Beep]
    | soundType => [Sound soundType]
    end.

(** The last cleaning of the item name, in [showNotification]:
    [context.itemName.trim()], then the removal of a bid prefix. *)
Definition cleanContext (context : Context) : Context :=
  {| winner := winner context;
     bidAmount := bidAmount context;
     itemName :=
       match itemName context with
       | Some ((_ :: _) as n) => Some (cleanBidPrefix (trim n))
       | other => other
       end;
     quantity := quantity context;
     timerWidth := timerWidth context;
     noBid := noBid context;
     isTableStructure := isTableStructure context;
     rollOffWinners := rollOffWinners context;
     rollOffBid := rollOffBid context;
     isRollOff := isRollOff context;
     multipleWinners := multipleWinners context;
     actualWinners := actualWinners context |}.

(** [showNotification(context)]: the browser notification, the console
    message and the screen flash unless visuals are disabled; then, outside
    quiet hours, the sound and the scheduled speech. *)
Definition showNotification (p : Page) (st : Settings) (context : Context) : list Output :=
  let context := cleanContext context in
  (if BROWSER_NOTIFICATIONS st && negb (DISABLE_VISUALS st) then
     match permission p with
     | Granted => [BrowserNotification context]
     | Default => [PermissionRequest]
     | Denied => []
     end
   else []) ++
  (if negb (DISABLE_VISUALS st) then [ConsoleMessage] else []) ++
  (if FLASH_SCREEN st && negb (DISABLE_VISUALS st) then [Flash] else []) ++
  (if isQuietHours (clock p) st then []
   else playChime (clock p) st ++ [SpeakScheduled context]).

(** The outputs that make a sound: the chime, the beep and the speech. *)
Definition audible (o : Output) : bool :=
  match o with
  | Sound _ | Beep | SpeakScheduled _ => true
  | _ => false
  end.

(** ** The completion and deduplication state machine *)

Definition emitOutputs (h : handle) (os : list Output) (s : State) : State :=
  fold_left (fun s o => emit (Out h o) s) os s.

(** [extractTableContext(t) || extractTimerContext(t)] *)
Definition extractContext (timerElement : Timer) : option Context :=
  match extractTableContext timerElement with
  | Some context => Some context
  | None => extractTimerContext timerElement
  end.

(** The deduplication rule of [checkTimer]:
    [wasRecentlyCompleted && hasBeenAlertedForThisTimer]. *)
Definition duplicateCompletion (nowMs : Z) (sig : jsstring) (h : handle) (s : State) : bool :=
  let wasRecentlyCompleted := isRecentlyCompleted nowMs sig s in
  let hasBeenAlertedForThisTimer := bool_decide (h ∈ alertedTimers s) in
  wasRecentlyCompleted && hasBeenAlertedForThisTimer.

(** [checkTimer(timerElement)]: the result ([true] when an alert decision was
    taken) and the state after it. *)
Definition checkTimer (p : Page) (h : handle) (s : State) : bool * State :=
  if negb (initializationComplete s) then (false, s)
  else if navigationProtectionActive s then (false, s)
  else if bool_decide (h ∈ alertedTimers s) then (false, s)
  else
    let timerElement := timerOf p h in
    let width := getWidthPercent (Some (element timerElement)) in
    let s1 :=
      match width with
      | Some w => if float_gt w 1 then markProgress h s else s
      | None => s
      end in
    match width with
    | Some w =>
        if float_le w 0 then
          let hasSeenProgress := bool_decide (h ∈ timersWithProgress s1) in
          let firstCheck := negb hasSeenProgress && negb (bool_decide (h ∈ alertedTimers s1)) in
          if negb hasSeenProgress && negb firstCheck then (false, markAlerted h s1)
          else
            match extractContext timerElement with
            | Some context =>
                if truthy_str (itemName context) then
                  let sig := buildCompletionSignature (Some context) in
                  if duplicateCompletion (now (clock p)) sig h s1 then (false, s1)
                  else
                    let s2 := markAlerted h s1 in
                    let '(alert, s3) := shouldAlert p context s2 in
                    if alert then
                      let s4 := emitOutputs h (showNotification p (settings s3) context) s3 in
                      (true, recordCompleted (now (clock p)) sig s4)
                    else (true, s3)
                else (false, markAlerted h s1)
            | None => (false, markAlerted h s1)
            end
        else (false, s1)
    | None => (false, s1)
    end.

Definition float_lt (w : jsfloat) (z : Z) : bool :=
  match w with
  | Fin q => if Qlt_le_dec q (inject_Z z) then true else false
  | PosInf => false
  | FNaN => false
  end.

(** [maybeAnnounceNewAuction(timerElement)]: a timer is announced at most
    once, and only when it is found at 50% or more. *)
Definition maybeAnnounceNewAuction (p : Page) (h : handle) (s : State) : State :=
  if bool_decide (h ∈ announcedNewAuctions s) then s
  else
    let s1 := markAnnounced h s in
    let initialWidth := getWidthPercent (Some (element (timerOf p h))) in
    if match initialWidth with Some w => float_lt w 50 | None => false end then s1
    else if match initialWidth with Some w => float_le w 0 | None => false end then s1
    else
      let st := settings s1 in
      let featureEnabled :=
        match ANNOUNCE_NEW_AUCTIONS st with
        | Some b => b
        | None => ENABLE_TTS st
        end in
      if settingsLoaded s1 && ENABLE_TTS st && featureEnabled &&
         negb (isQuietHours (clock p) st) && announceWindow p
      then emit (Announced h) s1
      else s1.

(** [allTimers.add(h)] *)
Definition addTimer (h : handle) (s : State) : State :=
  if bool_decide (h ∈ allTimers s) then s else setAllTimers (allTimers s ++ [h]) s.

(** The first loop of [checkAllTimers]: the timers of the scan that are
    new are registered and announced, and marked alerted when they are
    found completed during the protection window. *)
Definition registerTimer (p : Page) (s : State) (h : handle) : State :=
  if bool_decide (h ∈ allTimers s) then s
  else
    let s1 := maybeAnnounceNewAuction p h (addTimer h s) in
    let width := getWidthPercent (Some (element (timerOf p h))) in
    if navigationProtectionActive s1 &&
       match width with Some w => float_le w 0 | None => false end
    then markAlerted h s1
    else s1.

(** The second loop of [checkAllTimers]: a timer that left the document is
    dropped, the others are checked. *)
Definition checkOrDrop (p : Page) (s : State) (h : handle) : State :=
  if negb (contains p h)
  then setAllTimers (List.filter (fun x => negb (Nat.eqb x h)) (allTimers s)) s
  else snd (checkTimer p h s).

(** [checkAllTimers()] *)
Definition checkAllTimers (p : Page) (s : State) : State :=
  let s1 := fold_left (registerTimer p) (timers p) s in
  fold_left (checkOrDrop p) (allTimers s1) s1.

(** The completed timers of a scan: [width !== null && width <= 0]. *)
Definition isCompleted (p : Page) (h : handle) : bool :=
  match getWidthPercent (Some (element (timerOf p h))) with
  | Some w => float_le w 0
  | None => false
  end.

(** A timer found completed when protection starts is marked alerted and
    its signature is recorded. *)
Definition markCompleted (p : Page) (s : State) (h : handle) : State :=
  let s1 := markAlerted h s in
  let ctx := extractContext (timerOf p h) in
  recordCompleted (now (clock p)) (buildCompletionSignature ctx) s1.

(** [initialize()], up to the timeouts it sets: protection starts, the
    timers of the page are registered (a NodeList holds each element once),
    the completed ones are marked, the character names are read. *)
Definition initialize (p : Page) (s : State) : State :=
  let s1 := setFlags (initializationComplete s) true s in
  let s2 := setAllTimers (timers p) s1 in
  let s3 := fold_left (markCompleted p) (List.filter (isCompleted p) (allTimers s2)) s2 in
  setCharacterNames (extractUserCharacterNames p) s3.

(** The [visibilitychange] listener, when the page becomes visible. *)
Definition becameVisible (p : Page) (s : State) : State :=
  let s1 := setFlags (initializationComplete s) true s in
  fold_left (fun s h => if isCompleted p h then markCompleted p s h else s)
            (timers p) s1.

(** The callback of the mutation observer, when a timer was added. *)
Definition mutationObserved (p : Page) (s : State) : State :=
  fold_left (fun s h =>
               if bool_decide (h ∈ allTimers s) then s
               else maybeAnnounceNewAuction p h (addTimer h s))
            (timers p) s.

(** The settings [loadSettings] installs from the stored ones: smart
    bidding is switched on for the raider profile. *)
Definition loadedSettings (stored : Settings) : Settings :=
  if str_eqb (SOUND_PROFILE stored) (str "raider") then
    {| SOUND_TYPE := SOUND_TYPE stored;
       SOUND_PROFILE := SOUND_PROFILE stored;
       RAID_LEADER_SOUNDS := RAID_LEADER_SOUNDS stored;
       RAIDER_SOUNDS := RAIDER_SOUNDS stored;
       FLASH_SCREEN := FLASH_SCREEN stored;
       BROWSER_NOTIFICATIONS := BROWSER_NOTIFICATIONS stored;
       SMART_BIDDING := true;
       QUIET_HOURS := QUIET_HOURS stored;
       QUIET_START := QUIET_START stored;
       QUIET_END := QUIET_END stored;
       DISABLE_VISUALS := DISABLE_VISUALS stored;
       ENABLE_TTS := ENABLE_TTS stored;
       ANNOUNCE_NEW_AUCTIONS := ANNOUNCE_NEW_AUCTIONS stored |}
  else stored.

(** The callbacks of the content script. *)
Inductive Event : Type :=
| Initialize (p : Page)          (* initialize() *)
| MonitoringStarts               (* 3 s later: initializationComplete = true *)
| ProtectionEnds                 (* navigationProtectionActive = false *)
| Tick (p : Page)                (* the polling interval: checkAllTimers() *)
| Mutation (p : Page)            (* the mutation observer *)
| BecameVisible (p : Page)       (* visibilitychange *)
| SettingsLoaded (stored : Settings) (* loadSettings() resolved *)
| NamesRead (p : Page).          (* extractUserCharacterNames(), on settingsUpdated *)

Definition step (s : State) (e : Event) : State :=
  match e with
  | Initialize p => initialize p s
  | MonitoringStarts => setFlags true (navigationProtectionActive s) s
  | ProtectionEnds => setFlags (initializationComplete s) false s
  | Tick p => checkAllTimers p s
  | Mutation p => mutationObserved p s
  | BecameVisible p => becameVisible p s
  | SettingsLoaded stored => setSettings (loadedSettings stored) s
  | NamesRead p => setCharacterNames (extractUserCharacterNames p) s
  end.

Definition runEvents (s : State) (events : list Event) : State := fold_left step events s.

(** The outputs of the alerts for [h], in order. *)
Definition outputsFor (h : handle) (t : list Effect) : list Output :=
  omap (fun e => match e with
                 | Out h' o => if Nat.eqb h h' then Some o else None
                 | _ => None
                 end) t.

(** ** Notions the properties of the state machine are stated with *)

(** In the effects [new] that follow the state [s], every output for a
    handle comes after the marking of that handle, and the handle was not
    alerted in [s]. *)
Definition fresh_alerts (s : State) (new : list Effect) : Prop :=
  forall pre h o post,
    new = pre ++ Out h o :: post -> (h ∉ alertedTimers s) /\ In (Marked h) pre.

(** [s'] follows [s]: no handle leaves the alerted set, the trace grows,
    and the new effects are fresh alerts. *)
Definition advances (s s' : State) : Prop :=
  (alertedTimers s ⊆ alertedTimers s') /\
  exists new, trace s' = trace s ++ new /\ fresh_alerts s new.

(** The handles the effects [t] add to the alerted set. *)
Definition marked (t : list Effect) : gset handle :=
  list_to_set (omap (fun e => match e with Marked h => Some h | _ => None end) t).

(** [s'] follows [s] with the alerted set accounted for by the trace: the
    trace grows, and the alerted set grows by exactly the handles the new
    effects mark. *)
Definition accounted (s s' : State) : Prop :=
  exists new, trace s' = trace s ++ new /\
              alertedTimers s' = alertedTimers s ∪ marked new.

(** The check of [h] from [s] alerts, and marks first: [h] was not in the
    alerted set; the check first reaches a state [s0] in which [h] is in
    the alerted set and no output has been started yet, and it ends by
    starting the outputs from [s0] and recording the signature. *)
Definition alerts_marked_first (p : Page) (h : handle) (s : State) : Prop :=
  (h ∉ alertedTimers s) /\
  exists s0 os sig,
    alertedTimers s0 = {[h]} ∪ alertedTimers s /\
    (forall h', outputsFor h' (trace s0) = outputsFor h' (trace s)) /\
    snd (checkTimer p h s) = recordCompleted (now (clock p)) sig (emitOutputs h os s0).

(** Default settings with quiet hours from 22:00 to 08:00. *)
Definition quietSettings : Settings :=
  {| SOUND_TYPE := str "bell";
     SOUND_PROFILE := str "raidleader";
     RAID_LEADER_SOUNDS := str "bell";
     RAIDER_SOUNDS := str "chime";
     FLASH_SCREEN := true;
     BROWSER_NOTIFICATIONS := true;
     SMART_BIDDING := false;
     QUIET_HOURS := true;
     QUIET_START := str "22:00";
     QUIET_END := str "08:00";
     DISABLE_VISUALS := false;
     ENABLE_TTS := true;
     ANNOUNCE_NEW_AUCTIONS := Some false |}.

(** The raider profile, with smart bidding. *)
Definition raiderSettings : Settings :=
  {| SOUND_TYPE := str "chime";
     SOUND_PROFILE := str "raider";
     RAID_LEADER_SOUNDS := str "bell";
     RAIDER_SOUNDS := str "chime";
     FLASH_SCREEN := true;
     BROWSER_NOTIFICATIONS := true;
     SMART_BIDDING := true;
     QUIET_HOURS := true;
     QUIET_START := str "22:00";
     QUIET_END := str "08:00";
     DISABLE_VISUALS := false;
     ENABLE_TTS := true;
     ANNOUNCE_NEW_AUCTIONS := Some false |}.

(** A page at 23:30 whose timers all show the same finished auction of the
    table shape, won by Bob for 150; the user's character is Alice. *)
Definition auctionPage (ts : list handle) (widthStr : jsstring) : Page :=
  {| timers := ts;
     timerOf := fun _ =>
       table_timer widthStr
         (auction_row (str "1") (str "Bob") (str "Yelinak's Talisman x 1") (str "150")) [];
     contains := fun _ => true;
     characterLinks := [str "Alice [120]"];
     bidElements := false;
     bidActivity := None;
     permission := Granted;
     announceWindow := true;
     clock := {| now := 1000000; hours := 23; minutes := 30 |} |}.

(** The same page at noon. *)
Definition noonPage (ts : list handle) (widthStr : jsstring) : Page :=
  {| timers := ts;
     timerOf := timerOf (auctionPage ts widthStr);
     contains := fun _ => true;
     characterLinks := [str "Alice [120]"];
     bidElements := false;
     bidActivity := None;
     permission := Granted;
     announceWindow := true;
     clock := {| now := 1000000; hours := 12; minutes := 0 |} |}.

(** The context of that auction. *)
Definition bobContext : Context :=
  {| winner := Some (str "Bob");
     bidAmount := Some (Int 150);
     itemName := Some (str "Yelinak's Talisman");
     quantity := Some (Int 1);
     timerWidth := Some (Fin 0);
     noBid := false;
     isTableStructure := false;
     rollOffWinners := None;
     rollOffBid := None;
     isRollOff := false;
     multipleWinners := false;
     actualWinners := Some [{| e_winner := str "Bob"; e_bid := Some (Int 150) |}] |}.

(** A state with the given settings and character names. *)
Definition stateWith (st : Settings) (names : list jsstring) : State :=
  setCharacterNames names (setSettings st initialState).

(** ** Notions for the properties of the polling loop *)

(** The part of the state a check of one timer leaves alone: the monitored
    timers, the announced ones, the two flags and the settings. *)
Definition monitoring (s : State) :=
  (allTimers s, announcedNewAuctions s, initializationComplete s,
   navigationProtectionActive s, settings s, settingsLoaded s).

(** How many times the announcement of [h] started. *)
Definition announcedCount (h : handle) (t : list Effect) : nat :=
  length (omap (fun e => match e with
                         | Announced h' => if Nat.eqb h h' then Some tt else None
                         | _ => None
                         end) t).

(** [s'] differs from [s] by no alert: the flags and the recent completions
    are the same and no output was added. *)
Definition silent (s s' : State) : Prop :=
  initializationComplete s' = initializationComplete s /\
  navigationProtectionActive s' = navigationProtectionActive s /\
  recentCompletedMap s' = recentCompletedMap s /\
  forall h, outputsFor h (trace s') = outputsFor h (trace s).

(** From [s] to [s'] no announced timer is announced again: a timer that
    was marked announced stays so and its count stays, and the count of
    another one grows by one at most, and then it is marked. *)
Definition announces (s s' : State) : Prop :=
  forall h,
    (h ∈ announcedNewAuctions s ->
       (h ∈ announcedNewAuctions s') /\
       announcedCount h (trace s') = announcedCount h (trace s)) /\
    (h ∉ announcedNewAuctions s ->
       announcedCount h (trace s') = announcedCount h (trace s) \/
       (announcedCount h (trace s') = S (announcedCount h (trace s)) /\
        h ∈ announcedNewAuctions s')).

(** * The reminder scheduler of the background script *)

Module Background.

(** A reminder as it is stored: [enabled], [start], [end], [message] and
    [lastAckTs] may be missing; a missing or empty string is falsy, and so
    is a missing or zero time stamp. *)
Record Reminder := {
  id : jsstring;
  enabled : bool;
  start : option jsstring;
  stop : option jsstring;          (* rem.end *)
  message : option jsstring;
  lastAckTs : option Z
}.

(** [cached] and [lastFiredBoundary]; the entries of [cached.reminders] may
    be [null], and [enabledDays] is [None] when the stored preference is not
    an array.  The identifiers are taken as the property names they are
    used as.  [lastFiredBoundary] is a plain object ([{}]); the map holds
    its own properties, which are read and written through [boundary_get],
    [boundary_set] and [boundary_delete] below. *)
Record Scheduler := {
  reminders : list (option Reminder);
  enabledDays : option (list Z);
  soundProfile : jsstring;
  lastFiredBoundary : gmap jsstring jsstring
}.

(** What a tick does outside the scheduler. *)
Inductive Action : Type :=
| Fired (rem : Reminder)                         (* triggerReminder(rem) *)
| StorageSet (updated : list (option Reminder)). (* api.storage.sync.set({ reminders }) *)

(** What [new Date()] and [Date.now()] answer during a tick. *)
Record TickClock := {
  getHours : Z;
  getMinutes : Z;
  getDay : Z;
  timestamp : Z
}.

(** [s || d] on a string that may be missing. *)
Definition or_str (s : option jsstring) (d : jsstring) : jsstring :=
  match s with
  | Some ((_ :: _) as t) => t
  | _ => d
  end.

(** [parseInt(x) || 0] *)
Definition int_or0 (v : jsint) : Z :=
  match v with Int z => z | NaN => 0 end.

(** [String(n).padStart(2, '0')] *)
Definition padStart2 (s : jsstring) : jsstring :=
  repeat "0"%char (2 - length s) ++ s.

(** The [hhmm] of [withinWindow]:
<<
    const m = t.split(':');
    return (parseInt(m[0])||0)*100 + (parseInt(m[1])||0);
>> *)
Definition hhmm (t : jsstring) : jsint :=
  let m := split_on ":" t in
  Int (int_or0 (parseInt_opt (m !! 0%nat)) * 100 +
       int_or0 (parseInt_opt (m !! 1%nat))).

(** [withinWindow(nowHM, startHM, endHM)] *)
Definition withinWindow (nowHM startHM endHM : jsstring) : bool :=
  match hhmm nowHM, hhmm startHM, hhmm endHM with
  | _, NaN, _ | _, _, NaN => false
  | cur, Int s, Int e =>
      if s =? e then true
      else
        let ge_s := match cur with Int c => s <=? c | NaN => false end in
        let le_e := match cur with Int c => c <=? e | NaN => false end in
        if s <=? e then ge_s && le_e else ge_s || le_e
  end.

(** The label of the minute: ["HH:MM"]. *)
Definition boundaryOf (c : TickClock) : jsstring :=
  padStart2 (number_to_string (getHours c)) ++ str ":" ++
  padStart2 (number_to_string (getMinutes c)).

(** The property name that reaches the prototype of a plain object. *)
Definition PROTO : jsstring := str "__proto__".

(** [lastFiredBoundary[k]], as far as it is compared with a boundary: the
    string stored under the own property [k].  The key ["__proto__"] reads
    the prototype, and a key the object does not own reads what
    [Object.prototype] defines under it, a function or [undefined]: never a
    string. *)
Definition boundary_get (m : gmap jsstring jsstring) (k : jsstring) : option jsstring :=
  if str_eqb k PROTO then None else m !! k.

(** [lastFiredBoundary[k] = v] for a string [v]: the own property is
    created or updated; under the key ["__proto__"] the assignment reaches
    the prototype setter, which ignores a value that is neither an object
    nor [null], and nothing is stored. *)
Definition boundary_set (k v : jsstring) (m : gmap jsstring jsstring)
  : gmap jsstring jsstring :=
  if str_eqb k PROTO then m else <[k := v]> m.

(** [delete lastFiredBoundary[k]]: the own property goes, if there is
    one. *)
Definition boundary_delete (k : jsstring) (m : gmap jsstring jsstring)
  : gmap jsstring jsstring :=
  if str_eqb k PROTO then m else delete k m.

(** [{ ...r, lastAckTs: 0 }] *)
Definition clearAck (rem : Reminder) : Reminder :=
  {| id := id rem; enabled := enabled rem; start := start rem; stop := stop rem;
     message := message rem; lastAckTs := Some 0 |}.

Definition setReminders (rs : list (option Reminder)) (st : Scheduler) : Scheduler :=
  {| reminders := rs; enabledDays := enabledDays st; soundProfile := soundProfile st;
     lastFiredBoundary := lastFiredBoundary st |}.

Definition setBoundaries (m : gmap jsstring jsstring) (st : Scheduler) : Scheduler :=
  {| reminders := reminders st; enabledDays := enabledDays st;
     soundProfile := soundProfile st; lastFiredBoundary := m |}.

(** The write of the cleared acknowledgment:
<<
    const updated = cached.reminders.map(r => r.id===rem.id ? { ...r, lastAckTs: 0 } : r);
    api.storage.sync.set({ reminders: updated });
>>
    inside a [try]: reading the [id] of a [null] entry throws and nothing is
    written. *)
Definition ackWrite (rs : list (option Reminder)) (remId : jsstring) : list Action :=
  if forallb (fun r => match r with Some _ => true | None => false end) rs
  then [StorageSet (map (fun r => match r with
                                  | Some x => if str_eqb (id x) remId then Some (clearAck x) else r
                                  | None => r
                                  end) rs)]
  else [].

(** The body of the [forEach] of [onTick] for the reminder at index [i]. *)
Definition tickReminder (c : TickClock) (acc : Scheduler * list Action) (i : nat)
  : Scheduler * list Action :=
  let '(st, out) := acc in
  match reminders st !! i with
  | Some (Some rem) =>
      if negb (enabled rem) then acc
      else
        let hm := boundaryOf c in
        let startHM := or_str (start rem) (str "19:00") in
        let endHM := or_str (stop rem) (str "23:00") in
        if negb (withinWindow hm startHM endHM)
        then (setBoundaries (boundary_delete (id rem) (lastFiredBoundary st)) st, out)
        else if match boundary_get (lastFiredBoundary st) (id rem) with
                | Some lastBoundary => str_eqb lastBoundary hm
                | None => false
                end
        then acc
        else
          let lastAck := match lastAckTs rem with Some a => a | None => 0 end in
          if (0 <? lastAck) && (timestamp c <? lastAck) then acc
          else
            let '(rem1, st1, out1) :=
              if 0 <? lastAck
              then
                let rs := <[i := Some (clearAck rem)]> (reminders st) in
                (clearAck rem, setReminders rs st, out ++ ackWrite rs (id rem))
              else (rem, st, out) in
            (setBoundaries (boundary_set (id rem) hm (lastFiredBoundary st1)) st1,
             out1 ++ [Fired rem1])
  | _ => acc
  end.

(** [onTick()]: the scheduler after the tick and what the tick did. *)
Definition onTick (c : TickClock) (st : Scheduler) : Scheduler * list Action :=
  if negb (str_eqb (soundProfile st) (str "raidleader")) then (st, [])
  else if negb (existsb (fun r => match r with Some x => enabled x | None => false end)
                        (reminders st))
  then (st, [])
  else
    let days := match enabledDays st with
                | Some l => l
                | None => [0; 1; 2; 3; 4; 5; 6]
                end in
    if negb (existsb (Z.eqb (getDay c)) days) then (st, [])
    else if negb (Z.rem (getMinutes c) 5 =? 0) then (st, [])
    else fold_left (tickReminder c) (seq 0 (length (reminders st))) (st, []).

(** The reminders a tick fired. *)
Definition firedBy (out : list Action) : list Reminder :=
  omap (fun a => match a with Fired rem => Some rem | _ => None end) out.

(** ** Notions the properties of the scheduler are stated with *)

(** The reminders of the list that are not [null]. *)
Definition present (rs : list (option Reminder)) : list Reminder := omap (fun r => r) rs.

(** The time stamp an acknowledgment holds a reminder until, 0 for none. *)
Definition ackUntil (rem : Reminder) : Z :=
  match lastAckTs rem with Some a => a | None => 0 end.

(** The window of a reminder holds the minute of the clock. *)
Definition inWindow (c : TickClock) (rem : Reminder) : bool :=
  withinWindow (boundaryOf c) (or_str (start rem) (str "19:00"))
               (or_str (stop rem) (str "23:00")).

(** The reminder already fired at this minute. *)
Definition firedAt (c : TickClock) (m : gmap jsstring jsstring) (rem : Reminder) : bool :=
  bool_decide (boundary_get m (id rem) = Some (boundaryOf c)).

(** The acknowledgment of the reminder still holds it. *)
Definition held (c : TickClock) (rem : Reminder) : bool :=
  (0 <? ackUntil rem) && (timestamp c <? ackUntil rem).

(** The reminder is due: enabled, inside its window, not yet fired at this
    minute and not held by an acknowledgment. *)
Definition due (c : TickClock) (m : gmap jsstring jsstring) (rem : Reminder) : bool :=
  enabled rem && inWindow c rem && negb (firedAt c m rem) && negb (held c rem).

(** The tick looks at the reminders at all: raid leader profile, an
    enabled reminder, an enabled day, a minute that is a multiple of 5. *)
Definition ticking (c : TickClock) (st : Scheduler) : bool :=
  str_eqb (soundProfile st) (str "raidleader") &&
  existsb enabled (present (reminders st)) &&
  existsb (Z.eqb (getDay c))
          (match enabledDays st with Some l => l | None => [0; 1; 2; 3; 4; 5; 6] end) &&
  (Z.rem (getMinutes c) 5 =? 0).

(** The reminder as [triggerReminder] receives it: with its acknowledgment
    cleared when it had one. *)
Definition asFired (rem : Reminder) : Reminder :=
  if 0 <? ackUntil rem then clearAck rem else rem.

(** The loop of [onTick] written over the list: the reminders after the
    sweep, the boundaries after it and the reminders fired, in order. *)
Fixpoint sweep (c : TickClock) (rs : list (option Reminder)) (m : gmap jsstring jsstring)
  : list (option Reminder) * gmap jsstring jsstring * list Reminder :=
  match rs with
  | [] => ([], m, [])
  | None :: rs' =>
      let '(rs1, m1, f) := sweep c rs' m in (None :: rs1, m1, f)
  | Some rem :: rs' =>
      if negb (enabled rem) then
        let '(rs1, m1, f) := sweep c rs' m in (Some rem :: rs1, m1, f)
      else if negb (inWindow c rem) then
        let '(rs1, m1, f) := sweep c rs' (boundary_delete (id rem) m) in (Some rem :: rs1, m1, f)
      else if due c m rem then
        let '(rs1, m1, f) := sweep c rs' (boundary_set (id rem) (boundaryOf c) m) in
        (Some (asFired rem) :: rs1, m1, asFired rem :: f)
      else
        let '(rs1, m1, f) := sweep c rs' m in (Some rem :: rs1, m1, f)
  end.

(** A scheduler with an evening reminder, a [null] entry and a night
    reminder that was acknowledged until the time stamp 500, and a clock at
    20:15 on a Wednesday. *)
Definition sampleScheduler : Scheduler :=
  {| reminders :=
       [Some {| id := str "r-1"; enabled := true; start := Some (str "19:00");
                stop := Some (str "23:00"); message := None; lastAckTs := None |};
        None;
        Some {| id := str "r-2"; enabled := true; start := Some (str "20:00");
                stop := Some (str "02:00"); message := Some (str "Run /outputfile raidlist");
                lastAckTs := Some 500 |}];
     enabledDays := None;
     soundProfile := str "raidleader";
     lastFiredBoundary := ∅ |}.

Definition sampleClock (ts : Z) : TickClock :=
  {| getHours := 20; getMinutes := 15; getDay := 3; timestamp := ts |}.

End Background.

(** * The RaidTick copy window *)

Module RaidTick.

Definition newline : ascii := ascii_of_nat 10.

(** [lines.join('\n')] *)
Fixpoint join (sep : ascii) (lines : list jsstring) : jsstring :=
  match lines with
  | [] => []
  | [l] => l
  | l :: rest => l ++ sep :: join sep rest
  end.

(** [s.split(/\s+/)]: the pieces between the runs of white space; a run at
    the start or at the end leaves an empty piece there. *)
Fixpoint split_ws_from (inRun : bool) (piece : jsstring) (s : jsstring) : list jsstring :=
  match s with
  | [] => [rev piece]
  | c :: s' =>
      if is_space c then
        if inRun then split_ws_from true piece s'
        else rev piece :: split_ws_from true [] s'
      else split_ws_from false (c :: piece) s'
  end.

Definition split_ws (s : jsstring) : list jsstring := split_ws_from false [] s.

(** [s.includes(needle)] *)
Fixpoint includes_str (s needle : jsstring) : bool :=
  startsWith s needle ||
  match s with
  | _ :: s' => includes_str s' needle
  | [] => false
  end.

(** A letter of a pattern with the [i] flag. *)
Definition ci (ch : ascii) : re := Cls (fun c => is_char ch (lower_char c)).

Definition ci_word (w : string) : re := seqs (map ci (str w)).

(** [/^player\s+level\s+class\s+timestamp\s+points$/i] *)
Definition HEADER_RE : re :=
  seqs [ci_word "player"; Plus true is_space; ci_word "level"; Plus true is_space;
        ci_word "class"; Plus true is_space; ci_word "timestamp"; Plus true is_space;
        ci_word "points"; Eos].

(** The test on the first five words of the first line. *)
Definition headerWords (words : list jsstring) : bool :=
  match words with
  | w0 :: w1 :: w2 :: w3 :: w4 :: _ =>
      str_eqb w0 (str "player") && str_eqb w1 (str "level") && str_eqb w2 (str "class") &&
      str_eqb w3 (str "timestamp") && str_eqb w4 (str "points")
  | _ => false
  end.

(** [stripHeaderRow(text)] *)
Definition stripHeaderRow (text : jsstring) : jsstring :=
  let lines := split_on newline text in
  match lines with
  | [] => text
  | first :: rest =>
      let firstLine := trim first in
      let words := map toLowerCase (split_ws firstLine) in
      if headerWords words then join newline rest
      else if test HEADER_RE firstLine then join newline rest
      else text
  end.

(** The lines [countDataLines] counts. *)
Definition isDataLine (l : jsstring) : bool :=
  match trim l with [] => false | _ :: _ => true end &&
  negb (includes_str l (str "RaidTick")) &&
  negb (includes_str l (str "Date:")) &&
  negb (includes_str l (str "Time:")).

(** [countDataLines(text)] *)
Definition countDataLines (text : jsstring) : nat :=
  length (List.filter isDataLine (split_on newline text)).

(** What follows the first line break of a text; nothing when the text is
    one line. *)
Definition afterFirstLine (text : jsstring) : jsstring :=
  match after_first newline text with
  | Some rest => rest
  | None => []
  end.

End RaidTick.

(** * The popup: escaping of attribute values *)

Module Popup.

Definition amp : ascii := "&".
Definition quot : ascii := ascii_of_nat 34.
Definition apos : ascii := "'".
Definition lt : ascii := "<".
Definition gt : ascii := ">".

(** [s.replace(/c/g, rep)] for one character and a replacement without
    [$]. *)
Definition replace_all (c : ascii) (rep : jsstring) (s : jsstring) : jsstring :=
  flat_map (fun x => if Ascii.eqb c x then rep else [x]) s.

(** [escapeHtmlAttr(value)]; [None] is [null] or [undefined]. *)
Definition escapeHtmlAttr (value : option jsstring) : jsstring :=
  match value with
  | None => []
  | Some v =>
      replace_all gt (str "&gt;")
        (replace_all lt (str "&lt;")
           (replace_all apos (str "&#39;")
              (replace_all quot (str "&quot;")
                 (replace_all amp (str "&amp;") v))))
  end.

(** The five characters the function replaces. *)
Definition special (c : ascii) : bool :=
  Ascii.eqb amp c || Ascii.eqb quot c || Ascii.eqb apos c || Ascii.eqb lt c || Ascii.eqb gt c.

(** The entity of a character, the character itself when it has none. *)
Definition entity (c : ascii) : jsstring :=
  if Ascii.eqb amp c then str "&amp;"
  else if Ascii.eqb quot c then str "&quot;"
  else if Ascii.eqb apos c then str "&#39;"
  else if Ascii.eqb lt c then str "&lt;"
  else if Ascii.eqb gt c then str "&gt;"
  else [c].

End Popup.

(** * The EQ log monitor *)

Module LogMonitor.

Section Poll.

(** [detectLootLine(line, tag)] for the tag of the poll. *)
Variable isLoot : jsstring -> bool.

(** The backward scan of [poll]: the loot lines met from the end of the
    file before the last seen one, newest first, and whether the last
    seen one was met. *)
Fixpoint collect (lastSeenLogLine : option jsstring) (fromEnd : list jsstring)
  : list jsstring * bool :=
  match fromEnd with
  | [] => ([], false)
  | l :: rest =>
      let line := trim l in
      match line with
      | [] => collect lastSeenLogLine rest
      | _ :: _ =>
          if negb (isLoot line) then collect lastSeenLogLine rest
          else if match lastSeenLogLine with
                  | Some ((_ :: _) as seen) => str_eqb seen line
                  | _ => false
                  end
          then ([], true)
          else let '(found, met) := collect lastSeenLogLine rest in (line :: found, met)
      end
  end.

(** [newLootLines.slice(-maxProcessPerPoll)] when there are more than 10. *)
Definition maxProcessPerPoll : nat := 10.

Definition linesToProcess (newLootLines : list jsstring) : list jsstring :=
  if (maxProcessPerPoll <? length newLootLines)%nat
  then drop (length newLootLines - maxProcessPerPoll) newLootLines
  else newLootLines.

(** [poll()] on the text of the file, when the storage takes the events:
    the lines handed to [pushEvent], oldest first, and the last seen line
    after the poll. *)
Definition poll (text : jsstring) (lastSeenLogLine : option jsstring)
  : list jsstring * option jsstring :=
  let lines := split_on RaidTick.newline text in
  let newLootLines := rev (fst (collect lastSeenLogLine (rev lines))) in
  match newLootLines with
  | [] => ([], lastSeenLogLine)
  | _ :: _ =>
      let toProcess := linesToProcess newLootLines in
      (toProcess,
       match last toProcess with
       | Some l => Some l
       | None => lastSeenLogLine
       end)
  end.

End Poll.

End LogMonitor.

(** * The announce window of the content script *)

Module Announce.

(** [A], [a], [P] or [p]; [M] or [m]; [P] or [p]: the letters of
    [(AM|PM)] and of [/pm/] with the [i] flag. *)
Definition is_a_or_p (c : ascii) : bool :=
  is_char "a" (lower_char c) || is_char "p" (lower_char c).
Definition is_m (c : ascii) : bool := is_char "m" (lower_char c).
Definition is_p (c : ascii) : bool := is_char "p" (lower_char c).

(** [/^(\d{1,2}):(\d{2})(?:\s*(AM|PM))?$/i] *)
Definition TIME_RE : re :=
  seqs [Grp 1 (Seq (Cls is_digit) (Opt (Cls is_digit))); Chr ":";
        Grp 2 (Seq (Cls is_digit) (Cls is_digit));
        Opt (Seq (Star true is_space) (Grp 3 (Seq (Cls is_a_or_p) (Cls is_m))));
        Eos].

(** [/pm/i] *)
Definition PM_RE : re := seqs [Cls is_p; Cls is_m].

(** [parseInt(s, 10)] *)
Definition parseInt10 (s : jsstring) : jsint :=
  let s1 := trimStart s in
  let '(neg, s2) :=
    match s1 with
    | c :: r => if is_char "-" c then (true, r)
                else if is_char "+" c then (false, r) else (false, s1)
    | [] => (false, s1)
    end in
  match fst (span is_digit s2) with
  | [] => NaN
  | (_ :: _) as ds => Int (if neg then - decimal_value ds else decimal_value ds)
  end.

Definition int_add (a b : jsint) : jsint :=
  match a, b with Int x, Int y => Int (x + y) | _, _ => NaN end.

Definition int_mul (a b : jsint) : jsint :=
  match a, b with Int x, Int y => Int (x * y) | _, _ => NaN end.

(** [a === n] *)
Definition int_is (a : jsint) (n : Z) : bool :=
  match a with Int x => x =? n | NaN => false end.

(** The [parseTime] of [isWithinAnnounceWindow]:
<<
    const m = s.match(/^(\d{1,2}):(\d{2})(?:\s*(AM|PM))?$/i);
    if (!m) return NaN;
    let hh = parseInt(m[1], 10);
    const mm = parseInt(m[2], 10);
    const ap = m[3];
    if (ap) {
      const isPM = /pm/i.test(ap);
      if (hh === 12) hh = isPM ? 12 : 0; else hh = isPM ? hh + 12 : hh;
    }
    return hh * 100 + mm;
>> *)
Definition parseTime (s : jsstring) : jsint :=
  match match_anchored TIME_RE s with
  | None => NaN
  | Some m =>
      let hh := parseInt10 (grp 1 m) in
      let mm := parseInt10 (grp 2 m) in
      let hh' :=
        match group 3 m with
        | Some ((_ :: _) as ap) =>
            let isPM := match search PM_RE ap with Some _ => true | None => false end in
            if int_is hh 12 then (if isPM then Int 12 else Int 0)
            else if isPM then int_add hh (Int 12) else hh
        | _ => hh
        end in
      int_add (int_mul hh' (Int 100)) mm
  end.

(** [isWithinAnnounceWindow()], on the two settings it reads. *)
Definition isWithinAnnounceWindow (c : Clock) (announceStart announceEnd : option jsstring)
  : bool :=
  let current := hours c * 100 + minutes c in
  let startStr := trim (Background.or_str announceStart (str "00:00")) in
  let endStr := trim (Background.or_str announceEnd (str "23:59")) in
  match parseTime startStr, parseTime endStr with
  | Int start, Int stop =>
      if start =? stop then true
      else if stop <? start then (start <=? current) || (current <=? stop)
      else (start <=? current) && (current <=? stop)
  | _, _ => true
  end.

(** ** Clock times as they are written *)

Inductive Meridiem : Type := NoMeridiem | AM | PM.

(** The hour of the day of an hour with its meridiem. *)
Definition hour24 (h : Z) (mer : Meridiem) : Z :=
  match mer with
  | NoMeridiem => h
  | AM => if h =? 12 then 0 else h
  | PM => if h =? 12 then 12 else h + 12
  end.

(** The two letters of a meridiem, in any case. *)
Definition meridiemLetters (mer : Meridiem) (a b : ascii) : Prop :=
  match mer with
  | NoMeridiem => False
  | AM => lower_char a = "a"%char /\ lower_char b = "m"%char
  | PM => lower_char a = "p"%char /\ lower_char b = "m"%char
  end.

(** A written time: one or two digits, a colon, two digits, and for a
    meridiem any white space and the two letters. *)
Inductive written : Z -> Z -> Meridiem -> jsstring -> Prop :=
| written_24 hs m1 m2 :
    all_digits hs -> (length hs <= 2)%nat ->
    is_digit m1 = true -> is_digit m2 = true ->
    written (decimal_value hs) (decimal_value [m1; m2]) NoMeridiem
            (hs ++ ":"%char :: [m1; m2])
| written_12 hs m1 m2 ws a b mer :
    all_digits hs -> (length hs <= 2)%nat ->
    is_digit m1 = true -> is_digit m2 = true ->
    forallb is_space ws = true -> meridiemLetters mer a b ->
    written (decimal_value hs) (decimal_value [m1; m2]) mer
            (hs ++ ":"%char :: m1 :: m2 :: ws ++ [a; b]).

End Announce.
Section Matcher.

Lemma star_zero g p s : In s (star g p s).
Proof.
  destruct g, s as [|c s]; simpl; auto;
    destruct (p c); simpl; auto.
  apply in_or_app; right; apply in_eq.
Qed.

Lemma star_sound g p s s' :
  In s' (star g p s) -> exists w, s = w ++ s' /\ forallb p w = true.
Proof.
  revert s'; induction s as [|c s IH]; intros s' Hin.
  - exists []. destruct g; simpl in Hin; destruct Hin as [<-|[]]; auto.
  - assert (Hc : In s' (star g p s) /\ p c = true \/ s' = c :: s).
    { destruct g; simpl in Hin; destruct (p c); simpl in Hin.
      - apply in_app_or in Hin as [H|[H|[]]]; auto.
      - destruct Hin as [H|[]]; auto.
      - destruct Hin as [H|H]; auto.
      - destruct Hin as [H|[]]; auto. }
    destruct Hc as [[H Hp]| ->].
    + destruct (IH _ H) as (w & -> & Hw). exists (c :: w); simpl.
      rewrite Hp, Hw; auto.
    + exists []; auto.
Qed.

Lemma star_complete g p w s' :
  forallb p w = true -> In s' (star g p (w ++ s')).
Proof.
  induction w as [|c w IH]; simpl; intros Hw.
  - apply star_zero.
  - apply andb_prop in Hw as [Hc Hw]. specialize (IH Hw).
    destruct g; simpl; rewrite Hc; simpl; auto using in_or_app.
Qed.

Lemma run_sound r : forall c s c' s',
  In (c', s') (run r (c, s)) -> exists w, s = w ++ s' /\ matches r w s'.
Proof.
  induction r as [a|p|g p|g p|r IH|i r IH|r1 IH1 r2 IH2| |];
    intros c s c' s' Hin; simpl in Hin.
  - destruct s as [|x s]; [destruct Hin|].
    destruct (Ascii.eqb_spec a x) as [->|]; [|destruct Hin].
    destruct Hin as [[= <- <-]|[]]. exists [x]; simpl; auto.
  - destruct s as [|x s]; [destruct Hin|].
    destruct (p x) eqn:Hp; [|destruct Hin].
    destruct Hin as [[= <- <-]|[]]. exists [x]; simpl; eauto.
  - apply in_map_iff in Hin as (s1 & [= <- <-] & Hin).
    apply star_sound in Hin as (w & -> & Hw). exists w; auto.
  - destruct s as [|x s]; [destruct Hin|].
    destruct (p x) eqn:Hp; [|destruct Hin].
    apply in_map_iff in Hin as (s1 & [= <- <-] & Hin).
    apply star_sound in Hin as (w & -> & Hw). exists (x :: w); simpl.
    rewrite Hp, Hw; repeat split; auto; discriminate.
  - apply in_app_or in Hin as [Hin|[[= <- <-]|[]]].
    + destruct (IH _ _ _ _ Hin) as (w & -> & Hw). exists w; simpl; auto.
    + exists []; simpl; auto.
  - apply in_map_iff in Hin as ([c1 s1] & [= <- <-] & Hin).
    destruct (IH _ _ _ _ Hin) as (w & -> & Hw). exists w; auto.
  - apply in_flat_map in Hin as ([c1 s1] & Hin1 & Hin2).
    destruct (IH1 _ _ _ _ Hin1) as (w1 & -> & Hw1).
    destruct (IH2 _ _ _ _ Hin2) as (w2 & -> & Hw2).
    exists (w1 ++ w2); split; [now rewrite app_assoc|].
    simpl; eauto.
  - destruct Hin as [[= <- <-]|[]]. exists []; simpl; auto.
  - destruct s as [|x s]; [|destruct Hin].
    destruct Hin as [[= <- <-]|[]]. exists []; simpl; auto.
Qed.

Lemma run_complete r : forall c w s',
  matches r w s' -> exists c', In (c', s') (run r (c, w ++ s')).
Proof.
  induction r as [a|p|g p|g p|r IH|i r IH|r1 IH1 r2 IH2| |];
    intros c w s' Hm; simpl in Hm.
  - subst w; simpl. rewrite Ascii.eqb_refl. exists c; apply in_eq.
  - destruct Hm as (x & -> & Hp); simpl. rewrite Hp. exists c; apply in_eq.
  - exists c; simpl. apply in_map_iff. eauto using star_complete.
  - destruct Hm as [Hne Hw]. destruct w as [|x w]; [easy|].
    simpl in Hw; apply andb_prop in Hw as [Hx Hw].
    exists c; simpl. rewrite Hx. apply in_map_iff. eauto using star_complete.
  - destruct Hm as [->|Hm].
    + exists c. simpl run. apply in_or_app; right; apply in_eq.
    + destruct (IH c _ _ Hm) as (c' & Hin). exists c'.
      simpl run. apply in_or_app; auto.
  - destruct (IH c _ _ Hm) as (c' & Hin).
    exists ((i, consumed (w ++ s') s') :: c'). simpl run.
    apply in_map_iff. exists (c', s'); auto.
  - destruct Hm as (w1 & w2 & -> & Hm1 & Hm2).
    destruct (IH1 c _ _ Hm1) as (c1 & Hin1).
    destruct (IH2 c1 _ _ Hm2) as (c2 & Hin2).
    exists c2. simpl run. apply in_flat_map. exists (c1, w2 ++ s').
    rewrite <- app_assoc; auto.
  - subst w. exists c; apply in_eq.
  - destruct Hm as [-> ->]. exists c; apply in_eq.
Qed.

Lemma run_no_groups r : no_groups r = true ->
  forall c s c' s', In (c', s') (run r (c, s)) -> c' = c.
Proof.
  induction r as [a|p|g p|g p|r IH|i r IH|r1 IH1 r2 IH2| |];
    intros Hng c s c' s' Hin; simpl in Hin, Hng; try discriminate.
  - destruct s as [|x s]; [destruct Hin|].
    destruct (Ascii.eqb a x); [|destruct Hin].
    now destruct Hin as [[= <- <-]|[]].
  - destruct s as [|x s]; [destruct Hin|].
    destruct (p x); [|destruct Hin].
    now destruct Hin as [[= <- <-]|[]].
  - now apply in_map_iff in Hin as (s1 & [= <- <-] & Hin).
  - destruct s as [|x s]; [destruct Hin|].
    destruct (p x); [|destruct Hin].
    now apply in_map_iff in Hin as (s1 & [= <- <-] & Hin).
  - apply in_app_or in Hin as [Hin|[[= <- <-]|[]]]; eauto.
  - apply andb_prop in Hng as [H1 H2].
    apply in_flat_map in Hin as ([c1 s1] & Hin1 & Hin2).
    rewrite (IH2 H2 _ _ _ _ Hin2). eauto.
  - now destruct Hin as [[= <- <-]|[]].
  - destruct s as [|x s]; [|destruct Hin].
    now destruct Hin as [[= <- <-]|[]].
Qed.

Lemma consumed_app (w s' : jsstring) : consumed (w ++ s') s' = w.
Proof.
  unfold consumed. rewrite length_app.
  replace (length w + length s' - length s')%nat with (length w) by lia.
  apply take_app_length.
Qed.

(** A pattern [(r1) r2] with one capture group in front: the head match
    binds the group to a word [r1] matches. *)
Lemma run_group_seq i r1 r2 s c' s' :
  no_groups r1 = true -> no_groups r2 = true ->
  In (c', s') (run (Seq (Grp i r1) r2) ([], s)) ->
  exists w1 w2, s = w1 ++ w2 ++ s' /\ c' = [(i, w1)] /\
    matches r1 w1 (w2 ++ s') /\ matches r2 w2 s'.
Proof.
  intros Hg1 Hg2 Hin. simpl in Hin.
  apply in_flat_map in Hin as ([c1 s1] & Hin1 & Hin2).
  apply in_map_iff in Hin1 as ([c0 s0] & [= <- <-] & Hin1).
  pose proof (run_no_groups _ Hg1 _ _ _ _ Hin1) as ->.
  pose proof (run_no_groups _ Hg2 _ _ _ _ Hin2) as ->.
  destruct (run_sound _ _ _ _ _ Hin1) as (w1 & -> & Hm1).
  destruct (run_sound _ _ _ _ _ Hin2) as (w2 & -> & Hm2).
  exists w1, w2. rewrite consumed_app. auto.
Qed.

Lemma match_anchored_Some r s m :
  match_anchored r s = Some m -> exists s', In (m, s') (run r ([], s)).
Proof.
  unfold match_anchored. destruct (run r ([], s)) as [|[c s'] l] eqn:E; [easy|].
  intros [= <-]. exists s'. apply in_eq.
Qed.

Lemma match_anchored_None r s :
  match_anchored r s = None <-> forall w s', s = w ++ s' -> ~ matches r w s'.
Proof.
  unfold match_anchored. split.
  - destruct (run r ([], s)) as [|[c s1] l] eqn:E; [|easy].
    intros _ w s' Hs Hm. destruct (run_complete r [] _ _ Hm) as (c' & Hin).
    rewrite <- Hs in Hin.
    exact (eq_ind _ (fun l => In (c', s') l) Hin _ E).
  - intros H. destruct (run r ([], s)) as [|[c s1] l] eqn:E; [easy|].
    exfalso. assert (Hin : In (c, s1) (run r ([], s))) by (rewrite E; apply in_eq).
    destruct (run_sound _ _ _ _ _ Hin) as (w & -> & Hm). eapply H; eauto.
Qed.

(** *** The first success *)

Lemma heads_match r s c s' : heads r ([], s) (c, s') -> match_anchored r s = Some c.
Proof. intros [l H]. unfold match_anchored. now rewrite H. Qed.

Lemma heads_seq r1 r2 st x y : heads r1 st x -> heads r2 x y -> heads (Seq r1 r2) st y.
Proof.
  intros [l1 H1] [l2 H2]. unfold heads. destruct st as [c s].
  simpl. rewrite H1. simpl. rewrite H2. eexists. reflexivity.
Qed.

Lemma heads_grp i r c s c' s' :
  heads r (c, s) (c', s') -> heads (Grp i r) (c, s) ((i, consumed s s') :: c', s').
Proof. intros [l H]. unfold heads. simpl. rewrite H. eexists. reflexivity. Qed.

Lemma heads_eos c : heads Eos (c, []) (c, []).
Proof. unfold heads; simpl; eauto. Qed.

Lemma heads_eps st : heads Eps st st.
Proof. unfold heads; destruct st; simpl; eauto. Qed.

Lemma star_greedy_head p (a b : jsstring) :
  forallb p a = true ->
  match b with [] => True | c :: _ => p c = false end ->
  exists l, star_greedy p (a ++ b) = b :: l.
Proof.
  intros Ha Hb. induction a as [|x a IH]; simpl in *.
  - destruct b as [|c b]; simpl; [eauto|]. rewrite Hb. eauto.
  - apply andb_prop in Ha as [Hx Ha]. rewrite Hx.
    destruct (IH Ha) as [l ->]. simpl. eauto.
Qed.

(** A greedy [p+] in front of a character outside [p] (or of the end)
    first takes the whole run. *)
Lemma heads_plus_greedy p c (a b : jsstring) :
  a <> [] -> forallb p a = true ->
  match b with [] => True | x :: _ => p x = false end ->
  heads (Plus true p) (c, a ++ b) (c, b).
Proof.
  intros Hne Ha Hb. destruct a as [|x a]; [easy|].
  simpl in Ha. apply andb_prop in Ha as [Hx Ha].
  destruct (star_greedy_head p a b Ha Hb) as [l Hl].
  unfold heads. simpl. rewrite Hx, Hl. eexists. reflexivity.
Qed.

Lemma heads_star_greedy p c (a b : jsstring) :
  forallb p a = true ->
  match b with [] => True | x :: _ => p x = false end ->
  heads (Star true p) (c, a ++ b) (c, b).
Proof.
  intros Ha Hb. destruct (star_greedy_head p a b Ha Hb) as [l Hl].
  unfold heads. simpl. rewrite Hl. eexists. reflexivity.
Qed.

(** A pattern that starts with [\d+] fails on a string that does not
    start with a digit. *)
Lemma run_plus_nil p r c s :
  match s with [] => True | x :: _ => p x = false end ->
  run (Seq (Plus true p) r) (c, s) = [].
Proof. destruct s as [|x s]; simpl; [easy|]. now intros ->. Qed.

(** *** Captures *)

Lemma run_caps P r : groups_sat P r ->
  forall c s c' s', In (c', s') (run r (c, s)) ->
  (forall i w, group i c = Some w -> P i w) ->
  forall i w, group i c' = Some w -> P i w.
Proof.
  induction r as [a|p|g p|g p|r IH|j r IH|r1 IH1 r2 IH2| |];
    intros Hsat c s c' s' Hin Hc; simpl in Hin, Hsat.
  - destruct s as [|x s]; [destruct Hin|].
    destruct (Ascii.eqb a x); [|destruct Hin].
    now destruct Hin as [[= <- <-]|[]].
  - destruct s as [|x s]; [destruct Hin|].
    destruct (p x); [|destruct Hin].
    now destruct Hin as [[= <- <-]|[]].
  - now apply in_map_iff in Hin as (s1 & [= <- <-] & Hin).
  - destruct s as [|x s]; [destruct Hin|].
    destruct (p x); [|destruct Hin].
    now apply in_map_iff in Hin as (s1 & [= <- <-] & Hin).
  - apply in_app_or in Hin as [Hin|[[= <- <-]|[]]]; eauto.
  - destruct Hsat as [Hj Hsat].
    apply in_map_iff in Hin as ([c0 s0] & [= <- <-] & Hin).
    intros i w. simpl. destruct (Nat.eqb_spec i j) as [->|Hij].
    + intros [= <-]. destruct (run_sound _ _ _ _ _ Hin) as (w & -> & Hm).
      rewrite consumed_app. eauto.
    + eapply IH; eauto.
  - destruct Hsat as [H1 H2].
    apply in_flat_map in Hin as ([c1 s1] & Hin1 & Hin2).
    eapply IH2; eauto.
  - now destruct Hin as [[= <- <-]|[]].
  - destruct s as [|x s]; [|destruct Hin].
    now destruct Hin as [[= <- <-]|[]].
Qed.

Lemma run_keeps i r : forall c s c' s',
  In (c', s') (run r (c, s)) -> group i c <> None -> group i c' <> None.
Proof.
  induction r as [a|p|g p|g p|r IH|j r IH|r1 IH1 r2 IH2| |];
    intros c s c' s' Hin Hc; simpl in Hin.
  - destruct s as [|x s]; [destruct Hin|].
    destruct (Ascii.eqb a x); [|destruct Hin].
    now destruct Hin as [[= <- <-]|[]].
  - destruct s as [|x s]; [destruct Hin|].
    destruct (p x); [|destruct Hin].
    now destruct Hin as [[= <- <-]|[]].
  - now apply in_map_iff in Hin as (s1 & [= <- <-] & Hin).
  - destruct s as [|x s]; [destruct Hin|].
    destruct (p x); [|destruct Hin].
    now apply in_map_iff in Hin as (s1 & [= <- <-] & Hin).
  - apply in_app_or in Hin as [Hin|[[= <- <-]|[]]]; eauto.
  - apply in_map_iff in Hin as ([c0 s0] & [= <- <-] & Hin).
    simpl. destruct (Nat.eqb i j); [easy|]. eauto.
  - apply in_flat_map in Hin as ([c1 s1] & Hin1 & Hin2). eauto.
  - now destruct Hin as [[= <- <-]|[]].
  - destruct s as [|x s]; [|destruct Hin].
    now destruct Hin as [[= <- <-]|[]].
Qed.

Lemma run_binds i r : binds i r = true ->
  forall c s c' s', In (c', s') (run r (c, s)) -> group i c' <> None.
Proof.
  induction r as [a|p|g p|g p|r IH|j r IH|r1 IH1 r2 IH2| |];
    intros Hb c s c' s' Hin; simpl in Hin, Hb; try discriminate.
  - apply in_map_iff in Hin as ([c0 s0] & [= <- <-] & Hin).
    simpl. destruct (Nat.eqb i j); [easy|]. simpl in Hb. eauto.
  - apply in_flat_map in Hin as ([c1 s1] & Hin1 & Hin2).
    apply orb_prop in Hb as [Hb|Hb].
    + eapply run_keeps; eauto.
    + eauto.
Qed.

(** What a match binds to a group the pattern always sets. *)
Lemma match_group P r s m i :
  groups_sat P r -> binds i r = true ->
  match_anchored r s = Some m -> P i (grp i m).
Proof.
  intros Hsat Hb Hm. apply match_anchored_Some in Hm as (s' & Hin).
  pose proof (run_binds _ _ Hb _ _ _ _ Hin) as Hsome.
  unfold grp. destruct (group i m) as [w|] eqn:E; [|easy].
  eapply run_caps; eauto. intros j w'. discriminate.
Qed.

End Matcher.

(** ** The width parser *)

Section Width.

Lemma span_app p (a b : jsstring) :
  forallb p a = true ->
  match b with [] => True | c :: _ => p c = false end ->
  span p (a ++ b) = (a, b).
Proof.
  intros Ha Hb. induction a as [|x a IH]; simpl in *.
  - destruct b as [|c b]; [easy|]. simpl. now rewrite Hb.
  - apply andb_prop in Ha as [Hx Ha]. now rewrite Hx, IH.
Qed.

Lemma span_fst_forallb p (s : jsstring) : forallb p (fst (span p s)) = true.
Proof.
  induction s as [|c s IH]; simpl; [easy|].
  destruct (p c) eqn:Hc; [|easy].
  destruct (span p s) as [a b]; simpl in *. now rewrite Hc.
Qed.

Lemma digit_value_bounds c : is_digit c = true -> 0 <= digit_value c <= 9.
Proof.
  unfold is_digit, digit_value. intros H.
  apply andb_prop in H as [H1 H2].
  apply N.leb_le in H1, H2. lia.
Qed.

Lemma decimal_value_acc (s : jsstring) : forall a,
  forallb is_digit s = true -> 0 <= a ->
  let v := fold_left (fun a c => 10 * a + digit_value c) s a in
  a * 10 ^ Z.of_nat (length s) <= v < (a + 1) * 10 ^ Z.of_nat (length s).
Proof.
  induction s as [|c s IH]; intros a Hs Ha; simpl fold_left.
  - simpl. lia.
  - simpl in Hs. apply andb_prop in Hs as [Hc Hs].
    pose proof (digit_value_bounds _ Hc) as Hd.
    specialize (IH (10 * a + digit_value c) Hs ltac:(lia)). simpl in IH.
    replace (Z.of_nat (length (c :: s))) with (Z.succ (Z.of_nat (length s)))
      by (simpl length; lia).
    rewrite Z.pow_succ_r by lia. cbv zeta. nia.
Qed.

Lemma decimal_value_bounds (s : jsstring) :
  forallb is_digit s = true ->
  0 <= decimal_value s < 10 ^ Z.of_nat (length s).
Proof.
  intros Hs. pose proof (decimal_value_acc s 0 Hs ltac:(lia)) as H.
  simpl in H. unfold decimal_value. lia.
Qed.

Lemma round_half_even_nonneg n d : 0 <= n -> 0 < d -> 0 <= round_half_even n d.
Proof.
  intros Hn Hd. unfold round_half_even.
  pose proof (Z.div_pos n d Hn Hd).
  repeat match goal with |- context [if ?b then _ else _] => destruct b end; lia.
Qed.

(** Rounding never gives [NaN] nor a negative number, and gives
    [+Infinity] only from the overflow threshold on. *)
Lemma binary64_of_ratio_spec n d :
  match binary64_of_ratio n d with
  | FNaN => False
  | Fin q => (0 <= q)%Q
  | PosInf => BINARY64_OVERFLOW * Z.pos d <= n
  end.
Proof.
  unfold binary64_of_ratio.
  destruct (n <=? 0) eqn:Hn; [apply Qle_refl|]. apply Z.leb_gt in Hn.
  destruct (_ * _ <=? n) eqn:Ho; [now apply Z.leb_le in Ho|].
  cbv zeta.
  match goal with |- context [Z.max ?a ?b] => generalize (Z.max a b) end.
  intros p. destruct (0 <=? p) eqn:Hp.
  - apply Z.leb_le in Hp. unfold Qle; simpl.
    assert (0 < 2 ^ p) by (apply Z.pow_pos_nonneg; lia).
    pose proof (round_half_even_nonneg n (Z.pos d * 2 ^ p) ltac:(lia) ltac:(lia)).
    nia.
  - apply Z.leb_gt in Hp. unfold Qle; simpl.
    assert (0 < 2 ^ (- p)) by (apply Z.pow_pos_nonneg; lia).
    pose proof (round_half_even_nonneg (n * 2 ^ (- p)) (Z.pos d) ltac:(nia) ltac:(lia)).
    lia.
Qed.

Lemma all_digits_span ip rest :
  all_digits ip ->
  match rest with [] => True | c :: _ => is_digit c = false end ->
  span is_digit (ip ++ rest) = (ip, rest).
Proof. intros [_ H] Hr. now apply span_app. Qed.

(** [parseFloat] on an unsigned decimal literal. *)
Lemma parseFloat_literal lit :
  decimal_literal lit ->
  match parseFloat lit with
  | FNaN => False
  | Fin q => (0 <= q)%Q
  | PosInf => (308 < length (integer_part lit))%nat
  end.
Proof.
  intros (ip & Hip & Hlit). unfold parseFloat, integer_part.
  assert (Hsp : exists rest fp,
             span is_digit lit = (ip, rest) /\
             forallb is_digit fp = true /\
             match rest with
             | c :: r => if is_char "." c then fst (span is_digit r) else []
             | [] => []
             end = fp).
  { destruct Hlit as [->|(fp & Hfp & ->)].
    - exists [], []. rewrite <- (app_nil_r ip) at 1.
      rewrite all_digits_span; auto.
    - exists ("."%char :: fp), fp. rewrite all_digits_span; auto.
      repeat split; [apply Hfp|]. simpl.
      rewrite <- (app_nil_r fp) at 1. rewrite span_app; auto. apply Hfp. }
  destruct Hsp as (rest & fp & -> & Hfp & ->). simpl fst.
  destruct Hip as [Hne Hip]. destruct ip as [|c ip]; [easy|].
  pose proof (binary64_of_ratio_spec
                (decimal_value ((c :: ip) ++ fp))
                (Z.to_pos (10 ^ Z.of_nat (length fp)))) as H.
  destruct (binary64_of_ratio _ _); auto.
  assert (Hall : forallb is_digit ((c :: ip) ++ fp) = true)
    by (rewrite forallb_app, Hip, Hfp; auto).
  pose proof (decimal_value_bounds _ Hall) as Hb.
  rewrite length_app, Nat2Z.inj_add, Z.pow_add_r in Hb by lia.
  assert (Hpos : 0 < 10 ^ Z.of_nat (length fp)) by (apply Z.pow_pos_nonneg; lia).
  rewrite Z2Pos.id in H by lia.
  destruct (Nat.lt_ge_cases 308 (length (c :: ip))) as [Hl|Hl]; [exact Hl|exfalso].
  assert (10 ^ Z.of_nat (length (c :: ip)) <= 10 ^ 308)
    by (apply Z.pow_le_mono_r; lia).
  assert (Hlt : 10 ^ 308 < BINARY64_OVERFLOW) by (vm_compute; reflexivity).
  nia.
Qed.

Lemma WIDTH_RE_matches w s' :
  matches WIDTH_RE w s' <-> s' = [] /\ unsigned_decimal_percent w.
Proof.
  unfold WIDTH_RE, unsigned_decimal_percent, decimal_literal, all_digits.
  simpl. split.
  - intros (w1 & w2 & -> & (a & b & -> & Ha & Hb) & (x & y & -> & -> & u & v & -> & [-> Hs] & ->)).
    simpl in Hs. subst s'.
    split; [easy|]. exists (a ++ b). split; [|easy].
    exists a. split; [easy|].
    destruct Hb as [->|(c & d & -> & -> & Hd)].
    + left. now rewrite app_nil_r.
    + right. exists d. auto.
  - intros (-> & lit & (ip & Hip & Hlit) & ->).
    exists lit, ["%"%char]. repeat split.
    + destruct Hlit as [->|(fp & Hfp & ->)].
      * exists ip, []. rewrite app_nil_r. auto.
      * exists ip, ("."%char :: fp). repeat split; try apply Hip.
        right. exists ["."%char], fp. auto.
    + exists ["%"%char], []. repeat split. exists [], []. auto.
Qed.

Lemma integer_part_percent lit :
  decimal_literal lit -> integer_part (lit ++ ["%"%char]) = integer_part lit.
Proof.
  intros (ip & Hip & Hlit). unfold integer_part.
  destruct Hlit as [->|(fp & Hfp & ->)].
  - rewrite all_digits_span by auto.
    rewrite <- (app_nil_r ip) at 2. now rewrite all_digits_span.
  - rewrite <- app_assoc. now rewrite !all_digits_span.
Qed.

Lemma float_le_zero w :
  float_le w 0 = true -> (forall q, w = Fin q -> (0 <= q)%Q) ->
  exists q, w = Fin q /\ (q == 0)%Q.
Proof.
  destruct w as [|q|]; simpl; try discriminate.
  intros Hle Hge. exists q. split; [easy|].
  apply Qle_bool_iff in Hle. apply Qle_antisym; auto.
Qed.

End Width.

(** C10 (as amended).  [getWidthPercent] is total.  It returns [null]
    exactly when the inline style width is absent or is not an unsigned
    decimal number immediately followed by [%]; otherwise it returns a
    number that is never [NaN] and never negative, and that is finite
    unless the integer part has more than 308 digits (there [parseFloat]
    may overflow to [+Infinity]).  So the completion test [width <= 0]
    succeeds only on a parsed width that is exactly 0. *)
Theorem getWidthPercent_null_or_nonneg (element : option Element) :
  match getWidthPercent element with
  | None =>
      inline_width element = None \/
      exists s, inline_width element = Some s /\ ~ unsigned_decimal_percent s
  | Some w =>
      (exists s, inline_width element = Some s /\ unsigned_decimal_percent s /\
         (w = PosInf -> (308 < length (integer_part s))%nat)) /\
      w <> FNaN /\
      (forall q, w = Fin q -> (0 <= q)%Q) /\
      (float_le w 0 = true -> exists q, w = Fin q /\ (q == 0)%Q)
  end.
Proof.
  unfold getWidthPercent, inline_width.
  destruct element as [[[[w]|]]|]; simpl; auto.
  destruct w as [|c0 w0]; auto.
  set (s := c0 :: w0).
  destruct (match_anchored WIDTH_RE s) as [m|] eqn:E.
  - apply match_anchored_Some in E as (s' & Hin).
    apply run_group_seq in Hin as (w1 & w2 & Hs & -> & Hm1 & Hm2); [|easy|easy].
    assert (Hm : matches WIDTH_RE (w1 ++ w2) s').
    { unfold WIDTH_RE. simpl seqs. cbn [matches]. exists w1, w2. auto. }
    apply WIDTH_RE_matches in Hm as (-> & lit & Hlit & Hw).
    rewrite app_nil_r in Hs.
    assert (w1 = lit) as ->.
    { simpl in Hm2. destruct Hm2 as (x & y & -> & -> & u & v & -> & [-> _] & ->).
      simpl in Hw. now apply app_inj_tail in Hw as [-> _]. }
    unfold grp; simpl group.
    pose proof (parseFloat_literal _ Hlit) as Hp.
    assert (Hnn : forall q, parseFloat lit = Fin q -> (0 <= q)%Q).
    { intros q Hq. now rewrite Hq in Hp. }
    repeat split.
    + exists s. repeat split; auto.
      * exists lit. split; auto. now rewrite Hs, Hw.
      * intros Hinf. rewrite Hinf in Hp. rewrite Hs, Hw.
        now rewrite integer_part_percent.
    + intros Hnan. now rewrite Hnan in Hp.
    + exact Hnn.
    + intros Hle. now apply float_le_zero.
  - right. exists s. split; [easy|].
    intros Hudp. rewrite match_anchored_None in E.
    apply (E s []); [now rewrite app_nil_r|].
    apply WIDTH_RE_matches. auto.
Qed.

(** C10, the claim as stated, fails on a width whose integer part has 310
    digits: the pattern accepts it and [parseFloat] returns [+Infinity],
    which is not a finite number. *)
Lemma getWidthPercent_overflow :
  getWidthPercent (element_of_width (str "1" ++ repeat "0"%char 309 ++ str "%"))
    = Some PosInf /\
  ~ finite_nonneg PosInf.
Proof.
  split; [vm_compute; reflexivity|].
  intros (q & Hq & _). discriminate.
Qed.

(** ** Item-name cleaning *)

Section Cleaning.

Lemma trimStart_snoc (l : jsstring) c :
  is_space c = false -> trimStart (l ++ [c]) = trimStart l ++ [c].
Proof.
  intros Hc. induction l as [|x l IH]; simpl.
  - now rewrite Hc.
  - destruct (is_space x); auto.
Qed.

Lemma trimEnd_cons c (s : jsstring) :
  is_space c = false -> trimEnd (c :: s) = c :: trimEnd s.
Proof.
  intros Hc. unfold trimEnd. simpl rev.
  rewrite trimStart_snoc by assumption. now rewrite rev_app_distr.
Qed.

(** Trimming keeps a first character that is not white space. *)
Lemma trim_head c (s : jsstring) :
  is_space c = false -> trim (c :: s) = c :: trimEnd s.
Proof. intros Hc. unfold trim. simpl. rewrite Hc. now apply trimEnd_cons. Qed.

Lemma leading_digit_no_match r (s : jsstring) :
  leading_digit s = false ->
  match_anchored (Seq (Plus true is_digit) r) s = None.
Proof.
  intros H. unfold match_anchored. rewrite run_plus_nil; [easy|].
  destruct s; simpl in *; auto.
Qed.

(** A name that does not begin with a digit is left as it is. *)
Lemma cleanBidPrefix_no_digit (s : jsstring) :
  leading_digit s = false -> cleanBidPrefix s = s.
Proof.
  intros H. unfold cleanBidPrefix, BID_PREFIX_RE, NO_SPACE_RE. simpl seqs.
  now rewrite !leading_digit_no_match.
Qed.

(** One numeric token and the separators after it are removed when a
    name follows on the same line. *)
Lemma cleanBidPrefix_token (ds seps name : jsstring) :
  all_digits ds ->
  seps <> [] -> forallb is_space_or_dash seps = true ->
  name <> [] -> forallb is_dot name = true ->
  match name with c :: _ => is_space_or_dash c = false | [] => True end ->
  cleanBidPrefix (ds ++ seps ++ name) = trim name.
Proof.
  intros [Hd1 Hd2] Hs1 Hs2 Hn1 Hn2 Hn3. unfold cleanBidPrefix.
  assert (Hsep : match seps ++ name with
                 | [] => True | x :: _ => is_digit x = false end).
  { destruct seps as [|x seps]; [easy|]. simpl in *.
    apply andb_prop in Hs2 as [Hx _]. revert Hx. clear.
    unfold is_space_or_dash, is_space, is_char, is_digit.
    destruct (Ascii.eqb_spec "-" x) as [<-|_]; [reflexivity|].
    rewrite orb_false_r. intros H.
    destruct (48 <=? code x)%N eqn:E1, (code x <=? 57)%N eqn:E2; auto.
    apply N.leb_le in E1, E2.
    repeat (apply orb_prop in H as [H|H]);
      try apply andb_prop in H as [H1 H2];
      try apply N.leb_le in H2; try apply N.eqb_eq in H; lia. }
  assert (H : heads BID_PREFIX_RE ([], ds ++ seps ++ name) ([(1%nat, name)], [])).
  { unfold BID_PREFIX_RE. simpl seqs.
    eapply heads_seq.
    { apply heads_plus_greedy; assumption. }
    eapply heads_seq.
    { apply heads_plus_greedy; assumption. }
    eapply heads_seq.
    { apply heads_grp. rewrite <- (app_nil_r name) at 1.
      apply heads_plus_greedy; easy. }
    rewrite <- (app_nil_r name) at 1. rewrite consumed_app.
    eapply heads_seq; [apply heads_eos | apply heads_eps]. }
  apply heads_match in H. now rewrite H.
Qed.

Lemma trimEnd_snoc (s : jsstring) c : is_space c = false -> trimEnd (s ++ [c]) = s ++ [c].
Proof.
  intros Hc. unfold trimEnd. rewrite rev_app_distr. simpl. rewrite Hc.
  change (c :: rev s) with ([c] ++ rev s). rewrite rev_app_distr, rev_involutive.
  reflexivity.
Qed.

Lemma plain_name_no_token name :
  plain_name name -> numeric_token_prefix name = false /\ leading_digit name = false.
Proof.
  intros (H & _). destruct name as [|c name]; [easy|].
  destruct H as [Hd _]. unfold numeric_token_prefix. simpl. now rewrite Hd.
Qed.

(** At most one numeric token before a plain name: the cleaning returns
    the name. *)
Lemma cleanBidPrefix_plain tok name :
  bid_token tok -> plain_name name -> cleanBidPrefix (tok ++ name) = name.
Proof.
  intros [->|(ds & seps & -> & Hds & Hne & Hseps)] Hn.
  - apply cleanBidPrefix_no_digit. now apply plain_name_no_token.
  - destruct Hn as (Hc & Hdot & Htrim).
    rewrite <- app_assoc, cleanBidPrefix_token; auto.
    + now destruct name.
    + destruct name; [easy|]. apply Hc.
Qed.

End Cleaning.

(** C8 (as amended).  The cleaning leaves every string that does not begin
    with a decimal digit unchanged; so cleaning its own output again is
    the identity whenever that output does not begin with a digit.  This
    is the case of at most one numeric token (digits followed by white
    space or dashes) before a plain name: the cleaning returns the name,
    and cleaning the name again returns it unchanged. *)
Theorem cleanBidPrefix_idempotent_on_clean (s : jsstring) :
  (leading_digit s = false -> cleanBidPrefix s = s) /\
  (leading_digit (cleanBidPrefix s) = false ->
   cleanBidPrefix (cleanBidPrefix s) = cleanBidPrefix s) /\
  (forall tok name, s = tok ++ name -> bid_token tok -> plain_name name ->
   cleanBidPrefix s = name /\ cleanBidPrefix (cleanBidPrefix s) = name).
Proof.
  split; [apply cleanBidPrefix_no_digit|]. split; [apply cleanBidPrefix_no_digit|].
  intros tok name -> Htok Hname. rewrite (cleanBidPrefix_plain tok name Htok Hname).
  split; [reflexivity|]. apply cleanBidPrefix_no_digit. now apply plain_name_no_token.
Qed.

Lemma cleanBidPrefix_idempotent_on_clean_witness :
  leading_digit (cleanBidPrefix (str "150 Yelinak's Talisman")) = false /\
  cleanBidPrefix (cleanBidPrefix (str "150 Yelinak's Talisman"))
  = cleanBidPrefix (str "150 Yelinak's Talisman") /\
  cleanBidPrefix (str "150 Yelinak's Talisman") = str "Yelinak's Talisman".
Proof.
  split; [vm_compute; reflexivity|]. split.
  - apply (proj1 (proj2 (cleanBidPrefix_idempotent_on_clean (str "150 Yelinak's Talisman")))).
    vm_compute; reflexivity.
  - vm_compute; reflexivity.
Defined.

(** C8, the claim as stated, fails when a second numeric token follows the
    first: each pass removes one. *)
Lemma cleanBidPrefix_not_idempotent :
  cleanBidPrefix (str "150 10 Dose Blood of the Wolf") = str "10 Dose Blood of the Wolf" /\
  cleanBidPrefix (cleanBidPrefix (str "150 10 Dose Blood of the Wolf"))
  = str "Dose Blood of the Wolf" /\
  cleanBidPrefix (cleanBidPrefix (str "150 10 Dose Blood of the Wolf"))
  <> cleanBidPrefix (str "150 10 Dose Blood of the Wolf").
Proof.
  split; [vm_compute; reflexivity|]. split; [vm_compute; reflexivity|].
  vm_compute. discriminate.
Qed.

(** ** The item name of an extracted context *)

Section ItemName.



End ItemName.
















(** The same scenario in the tab shape, by evaluation. *)
Example tab_itemName_scenario :
  option_map (fun ctx => (itemName ctx, quantity ctx))
    (extractTimerContext
       (tab_timer (str "0%") (str "Bob - 150") (str "150 Yelinak's Talisman x 1") []))
  = Some (Some (str "Yelinak's Talisman"), Some (Int 1)).
Proof. vm_compute; reflexivity. Qed.


(** ** The scan of the bid rows *)

Section WinnersMap.

Lemma truthy_int v : truthy v = true -> v = Some (Int (or0 v)) /\ or0 v <> 0.
Proof.
  destruct v as [[|z]|]; simpl; try discriminate.
  intros H. apply negb_true_iff, Z.eqb_neq in H. auto.
Qed.

Lemma str_eqb_eq (a b : jsstring) : str_eqb a b = true <-> a = b.
Proof. unfold str_eqb. apply bool_decide_eq_true. Qed.

Lemma winnersMap_get_name m name e :
  winnersMap_get m name = Some e -> e_winner e = name.
Proof.
  unfold winnersMap_get. intros H. apply find_some in H as [_ H].
  now apply str_eqb_eq.
Qed.

Lemma winnersMap_get_set m entry name :
  winnersMap_get (winnersMap_set m entry) name =
    if str_eqb (e_winner entry) name
    then match winnersMap_get m name with
         | Some _ => Some entry
         | None => Some entry
         end
    else winnersMap_get m name.
Proof.
  unfold winnersMap_get. induction m as [|e m IH]; simpl.
  - destruct (str_eqb (e_winner entry) name); reflexivity.
  - destruct (str_eqb (e_winner e) (e_winner entry)) eqn:E1; simpl.
    + apply str_eqb_eq in E1. rewrite E1.
      destruct (str_eqb (e_winner entry) name); reflexivity.
    + destruct (str_eqb (e_winner e) name) eqn:E2.
      * destruct (str_eqb (e_winner entry) name) eqn:E3; [|reflexivity].
        apply str_eqb_eq in E2, E3. rewrite <- E3 in E2.
        apply str_eqb_eq in E2. congruence.
      * exact IH.
Qed.

Lemma winnersMap_set_has_bid m entry :
  Forall has_bid m -> has_bid entry -> Forall has_bid (winnersMap_set m entry).
Proof.
  intros Hm He. induction Hm as [|e m H Hm IH]; simpl; [auto|].
  destruct (str_eqb _ _); auto.
Qed.

Lemma recordBid_has_bid m entry :
  Forall has_bid m -> has_bid entry -> Forall has_bid (recordBid m entry).
Proof.
  intros Hm He. unfold recordBid. cbv zeta.
  match goal with |- context [if ?b then _ else _] => destruct b end;
    auto using winnersMap_set_has_bid.
Qed.

(** The bid recorded for a name after one more row: the higher of the
    recorded bid and the row's bid. *)
Lemma recordBid_get m entry name :
  Forall has_bid m -> has_bid entry ->
  option_map (fun e => or0 (e_bid e)) (winnersMap_get (recordBid m entry) name) =
    if str_eqb (e_winner entry) name
    then Some (match winnersMap_get m name with
               | Some existing => Z.max (or0 (e_bid existing)) (or0 (e_bid entry))
               | None => or0 (e_bid entry)
               end)
    else option_map (fun e => or0 (e_bid e)) (winnersMap_get m name).
Proof.
  intros Hm He. unfold recordBid.
  destruct (str_eqb (e_winner entry) name) eqn:En.
  - apply str_eqb_eq in En. subst name.
    destruct (winnersMap_get m (e_winner entry)) as [existing|] eqn:Eg.
    + assert (Hex : has_bid existing).
      { unfold winnersMap_get in Eg. apply find_some in Eg as [Hin _].
        rewrite Forall_forall in Hm. now apply Hm, list_elem_of_In. }
      unfold has_bid in He, Hex. rewrite He, Hex. simpl.
      destruct (truthy_int _ He) as [E1 _], (truthy_int _ Hex) as [E2 _].
      rewrite E1, E2. simpl.
      destruct (or0 (e_bid existing) <? or0 (e_bid entry)) eqn:Lt.
      * rewrite winnersMap_get_set, Eg.
        replace (str_eqb (e_winner entry) (e_winner entry)) with true
          by (symmetry; now apply str_eqb_eq).
        simpl. apply Z.ltb_lt in Lt. rewrite E1. simpl. f_equal. lia.
      * rewrite Eg. simpl. apply Z.ltb_ge in Lt. rewrite E2. simpl. f_equal. lia.
    + rewrite winnersMap_get_set, Eg.
      replace (str_eqb (e_winner entry) (e_winner entry)) with true
        by (symmetry; now apply str_eqb_eq).
      reflexivity.
  - cbv zeta.
    match goal with |- context [if ?b then winnersMap_set _ _ else _] =>
      destruct b end; [|reflexivity].
    now rewrite winnersMap_get_set, En.
Qed.

Lemma rowBidOf_has_bid bidCell defaultBid :
  truthy defaultBid = true -> truthy (rowBidOf bidCell defaultBid) = true.
Proof.
  intros Hd. unfold rowBidOf.
  match goal with |- context [negb (truthy ?x)] => destruct (truthy x) eqn:E end;
    simpl; rewrite ?Hd; auto.
Qed.

Lemma rowEntry_has_bid row defaultBid entry :
  truthy defaultBid = true -> rowEntry row defaultBid = Some entry -> has_bid entry.
Proof.
  intros Hd. unfold rowEntry.
  destruct (hasHeaderCell row); [easy|].
  destruct (length (cells row) <? 2)%nat; [easy|].
  destruct (rowNameAndBidCells (cells row)) as [[nameCell|] bidCell]; [|easy].
  match goal with |- context [if ?b then _ else _] => destruct b end; [|easy].
  intros [= <-]. now apply rowBidOf_has_bid.
Qed.

Lemma rowEntries_has_bid rs defaultBid :
  truthy defaultBid = true -> Forall has_bid (rowEntries rs defaultBid).
Proof.
  intros Hd. unfold rowEntries. induction rs as [|row rs IH]; simpl; [constructor|].
  destruct (rowEntry row defaultBid) eqn:E; [|exact IH].
  constructor; eauto using rowEntry_has_bid.
Qed.

(** The scan is a fold of [recordBid] over the entries of the rows. *)
Lemma scanRows_entries rs defaultBid m :
  scanRows rs defaultBid m = fold_left recordBid (rowEntries rs defaultBid) m.
Proof.
  unfold scanRows, rowEntries. revert m.
  induction rs as [|row rs IH]; intros m; simpl; [reflexivity|].
  rewrite IH. destruct (rowEntry row defaultBid); reflexivity.
Qed.

Lemma fold_recordBid_has_bid es : forall m,
  Forall has_bid m -> Forall has_bid es -> Forall has_bid (fold_left recordBid es m).
Proof.
  induction es as [|e es IH]; intros m Hm Hes; simpl; [assumption|].
  inversion Hes; subst. apply IH; auto using recordBid_has_bid.
Qed.

Lemma fold_recordBid_get name es : forall m,
  Forall has_bid m -> Forall has_bid es ->
  option_map (fun e => or0 (e_bid e)) (winnersMap_get (fold_left recordBid es m) name) =
    match option_map (fun e => or0 (e_bid e)) (winnersMap_get m name),
          map (fun e => or0 (e_bid e))
              (filter (fun e => str_eqb (e_winner e) name = true) es) with
    | Some b, bs => Some (max_of b bs)
    | None, b :: bs => Some (max_of b bs)
    | None, [] => None
    end.
Proof.
  induction es as [|e es IH]; intros m Hm Hes; simpl.
  - now destruct (option_map _ _).
  - inversion Hes as [|? ? He Hes']; subst.
    rewrite IH by auto using recordBid_has_bid.
    rewrite recordBid_get by assumption.
    rewrite filter_cons. destruct (decide _) as [En|En].
    + rewrite En. simpl map.
      destruct (winnersMap_get m name) as [ex|]; simpl; reflexivity.
    + apply not_true_is_false in En. rewrite En. reflexivity.
Qed.

Lemma max_of_ge x l : x <= max_of x l.
Proof.
  unfold max_of. revert x. induction l as [|y l IH]; intros x; simpl; [lia|].
  specialize (IH (Z.max x y)). lia.
Qed.

Lemma max_of_app x l l' : max_of x (l ++ l') = max_of (max_of x l) l'.
Proof. unfold max_of. apply fold_left_app. Qed.

Lemma countedBids_app name rs1 rs2 d :
  countedBids name (rs1 ++ rs2) d = countedBids name rs1 d ++ countedBids name rs2 d.
Proof.
  unfold countedBids, rowEntries. now rewrite omap_app, filter_app, map_app.
Qed.

(** The scan of the rows, with a positive default bid, leaves for every
    name the highest of the bids counted for it. *)
Lemma scanRows_highest (rs : list Row) (defaultBid : jsval) (name : jsstring) :
  gtZ defaultBid 0 = true ->
  match countedBids name rs defaultBid with
  | [] => winnersMap_get (scanRows rs defaultBid []) name = None
  | b :: bs =>
      winnersMap_get (scanRows rs defaultBid []) name
      = Some {| e_winner := name; e_bid := Some (Int (max_of b bs)) |}
  end.
Proof.
  intros Hpos.
  assert (Hd : truthy defaultBid = true).
  { destruct defaultBid as [[|z]|]; simpl in *; try discriminate.
    apply Z.ltb_lt in Hpos. apply negb_true_iff, Z.eqb_neq. lia. }
  unfold countedBids. rewrite scanRows_entries.
  pose proof (rowEntries_has_bid rs _ Hd) as Hes.
  pose proof (fold_recordBid_get name _ [] (List.Forall_nil _) Hes) as Hget.
  pose proof (fold_recordBid_has_bid _ [] (List.Forall_nil _) Hes) as Hall.
  simpl in Hget.
  destruct (winnersMap_get _ name) as [e|] eqn:Eg; simpl in Hget.
  - assert (He : has_bid e).
    { unfold winnersMap_get in Eg. apply find_some in Eg as [Hin _].
      rewrite Forall_forall in Hall. now apply Hall, list_elem_of_In. }
    apply winnersMap_get_name in Eg as Hn.
    destruct (map _ _) as [|b bs]; [discriminate|].
    injection Hget as Hget. destruct (truthy_int _ He) as [Eb _].
    destruct e as [w bid]; simpl in *. subst w. now rewrite Eb, Hget.
  - destruct (map _ _) as [|b bs]; [reflexivity|discriminate].
Qed.

End WinnersMap.

(** C6 (as amended).  Scanning the rows of a bids table with a positive
    default bid, as both call sites do, each row counts with the bid read
    from it, or with the default bid when none could be read, and the scan
    leaves for every name the highest of the bids counted for it; a name
    no row carries has no entry.  So no row ever lowers the bid recorded
    for its name: the bid recorded after a part of the rows is at most the
    bid recorded at the end. *)
Theorem winnersMap_highest_bid (table : Table) (defaultBid : jsval) (name : jsstring) :
  gtZ defaultBid 0 = true ->
  match countedBids name (rows table) defaultBid with
  | [] => winnersMap_get (extractWinnersFromTable table defaultBid) name = None
  | b :: bs =>
      winnersMap_get (extractWinnersFromTable table defaultBid) name
      = Some {| e_winner := name; e_bid := Some (Int (max_of b bs)) |}
  end /\
  (forall rs1 rs2 recorded,
     rows table = rs1 ++ rs2 ->
     winnersMap_get (scanRows rs1 defaultBid []) name = Some recorded ->
     exists final,
       winnersMap_get (extractWinnersFromTable table defaultBid) name = Some final /\
       or0 (e_bid recorded) <= or0 (e_bid final)).
Proof.
  intros Hpos. unfold extractWinnersFromTable.
  pose proof (scanRows_highest (rows table) defaultBid name Hpos) as Hall.
  split; [exact Hall|].
  intros rs1 rs2 recorded Hrows H1.
  pose proof (scanRows_highest rs1 defaultBid name Hpos) as Hpre.
  rewrite Hrows, countedBids_app in Hall. rewrite Hrows.
  destruct (countedBids name rs1 defaultBid) as [|b bs]; [congruence|].
  rewrite H1 in Hpre. injection Hpre as ->. cbn [app] in Hall.
  eexists. split; [exact Hall|]. cbn [e_bid or0].
  rewrite max_of_app. apply max_of_ge.
Qed.

(** A table with the bid history of two bidders, scanned with the default
    bid 900: Bob's later, lower bids leave his 1000 in place. *)
Lemma winnersMap_highest_bid_witness :
  let table :=
    {| rows := [bid_row (str "1") (str "Bob") (str "500");
                bid_row (str "2") (str "Sue") (str "700");
                bid_row (str "3") (str "Bob") (str "1000");
                bid_row (str "4") (str "Sue") (str "900");
                bid_row (str "5") (str "Bob") (str "800")];
       hasCharacterLinks := true |} in
  gtZ (Some (Int 900)) 0 = true /\
  winnersMap_get (extractWinnersFromTable table (Some (Int 900))) (str "Bob")
  = Some {| e_winner := str "Bob"; e_bid := Some (Int 1000) |} /\
  winnersMap_get (extractWinnersFromTable table (Some (Int 900))) (str "Sue")
  = Some {| e_winner := str "Sue"; e_bid := Some (Int 900) |}.
Proof.
  intros table. split; [reflexivity|]. split.
  - exact (proj1 (winnersMap_highest_bid table (Some (Int 900)) (str "Bob") eq_refl)).
  - exact (proj1 (winnersMap_highest_bid table (Some (Int 900)) (str "Sue") eq_refl)).
Defined.

(** C6, the claim as stated, fails for a row without a readable bid: it is
    not skipped but counted with the default bid.  Bob's recorded 500 is
    replaced by the 900 of the header, a bid no row of Bob's shows; and
    without a default bid the second row replaces the recorded 500 by no
    bid at all. *)
Lemma winnersMap_missing_bid_overwrites :
  let table :=
    {| rows := [bid_row (str "1") (str "Bob") (str "500");
                bid_row (str "2") (str "Bob") []];
       hasCharacterLinks := true |} in
  winnersMap_get (scanRows [bid_row (str "1") (str "Bob") (str "500")] (Some (Int 900)) [])
                 (str "Bob")
  = Some {| e_winner := str "Bob"; e_bid := Some (Int 500) |} /\
  extractWinnersFromTable table (Some (Int 900))
  = [{| e_winner := str "Bob"; e_bid := Some (Int 900) |}] /\
  extractWinnersFromTable table None
  = [{| e_winner := str "Bob"; e_bid := None |}].
Proof. vm_compute. repeat split. Qed.

(** ** The bidders of the tab shape carry integer bids *)

Section Numbers.

Lemma digit_not_space c : is_digit c = true -> is_space c = false.
Proof.
  unfold is_digit, is_space. intros H. apply andb_prop in H as [H1 H2].
  apply N.leb_le in H1, H2.
  repeat match goal with
         | |- context [(?a <=? ?b)%N] => destruct (N.leb_spec a b)
         | |- context [(?a =? ?b)%N] => destruct (N.eqb_spec a b)
         end; simpl; auto; lia.
Qed.

Lemma digit_not_char a c :
  is_digit c = true -> is_digit a = false -> is_char a c = false.
Proof.
  unfold is_char. intros Hc Ha. destruct (Ascii.eqb_spec a c) as [->|]; congruence.
Qed.

Lemma span_all p (s : jsstring) : forallb p s = true -> span p s = (s, []).
Proof.
  intros H. rewrite <- (app_nil_r s) at 1. now apply span_app.
Qed.

(** [parseInt] on a string of digits. *)
Lemma parseInt_digits w : all_digits w -> parseInt w = Int (decimal_value w).
Proof.
  intros [Hne Hd]. destruct w as [|c w]; [easy|].
  simpl in Hd. apply andb_prop in Hd as [Hc Hw].
  unfold parseInt. simpl trimStart. rewrite (digit_not_space _ Hc).
  rewrite !(digit_not_char _ c Hc) by reflexivity.
  assert (Hhex : (match c :: w with
                  | z :: x :: r =>
                      if is_char "0" z && (is_char "x" x || is_char "X" x)
                      then (true, r) else (false, c :: w)
                  | _ => (false, c :: w)
                  end) = (false, c :: w)).
  { destruct w as [|x w]; [reflexivity|].
    simpl in Hw. apply andb_prop in Hw as [Hx _].
    rewrite !(digit_not_char _ x Hx) by reflexivity.
    now rewrite andb_false_r. }
  rewrite Hhex. rewrite span_all by (simpl; now rewrite Hc, Hw). reflexivity.
Qed.

Lemma WINNER_RE_bid s m :
  match_anchored WINNER_RE s = Some m -> all_digits (grp 2 m).
Proof.
  intros Hm.
  apply (match_group (fun i w => i = 2%nat -> all_digits w) WINNER_RE s m 2);
    [|reflexivity|assumption|reflexivity].
  unfold WINNER_RE; simpl.
  repeat match goal with |- _ /\ _ => split end; auto.
  - intros ? ? ?. discriminate.
Qed.

Lemma parseWinnerPart_number bidAmount part e :
  parseWinnerPart bidAmount part = Some e -> is_number e.
Proof.
  unfold parseWinnerPart.
  destruct (match_anchored WINNER_RE part) as [m|] eqn:E.
  - intros [= <-]. apply WINNER_RE_bid in E.
    rewrite (parseInt_digits _ E). now eexists.
  - destruct (truthy bidAmount) eqn:Hb; [|easy].
    destruct (0 <? _)%nat; [|easy]. intros [= <-].
    destruct (truthy_int _ Hb) as [-> _]. now eexists.
Qed.

Lemma omap_Forall {A B} (P : B -> Prop) (f : A -> option B) l :
  (forall a b, f a = Some b -> P b) -> Forall P (omap f l).
Proof.
  intros H. induction l as [|a l IH]; simpl; [constructor|].
  destruct (f a) eqn:E; [constructor; eauto|assumption].
Qed.

Lemma strategy1_numbers winnerText f :
  Forall is_number (f_rollOffWinners f) ->
  Forall is_number (f_rollOffWinners (strategy1 winnerText f)).
Proof.
  intros Hf. unfold strategy1.
  destruct (_ && _); [|assumption].
  pose proof (omap_Forall is_number (parseWinnerPart (f_bidAmount f))
                (map trim (split_on "," winnerText))
                (parseWinnerPart_number _)) as H.
  destruct (omap _ _) as [|first [|second rest]]; try assumption.
  destruct (_ && _); assumption.
Qed.

Lemma has_bid_number e : has_bid e -> is_number e.
Proof. intros H. destruct (truthy_int _ H) as [E _]. eexists; exact E. Qed.

Lemma extractWinnersFromTable_numbers table defaultBid :
  truthy defaultBid = true ->
  Forall is_number (extractWinnersFromTable table defaultBid).
Proof.
  intros Hd. unfold extractWinnersFromTable. rewrite scanRows_entries.
  eapply List.Forall_impl; [apply has_bid_number|].
  apply fold_recordBid_has_bid; [constructor|now apply rowEntries_has_bid].
Qed.

Lemma adoptSingle_inv tableWinner f :
  positive_bid f -> is_number tableWinner ->
  positive_bid (adoptSingle tableWinner f) /\
  Forall is_number (f_rollOffWinners (adoptSingle tableWinner f)).
Proof.
  intros Hp Hn. unfold adoptSingle. split; [|simpl; auto].
  cbv zeta. simpl.
  destruct (truthy (e_bid tableWinner) && gtZ (e_bid tableWinner) 0) eqn:Hok.
  - apply andb_prop in Hok as [H1 H2].
    repeat match goal with |- context [if ?b then _ else _] => destruct b end;
      simpl; unfold positive_bid; simpl; auto.
  - repeat match goal with |- context [if ?b then _ else _] => destruct b end;
      simpl; auto.
Qed.

Lemma strategy2_inv bidsTable f :
  positive_bid f -> Forall is_number (f_rollOffWinners f) ->
  positive_bid (strategy2 bidsTable f) /\
  Forall is_number (f_rollOffWinners (strategy2 bidsTable f)).
Proof.
  intros Hp Hn. unfold strategy2.
  pose proof (extractWinnersFromTable_numbers bidsTable _ (proj1 Hp)) as He.
  destruct (extractWinnersFromTable bidsTable (f_bidAmount f))
    as [|first [|second rest]].
  - destruct (f_winner f) as [[|c w]|]; auto.
    destruct (findWinnerRow (rows bidsTable) (c :: w)) as [tableBid|] eqn:E; auto.
    assert (Hv : valid_positive tableBid = true).
    { clear -E. induction (rows bidsTable) as [|row rs IH]; simpl in E; [easy|].
      destruct (hasHeaderCell row); auto.
      destruct (rowCharacterLink row); auto.
      destruct (same_name _ _); auto.
      destruct (rowNumberInput row) as [[|x v]|]; auto.
      destruct (valid_positive (parseInt (x :: v))) eqn:V; auto.
      now injection E as <-. }
    destruct tableBid as [|z]; [easy|]. simpl in Hv. apply Z.ltb_lt in Hv.
    split.
    + split; simpl; [apply negb_true_iff, Z.eqb_neq; lia|now apply Z.ltb_lt].
    + simpl. repeat constructor. now eexists.
  - inversion He; subst. now apply adoptSingle_inv.
  - destruct (_ && _); simpl; auto.
Qed.

Lemma strategy3_inv auctionTables : forall f,
  positive_bid f -> Forall is_number (f_rollOffWinners f) ->
  Forall is_number (f_rollOffWinners (strategy3 auctionTables f)).
Proof.
  induction auctionTables as [|table rest IH]; intros f Hp Hn; simpl; [assumption|].
  destruct (hasCharacterLinks table); [|auto].
  pose proof (extractWinnersFromTable_numbers table _ (proj1 Hp)) as He.
  destruct (extractWinnersFromTable table (f_bidAmount f))
    as [|first [|second others]]; [auto| |].
  - inversion He; subst.
    destruct (adoptSingle_inv first f Hp) as [Hp' Hn']; auto.
  - destruct (_ && _); simpl; [assumption|].
    apply IH.
    + destruct (f_rollOffWinners f); exact Hp.
    + destruct (f_rollOffWinners f) eqn:E; simpl; [exact He|].
      rewrite E. exact Hn.
Qed.

Lemma strategy4_numbers auctionTables : forall f,
  Forall is_number (f_rollOffWinners f) ->
  Forall is_number (f_rollOffWinners (strategy4 auctionTables f)).
Proof.
  induction auctionTables as [|table rest IH]; intros f Hn; simpl; [assumption|].
  destruct (1 <? _); [|auto]. simpl.
  apply omap_Forall. intros row e. unfold capBidder.
  repeat match goal with
         | |- context [if ?b then _ else _] => destruct b; try discriminate
         | |- context [match ?x with _ => _ end] => destruct x; try discriminate
         end.
  all: intros [= <-]; now eexists.
Qed.

End Numbers.

(** ** Roll-off and winners *)

Section Winners.

Lemma nonempty_or_undefined_default {A} (l : list A) :
  match nonempty_or_undefined l with Some x => x | None => [] end = l.
Proof. now destruct l. Qed.

Lemma nonempty_or_undefined_idem {A} (l : list A) :
  nonempty_or_undefined
    (match nonempty_or_undefined l with Some x => x | None => [] end)
  = nonempty_or_undefined l.
Proof. now destruct l. Qed.

Lemma len_nonneg {A} (l : list A) : 0 <= len l.
Proof. unfold len. lia. Qed.

Lemma tableRollOffWinners_bid rs bidAmount :
  Forall (fun e => strict_eq (e_bid e) bidAmount = true) (tableRollOffWinners rs bidAmount).
Proof.
  unfold tableRollOffWinners. induction rs as [|row rs IH]; cbn [flat_map]; [constructor|].
  apply Forall_app. split; [|exact IH].
  destruct (tableRowEntry row) as [[[|c w]|] b]; try constructor.
  destruct (strict_eq (Some b) bidAmount) eqn:E; constructor; auto.
Qed.

Lemma extractTableContext_resolved timerElement ctx :
  extractTableContext timerElement = Some ctx -> resolved ctx.
Proof.
  unfold extractTableContext.
  destruct (closestRow timerElement) as [tableRow|]; [|easy].
  destruct (length (rowCells tableRow) <? 4)%nat; [easy|].
  destruct (tableRawItem (tableItemText tableRow)) as [raw q].
  cbv zeta.
  set (bidAmount := if truthy_str _ then _ else None).
  assert (Hnum : forall found,
             found = match allRows tableRow with
                     | Some rs => if truthy bidAmount
                                  then tableRollOffWinners rs bidAmount else []
                     | None => []
                     end -> Forall is_number found).
  { intros found ->. destruct (allRows tableRow) as [rs|]; [|constructor].
    destruct (truthy bidAmount) eqn:Hb; [|constructor].
    eapply List.Forall_impl; [|apply tableRollOffWinners_bid].
    intros e He. destruct (truthy_int _ Hb) as [Eb _]. rewrite Eb in He.
    destruct (e_bid e) as [[|x]|] eqn:Ee; simpl in He; try discriminate.
    exists x. exact Ee. }
  destruct (allRows tableRow) as [rs|].
  - destruct (truthy bidAmount) eqn:Hb.
    + intros [= <-]. unfold resolved, bidders, winners. simpl.
      rewrite ?nonempty_or_undefined_idem, ?nonempty_or_undefined_default.
      rewrite ?Hb. repeat split; try reflexivity. now apply Hnum.
    + intros [= <-]. unfold resolved, bidders, winners. simpl.
      rewrite ?nonempty_or_undefined_idem, ?nonempty_or_undefined_default.
      rewrite ?Hb. repeat split; try reflexivity. constructor.
  - intros [= <-]. unfold resolved, bidders, winners. simpl.
    rewrite ?nonempty_or_undefined_idem, ?nonempty_or_undefined_default.
    repeat split; try reflexivity. constructor.
Qed.

Lemma extractTimerContext_resolved timerElement ctx :
  extractTimerContext timerElement = Some ctx -> resolved ctx.
Proof.
  unfold extractTimerContext.
  destruct (auctionContainer timerElement) as [container|]; [|easy].
  destruct (parseWinnerText _) as [winner0 bidAmount0].
  destruct (scanItemDivs _ _ _) as [itemName0 quantity0].
  cbv zeta.
  set (f0 := {| f_winner := winner0; f_bidAmount := bidAmount0;
                f_rollOffWinners := []; f_rollOffBid := None |}).
  set (f1 := strategy1 _ f0).
  assert (H1 : Forall is_number (f_rollOffWinners f1))
    by (apply strategy1_numbers; constructor).
  match goal with |- context [strategy4 _ ?x] => set (f3 := x) end.
  assert (H3 : Forall is_number (f_rollOffWinners f3)).
  { subst f3. destruct (truthy (f_bidAmount f1) && gtZ (f_bidAmount f1) 0) eqn:Hp;
      [|exact H1].
    apply andb_prop in Hp. change (positive_bid f1) in Hp.
    match goal with |- context [match ?tp with Some _ => _ | None => f1 end] =>
      destruct tp as [panel|] end; [|exact H1].
    assert (H2 : positive_bid
                   (match tables panel with
                    | bidsTable :: _ => strategy2 bidsTable f1
                    | [] => f1
                    end) /\
                 Forall is_number
                   (f_rollOffWinners
                      (match tables panel with
                       | bidsTable :: _ => strategy2 bidsTable f1
                       | [] => f1
                       end))).
    { destruct (tables panel); [auto|]. now apply strategy2_inv. }
    destruct H2 as [Hp2 Hn2].
    destruct (len _ <=? 1); [|exact Hn2].
    now apply strategy3_inv. }
  clearbody f3.
  match goal with |- context [f_winner ?x] => set (f4 := x) end.
  assert (H4 : Forall is_number (f_rollOffWinners f4)).
  { subst f4.
    match goal with |- context [if ?c then _ else f3] => destruct c end; [|exact H3].
    match goal with |- context [match ?p with Some _ => _ | None => f3 end] =>
      destruct p end; [|exact H3].
    now apply strategy4_numbers. }
  clearbody f4.
  intros [= <-]. unfold resolved, bidders, winners. simpl.
  rewrite ?nonempty_or_undefined_idem, ?nonempty_or_undefined_default.
  repeat split. exact H4.
Qed.

Lemma computeIsRollOff_true l rb q :
  computeIsRollOff l rb q = true -> 1 < len l /\ rb <> None /\ or1 q < len l.
Proof.
  unfold computeIsRollOff. intros H.
  apply andb_prop in H as [H H3]. apply andb_prop in H as [H1 H2].
  apply Z.ltb_lt in H1, H3. repeat split; auto.
  now destruct rb.
Qed.

Lemma insert_desc_length x l : length (insert_desc x l) = S (length l).
Proof.
  induction l as [|y l IH]; simpl; [reflexivity|].
  destruct (_ <? _); simpl; auto.
Qed.

Lemma sort_desc_length l : length (sort_desc l) = length l.
Proof.
  induction l as [|x l IH]; simpl; [reflexivity|].
  now rewrite insert_desc_length, IH.
Qed.

Lemma max_of_in x l : max_of x l = x \/ In (max_of x l) l.
Proof.
  unfold max_of. revert x. induction l as [|y l IH]; intros x; simpl; [auto|].
  destruct (IH (Z.max x y)) as [H|H]; [|auto].
  rewrite H. destruct (Z.max_spec x y) as [[_ ->]|[_ ->]]; auto.
Qed.

(** The top bid is the bid of one of the bidders. *)
Lemma topBid_attained l :
  l <> [] -> Forall is_number l ->
  exists w, In w l /\ e_bid w = Some (Int (topBid l)).
Proof.
  intros Hne Hn. destruct l as [|w0 ws]; [easy|]. simpl.
  assert (Hin : In (max_of (or0 (e_bid w0)) (map (fun w => or0 (e_bid w)) ws))
                   (map (fun w => or0 (e_bid w)) (w0 :: ws))).
  { simpl. destruct (max_of_in (or0 (e_bid w0)) (map (fun w => or0 (e_bid w)) ws)); auto. }
  apply in_map_iff in Hin as (w & Hw & Hin). exists w. split; [assumption|].
  rewrite List.Forall_forall in Hn. destruct (Hn _ Hin) as [z Hz].
  rewrite Hz in Hw |- *. simpl in Hw. now rewrite Hw.
Qed.

Lemma topBidders_nonempty l :
  l <> [] -> Forall is_number l -> topBidders l <> [].
Proof.
  intros Hne Hn. destruct (topBid_attained l Hne Hn) as (w & Hin & Hw).
  assert (In w (topBidders l)).
  { unfold topBidders. apply list_elem_of_In, list_elem_of_filter.
    split; [|now apply list_elem_of_In].
    rewrite Hw. simpl. apply Z.eqb_refl. }
  now destruct (topBidders l).
Qed.

(** Without roll-off, with a bid amount and several items: the top
    [quantity] bidders by bid. *)
Lemma select_multi l b q w :
  l <> [] -> truthy b = true -> 1 < q ->
  selectActualWinners false l b (Some (Int q)) w = take (Z.to_nat q) (sort_desc l).
Proof.
  intros Hne Hb Hq. unfold selectActualWinners.
  destruct l as [|w0 ws]; [easy|]. rewrite Hb. simpl truthy. simpl gtZ.
  replace (negb (q =? 0)) with true by (symmetry; apply negb_true_iff, Z.eqb_neq; lia).
  replace (1 <? q) with true by (symmetry; now apply Z.ltb_lt).
  reflexivity.
Qed.

(** Without roll-off, with a bid amount and one item: the first bidder at
    the top bid. *)
Lemma select_single l b w :
  l <> [] -> truthy b = true ->
  selectActualWinners false l b (Some (Int 1)) w = take 1 (topBidders l).
Proof.
  intros Hne Hb. unfold selectActualWinners.
  destruct l as [|w0 ws]; [easy|]. rewrite Hb. simpl truthy. simpl gtZ.
  cbv zeta. simpl andb at 1.
  change (filter _ (w0 :: ws)) with (topBidders (w0 :: ws)).
  simpl strict_eq. simpl orb. rewrite andb_true_r.
  destruct (1 <? len (topBidders (w0 :: ws))) eqn:E; [reflexivity|].
  apply Z.ltb_ge in E. unfold len in E.
  destruct (topBidders (w0 :: ws)) as [|a [|a' r]]; simpl in *; auto; lia.
Qed.

(** Without roll-off, and without a bid amount or without bidders: the
    winner of the header alone. *)
Lemma select_none l b q w :
  l = [] \/ truthy b = false ->
  selectActualWinners false l b q w = headerWinnerOnly w b.
Proof.
  intros H. unfold selectActualWinners, headerWinnerOnly.
  destruct l as [|w0 ws]; [reflexivity|].
  destruct H as [H|H]; [discriminate|]. now rewrite H.
Qed.

End Winners.

(** C5 (as amended).  For every extracted context, of either shape: when
    isRollOff is true, actualWinners is the full list of roll-off
    participants, more than one and more than the quantity; when
    isRollOff is false, with a quantity of at least 1, a bid amount
    (noBid false) and at least quantity bidders, actualWinners has
    exactly quantity entries: the top quantity bidders by bid, highest
    first, for several items, and the first bidder at the top bid for one
    item; and when isRollOff is false without a bid amount (noBid true), or
    without any bidder, the winners are the winner of the header alone,
    with the bid amount read for it: one entry when a winner was read,
    none otherwise, whatever the quantity. *)
Theorem actualWinners_count timerElement ctx :
  extractTableContext timerElement = Some ctx \/
  extractTimerContext timerElement = Some ctx ->
  (isRollOff ctx = true ->
     actualWinners ctx = Some (bidders ctx) /\
     1 < len (bidders ctx) /\
     forall q, quantity ctx = Some (Int q) -> q < len (bidders ctx)) /\
  (isRollOff ctx = false ->
     forall q, quantity ctx = Some (Int q) -> 1 <= q -> noBid ctx = false ->
     q <= len (bidders ctx) ->
     len (winners ctx) = q /\
     (1 < q -> winners ctx = take (Z.to_nat q) (sort_desc (bidders ctx))) /\
     (q = 1 -> winners ctx = take 1 (topBidders (bidders ctx)))) /\
  (isRollOff ctx = false ->
     noBid ctx = true \/ bidders ctx = [] ->
     winners ctx = headerWinnerOnly (winner ctx) (bidAmount ctx) /\
     actualWinners ctx = nonempty_or_undefined (headerWinnerOnly (winner ctx) (bidAmount ctx))).
Proof.
  intros Hctx.
  assert (Hres : resolved ctx).
  { destruct Hctx; eauto using extractTableContext_resolved, extractTimerContext_resolved. }
  destruct Hres as (Hroll & Hwin & Hact & HnoBid & Hnum).
  split; [|split].
  - intros Ht. rewrite Ht in Hroll, Hwin. symmetry in Hroll.
    apply computeIsRollOff_true in Hroll as (H1 & _ & H2).
    simpl in Hwin. rewrite Hact, Hwin.
    split; [|split; [assumption|]].
    + destruct (bidders ctx); [unfold len in H1; simpl in H1; lia|reflexivity].
    + intros q Hq. rewrite Hq in H2. unfold or1 in H2. simpl in H2.
      destruct (q =? 0) eqn:E; simpl in H2; [apply Z.eqb_eq in E|]; lia.
  - intros Hf q Hq Hq1 Hnb Hlen. rewrite Hf, Hq in Hwin.
    assert (Hb : truthy (bidAmount ctx) = true).
    { rewrite Hnb in HnoBid. symmetry in HnoBid.
      apply orb_false_elim in HnoBid as [H _]. now apply negb_false_iff in H. }
    assert (Hne : bidders ctx <> []).
    { intros E. rewrite E in Hlen. unfold len in Hlen. simpl in Hlen. lia. }
    destruct (Z.eq_dec q 1) as [->|Hq2].
    + rewrite select_single in Hwin by assumption.
      pose proof (topBidders_nonempty _ Hne Hnum) as Htop.
      repeat split; try lia; auto.
      rewrite Hwin. destruct (topBidders (bidders ctx)); [easy|reflexivity].
    + rewrite select_multi in Hwin by (try assumption; lia).
      repeat split; try lia; auto.
      rewrite Hwin. unfold len in *. rewrite length_take, sort_desc_length. lia.
  - intros Hf Hno. rewrite Hf in Hwin.
    assert (Hcase : bidders ctx = [] \/ truthy (bidAmount ctx) = false).
    { destruct Hno as [Hno|Hno]; [right|now left].
      rewrite Hno in HnoBid. symmetry in HnoBid.
      destruct (truthy (bidAmount ctx)) eqn:Hb; [|reflexivity].
      destruct (truthy_int _ Hb) as [Eb Hz]. rewrite Eb in HnoBid. simpl in HnoBid.
      apply Z.eqb_eq in HnoBid. contradiction. }
    rewrite select_none in Hwin by exact Hcase.
    split; [exact Hwin|]. now rewrite Hact, Hwin.
Qed.

(** A multi-item auction of the tab shape: three bidders, two items. *)
Lemma actualWinners_count_witness :
  let t := tab_timer (str "0%") (str "Bob - 1000") (str "Epic Sword x 2")
             [bid_row (str "1") (str "Bob") (str "1000");
              bid_row (str "2") (str "Sue") (str "1000");
              bid_row (str "3") (str "Amy") (str "800")] in
  exists ctx,
    extractTimerContext t = Some ctx /\
    isRollOff ctx = false /\
    len (winners ctx) = 2 /\
    map e_winner (winners ctx) = [str "Bob"; str "Sue"].
Proof.
  intros t.
  destruct (extractTimerContext t) as [ctx|] eqn:E; [|vm_compute in E; discriminate].
  exists ctx. split; [reflexivity|].
  pose proof (actualWinners_count t ctx (or_intror E)) as (_ & H & _).
  assert (Hf : isRollOff ctx = false)
    by (vm_compute in E; injection E as <-; reflexivity).
  assert (Hq : quantity ctx = Some (Int 2))
    by (vm_compute in E; injection E as <-; reflexivity).
  assert (Hn : noBid ctx = false)
    by (vm_compute in E; injection E as <-; reflexivity).
  assert (Hl : 2 <= len (bidders ctx))
    by (vm_compute in E; injection E as <-; vm_compute; discriminate).
  destruct (H Hf 2 Hq ltac:(lia) Hn Hl) as (H1 & H2 & _).
  repeat split; try assumption.
  rewrite H2 by lia. vm_compute in E. injection E as <-. reflexivity.
Defined.

(** C5, the claim as stated, fails without a bid amount: a header that
    lists two priced winners and a third name gives no bid amount, two
    bidders for two items, no roll-off, and no winner at all; and a table
    row without a bid gives, for two items, the one winner of the row. *)
Lemma actualWinners_count_counterexample :
  let t := tab_timer (str "0%") (str "Bob - 150, Sue - 150, Amy") (str "Epic Sword x 2") [] in
  let r := auction_row (str "1") (str "Bob") (str "Epic Sword x 2") [] in
  (exists ctx,
     extractTimerContext t = Some ctx /\
     isRollOff ctx = false /\
     quantity ctx = Some (Int 2) /\
     map e_winner (bidders ctx) = [str "Bob"; str "Sue"] /\
     len (winners ctx) = 0) /\
  (exists ctx,
     extractTableContext (table_timer (str "0%") r [r]) = Some ctx /\
     isRollOff ctx = false /\
     quantity ctx = Some (Int 2) /\
     noBid ctx = true /\
     winners ctx = [{| e_winner := str "Bob"; e_bid := None |}]).
Proof.
  intros t r. split.
  - destruct (extractTimerContext t) as [ctx|] eqn:E; [|vm_compute in E; discriminate].
    exists ctx. vm_compute in E. injection E as <-. repeat split.
  - destruct (extractTableContext _) as [ctx|] eqn:E; [|vm_compute in E; discriminate].
    exists ctx. vm_compute in E. injection E as <-. repeat split.
Qed.

Lemma filter_all {A} (P : A -> Prop) `{forall x, Decision (P x)} (l : list A) :
  (forall x, In x l -> P x) -> filter P l = l.
Proof.
  induction l as [|x l IH]; intros Hall; [reflexivity|].
  rewrite filter_cons_True by (apply Hall, in_eq).
  f_equal. apply IH. intros y Hy. now apply Hall, in_cons.
Qed.

Lemma tableRollOffWinners_top rs b :
  topBidders (tableRollOffWinners rs (Some (Int b)))
  = tableRollOffWinners rs (Some (Int b)).
Proof.
  pose proof (tableRollOffWinners_bid rs (Some (Int b))) as Hall.
  destruct (tableRollOffWinners rs (Some (Int b))) as [|w0 ws]; [reflexivity|].
  assert (Hbid : forall e, In e (w0 :: ws) -> e_bid e = Some (Int b)).
  { intros e He. rewrite List.Forall_forall in Hall. specialize (Hall e He).
    destruct (e_bid e) as [[|x]|]; simpl in Hall; try discriminate.
    apply Z.eqb_eq in Hall. now subst. }
  assert (Htop : topBid (w0 :: ws) = b).
  { simpl. rewrite (Hbid w0) by apply in_eq. simpl.
    destruct (max_of_in b (map (fun w => or0 (e_bid w)) ws)) as [H|H]; [assumption|].
    apply in_map_iff in H as (w & Hw & Hin). rewrite <- Hw.
    rewrite (Hbid w) by now apply in_cons. reflexivity. }
  unfold topBidders. rewrite Htop.
  apply filter_all. intros e He.
  rewrite (Hbid e He). simpl. apply Z.eqb_refl.
Qed.

(** In the table shape the flag is what the specification says: with a
    quantity of at least 1, isRollOff holds exactly when more bidders
    share the top bid than there are items. *)
Lemma table_isRollOff_iff timerElement ctx q :
  extractTableContext timerElement = Some ctx ->
  quantity ctx = Some (Int q) -> 1 <= q ->
  isRollOff ctx = true <-> q < len (topBidders (bidders ctx)).
Proof.
  unfold extractTableContext.
  destruct (closestRow timerElement) as [tableRow|]; [|easy].
  destruct (length (rowCells tableRow) <? 4)%nat; [easy|].
  destruct (tableRawItem (tableItemText tableRow)) as [raw q'].
  cbv zeta.
  set (bidAmount := if truthy_str _ then _ else None).
  assert (Hsame : forall rs, truthy bidAmount = true ->
             topBidders (tableRollOffWinners rs bidAmount) = tableRollOffWinners rs bidAmount).
  { intros rs Hb. destruct (truthy_int _ Hb) as [Eb _]. rewrite Eb.
    apply tableRollOffWinners_top. }
  assert (Hq0 : forall z, 1 <= z -> negb (z =? 0) = true)
    by (intros z Hz; apply negb_true_iff, Z.eqb_neq; lia).
  destruct (allRows tableRow) as [rs|].
  - destruct (truthy bidAmount) eqn:Hb.
    + intros [= <-]. unfold bidders. simpl. intros [= ->] Hq.
      unfold computeIsRollOff, or1. simpl. rewrite (Hq0 q Hq).
      rewrite Hsame by reflexivity.
      destruct (1 <? len (tableRollOffWinners rs bidAmount)) eqn:E1; simpl.
      * destruct (truthy_int _ Hb) as [-> _]. simpl. apply Z.ltb_lt.
      * apply Z.ltb_ge in E1. split; [discriminate|lia].
    + intros [= <-]. unfold bidders. simpl. intros [= ->] Hq.
      unfold len; simpl. split; [discriminate|lia].
  - intros [= <-]. unfold bidders. simpl. intros [= ->] Hq.
    unfold len; simpl. split; [discriminate|lia].
Qed.

(** C4.  The scenario of the specification in the tab shape: Bob and Sue
    share the top bid of 1000 for one item and Amy bid 800.  Two bidders
    at the top bid exceed the quantity 1, and yet isRollOff is false: the
    flag needs a common roll-off bid, which the scan sets only when every
    bidder of the table carries the same bid.  The first of the two is
    reported as the only winner. *)
Theorem tab_isRollOff_misses_tie :
  let t := tab_timer (str "0%") (str "Bob - 1000") (str "Epic Sword x 1")
             [bid_row (str "1") (str "Bob") (str "1000");
              bid_row (str "2") (str "Sue") (str "1000");
              bid_row (str "3") (str "Amy") (str "800")] in
  exists ctx,
    extractTimerContext t = Some ctx /\
    quantity ctx = Some (Int 1) /\
    map e_winner (topBidders (bidders ctx)) = [str "Bob"; str "Sue"] /\
    1 < len (topBidders (bidders ctx)) /\
    rollOffBid ctx = None /\
    isRollOff ctx = false /\
    map e_winner (winners ctx) = [str "Bob"].
Proof.
  intros t.
  destruct (extractTimerContext t) as [ctx|] eqn:E; [|vm_compute in E; discriminate].
  exists ctx. vm_compute in E. injection E as <-. repeat split.
Qed.

(** ** The completion and deduplication state machine *)

Section Machine.

Lemma fresh_alerts_no_out s new :
  (forall h o, ~ In (Out h o) new) -> fresh_alerts s new.
Proof.
  intros H pre h o post ->. exfalso. apply (H h o).
  apply in_or_app. right. apply in_eq.
Qed.

Lemma advances_refl s : advances s s.
Proof.
  split; [reflexivity|]. exists []. split; [now rewrite app_nil_r|].
  apply fresh_alerts_no_out. intros h o [].
Qed.

Lemma advances_trans s1 s2 s3 : advances s1 s2 -> advances s2 s3 -> advances s1 s3.
Proof.
  intros [Ha (n1 & Ht1 & Hf1)] [Hb (n2 & Ht2 & Hf2)].
  split; [set_solver|]. exists (n1 ++ n2).
  split; [now rewrite Ht2, Ht1, app_assoc|].
  intros pre h o post Heq.
  apply app_eq_app in Heq as [l [[E1 E2]|[E1 E2]]].
  - destruct l as [|e l].
    + simpl in E2. rewrite app_nil_r in E1. subst.
      destruct (Hf2 [] h o post eq_refl) as [_ []].
    + injection E2 as <- E2. apply (Hf1 pre h o l E1).
  - destruct (Hf2 l h o post E2) as [Hn Hin]. split.
    + intros Hh. apply Hn. now apply Ha.
    + rewrite E1. apply in_or_app. now right.
Qed.

(** A step that keeps the alerted set and the trace. *)
Lemma advances_same s s' :
  alertedTimers s' = alertedTimers s -> trace s' = trace s -> advances s s'.
Proof.
  intros Ha Ht. split; [now rewrite Ha|]. exists [].
  split; [now rewrite Ht, app_nil_r|].
  apply fresh_alerts_no_out. intros h o [].
Qed.

(** A step that adds one effect other than an output. *)
Lemma advances_effect s s' e :
  alertedTimers s ⊆ alertedTimers s' -> trace s' = trace s ++ [e] ->
  (forall h o, e <> Out h o) -> advances s s'.
Proof.
  intros Ha Ht He. split; [assumption|]. exists [e]. split; [assumption|].
  apply fresh_alerts_no_out. intros h o [H|[]]. now apply (He h o).
Qed.

Lemma advances_markAlerted h s : advances s (markAlerted h s).
Proof.
  apply advances_effect with (e := Marked h); simpl; [set_solver|reflexivity|easy].
Qed.

Lemma advances_recordCompleted t sig s : advances s (recordCompleted t sig s).
Proof.
  apply advances_effect with (e := Recorded sig); simpl; [set_solver|reflexivity|easy].
Qed.

Lemma isUserBidding_state p ctx s :
  alertedTimers (snd (isUserBidding p ctx s)) = alertedTimers s /\
  trace (snd (isUserBidding p ctx s)) = trace s /\
  settings (snd (isUserBidding p ctx s)) = settings s.
Proof.
  unfold isUserBidding. cbv zeta.
  set (s1 := match userCharacterNames s with [] => _ | _ => s end).
  assert (H : alertedTimers s1 = alertedTimers s /\ trace s1 = trace s /\
              settings s1 = settings s)
    by (subst s1; destruct (userCharacterNames s); auto).
  clearbody s1.
  repeat match goal with
         | |- context [match ?x with _ => _ end] => destruct x; simpl; auto
         end.
Qed.

Lemma smartBiddingFilter_state p ctx s :
  alertedTimers (snd (smartBiddingFilter p ctx s)) = alertedTimers s /\
  trace (snd (smartBiddingFilter p ctx s)) = trace s /\
  settings (snd (smartBiddingFilter p ctx s)) = settings s.
Proof.
  unfold smartBiddingFilter. destruct (_ && _); [apply isUserBidding_state|auto].
Qed.

Lemma shouldAlert_state p ctx s :
  alertedTimers (snd (shouldAlert p ctx s)) = alertedTimers s /\
  trace (snd (shouldAlert p ctx s)) = trace s /\
  settings (snd (shouldAlert p ctx s)) = settings s.
Proof.
  unfold shouldAlert. destruct (noBid ctx); [auto|].
  pose proof (smartBiddingFilter_state p ctx s) as H.
  destruct (smartBiddingFilter p ctx s) as [pass s1]. simpl in H.
  repeat match goal with
         | |- context [if ?b then _ else _] => destruct b; simpl; auto
         end.
Qed.

Lemma emitOutputs_state h os : forall s,
  alertedTimers (emitOutputs h os s) = alertedTimers s /\
  trace (emitOutputs h os s) = trace s ++ map (Out h) os.
Proof.
  unfold emitOutputs. induction os as [|o os IH]; intros s; simpl.
  - now rewrite app_nil_r.
  - destruct (IH (emit (Out h o) s)) as [-> ->]. simpl.
    now rewrite <- app_assoc.
Qed.

(** The effects of an alert: the marking, then the outputs, then the
    record of the signature. *)
Lemma fresh_alerts_alert s h os sig :
  h ∉ alertedTimers s ->
  fresh_alerts s (Marked h :: map (Out h) os ++ [Recorded sig]).
Proof.
  intros Hh pre h' o post Heq.
  destruct pre as [|e pre]; [discriminate|].
  injection Heq as <- Heq.
  assert (Hin : In (Out h' o) (map (Out h) os ++ [Recorded sig])).
  { rewrite Heq. apply in_or_app. right. apply in_eq. }
  apply in_app_or in Hin as [Hin|[Hin|[]]]; [|discriminate].
  apply in_map_iff in Hin as (o' & [= <- _] & _).
  split; [exact Hh|apply in_eq].
Qed.

Lemma checkTimer_advances p h s : advances s (snd (checkTimer p h s)).
Proof.
  unfold checkTimer.
  destruct (negb (initializationComplete s)); [apply advances_refl|].
  destruct (navigationProtectionActive s); [apply advances_refl|].
  destruct (bool_decide (h ∈ alertedTimers s)) eqn:Hal; [apply advances_refl|].
  apply bool_decide_eq_false in Hal. cbv zeta.
  destruct (getWidthPercent _) as [w|]; [|apply advances_refl].
  set (s1 := if float_gt w 1 then markProgress h s else s).
  assert (H1 : alertedTimers s1 = alertedTimers s /\ trace s1 = trace s)
    by (subst s1; destruct (float_gt w 1); auto).
  destruct H1 as [Ha1 Ht1].
  assert (Hs1 : advances s s1) by now apply advances_same.
  assert (Hm : advances s (markAlerted h s1))
    by (eapply advances_trans; [exact Hs1|apply advances_markAlerted]).
  clearbody s1.
  destruct (float_le w 0); [|exact Hs1].
  destruct (_ && _); [exact Hm|].
  destruct (extractContext (timerOf p h)) as [context|]; [|exact Hm].
  destruct (truthy_str (itemName context)); [|exact Hm].
  destruct (duplicateCompletion _ _ _ _); [exact Hs1|].
  pose proof (shouldAlert_state p context (markAlerted h s1)) as (Ha3 & Ht3 & _).
  destruct (shouldAlert p context (markAlerted h s1)) as [alert s3].
  cbn [snd] in Ha3, Ht3. destruct alert; cbn [snd].
  - pose proof (emitOutputs_state h (showNotification p (settings s3) context) s3)
      as [Ha4 Ht4].
    set (s4 := emitOutputs h (showNotification p (settings s3) context) s3) in *.
    clearbody s4.
    assert (Hm1 : alertedTimers (markAlerted h s1) = {[h]} ∪ alertedTimers s1) by reflexivity.
    assert (Hm2 : trace (markAlerted h s1) = trace s1 ++ [Marked h]) by reflexivity.
    assert (Hr1 : alertedTimers (recordCompleted (now (clock p))
                    (buildCompletionSignature (Some context)) s4) = alertedTimers s4)
      by reflexivity.
    assert (Hr2 : trace (recordCompleted (now (clock p))
                    (buildCompletionSignature (Some context)) s4)
                  = trace s4 ++ [Recorded (buildCompletionSignature (Some context))])
      by reflexivity.
    split.
    + rewrite Hr1, Ha4, Ha3, Hm1, Ha1. apply union_subseteq_r.
    + eexists. split.
      * rewrite Hr2, Ht4, Ht3, Hm2, Ht1, <- !app_assoc. simpl. reflexivity.
      * now apply fresh_alerts_alert.
  - eapply advances_trans; [exact Hm|]. now apply advances_same.
Qed.

(** A handle already alerted is left alone by its check. *)
Lemma checkTimer_alerted p h s :
  h ∈ alertedTimers s -> checkTimer p h s = (false, s).
Proof.
  intros Hh. unfold checkTimer.
  destruct (negb _); [reflexivity|]. destruct (navigationProtectionActive s); [reflexivity|].
  now rewrite bool_decide_eq_true_2.
Qed.

Lemma fold_advances {A} (f : State -> A -> State) l :
  (forall s a, advances s (f s a)) -> forall s, advances s (fold_left f l s).
Proof.
  intros Hf. induction l as [|a l IH]; intros s; simpl; [apply advances_refl|].
  eapply advances_trans; [apply Hf|apply IH].
Qed.

Lemma maybeAnnounceNewAuction_advances p h s :
  advances s (maybeAnnounceNewAuction p h s).
Proof.
  unfold maybeAnnounceNewAuction.
  destruct (bool_decide _); [apply advances_refl|]. cbv zeta.
  repeat match goal with
         | |- context [if ?b then _ else _] => destruct b
         end;
    try (now apply advances_same).
  apply advances_effect with (e := Announced h); simpl; [set_solver|reflexivity|easy].
Qed.

Lemma addTimer_advances h s : advances s (addTimer h s).
Proof.
  unfold addTimer. destruct (bool_decide _); [apply advances_refl|now apply advances_same].
Qed.

Lemma registerTimer_advances p s h : advances s (registerTimer p s h).
Proof.
  unfold registerTimer. destruct (bool_decide _); [apply advances_refl|]. cbv zeta.
  assert (H : advances s (maybeAnnounceNewAuction p h (addTimer h s)))
    by (eapply advances_trans; [apply addTimer_advances|apply maybeAnnounceNewAuction_advances]).
  destruct (_ && _); [|exact H].
  eapply advances_trans; [exact H|apply advances_markAlerted].
Qed.

Lemma checkOrDrop_advances p s h : advances s (checkOrDrop p s h).
Proof.
  unfold checkOrDrop. destruct (negb _); [now apply advances_same|].
  apply checkTimer_advances.
Qed.

Lemma checkAllTimers_advances p s : advances s (checkAllTimers p s).
Proof.
  unfold checkAllTimers. cbv zeta.
  eapply advances_trans.
  - apply (fold_advances (registerTimer p)), registerTimer_advances.
  - apply (fold_advances (checkOrDrop p)), checkOrDrop_advances.
Qed.

Lemma markCompleted_advances p s h : advances s (markCompleted p s h).
Proof.
  unfold markCompleted. cbv zeta.
  eapply advances_trans; [apply advances_markAlerted|apply advances_recordCompleted].
Qed.

Lemma step_advances s e : advances s (step s e).
Proof.
  destruct e as [p| | |p|p|p|stored|p]; simpl; try (now apply advances_same).
  - unfold initialize. cbv zeta.
    eapply advances_trans; [|now apply advances_same].
    eapply advances_trans;
      [|apply (fold_advances (markCompleted p)), markCompleted_advances].
    now apply advances_same.
  - apply checkAllTimers_advances.
  - unfold mutationObserved. apply fold_advances. intros s0 h.
    destruct (bool_decide _); [apply advances_refl|].
    eapply advances_trans; [apply addTimer_advances|apply maybeAnnounceNewAuction_advances].
  - unfold becameVisible. cbv zeta.
    eapply advances_trans; [|apply fold_advances].
    + now apply advances_same.
    + intros s0 h. destruct (isCompleted p h);
        [apply markCompleted_advances|apply advances_refl].
Qed.

Lemma runEvents_advances events : forall s, advances s (runEvents s events).
Proof. unfold runEvents. apply fold_advances, step_advances. Qed.

Lemma outputsFor_app h a b : outputsFor h (a ++ b) = outputsFor h a ++ outputsFor h b.
Proof. unfold outputsFor. apply omap_app. Qed.

Lemma outputsFor_nil h new :
  (forall o, ~ In (Out h o) new) -> outputsFor h new = [].
Proof.
  intros H. unfold outputsFor. induction new as [|e new IH]; [reflexivity|].
  simpl. destruct e as [h'|sig|h' o|h']; try (apply IH; intros o Ho; apply (H o); now right).
  destruct (Nat.eqb_spec h h') as [->|Hne].
  - exfalso. apply (H o). now left.
  - apply IH. intros o' Ho. apply (H o'). now right.
Qed.

Lemma marked_app a b : marked (a ++ b) = marked a ∪ marked b.
Proof. unfold marked. now rewrite omap_app, list_to_set_app_L. Qed.

Lemma marked_outputs h os : marked (map (Out h) os) = ∅.
Proof. induction os as [|o os IH]; [reflexivity|exact IH]. Qed.

Lemma marked_nil : marked [] = ∅.
Proof. reflexivity. Qed.

Lemma accounted_refl s : accounted s s.
Proof.
  exists []. split; [now rewrite app_nil_r|]. now rewrite marked_nil, union_empty_r_L.
Qed.

Lemma accounted_trans s1 s2 s3 : accounted s1 s2 -> accounted s2 s3 -> accounted s1 s3.
Proof.
  intros (n1 & T1 & A1) (n2 & T2 & A2). exists (n1 ++ n2).
  split; [now rewrite T2, T1, app_assoc|].
  now rewrite A2, A1, marked_app, union_assoc_L.
Qed.

Lemma accounted_same s s' :
  alertedTimers s' = alertedTimers s -> trace s' = trace s -> accounted s s'.
Proof.
  intros Ha Ht. exists []. rewrite Ha, Ht, app_nil_r. split; [reflexivity|].
  now rewrite marked_nil, union_empty_r_L.
Qed.

Lemma accounted_effect s s' e :
  alertedTimers s' = alertedTimers s -> trace s' = trace s ++ [e] ->
  (forall h, e <> Marked h) -> accounted s s'.
Proof.
  intros Ha Ht He. exists [e]. split; [assumption|]. rewrite Ha.
  assert (E : marked [e] = ∅) by (destruct e; try reflexivity; now destruct (He h)).
  now rewrite E, union_empty_r_L.
Qed.

Lemma accounted_markAlerted h s : accounted s (markAlerted h s).
Proof.
  exists [Marked h]. split; [reflexivity|].
  change (marked [Marked h]) with ({[h]} ∪ (∅ : gset handle)).
  change (alertedTimers (markAlerted h s)) with ({[h]} ∪ alertedTimers s).
  rewrite union_empty_r_L. apply union_comm_L.
Qed.

Lemma accounted_recordCompleted t sig s : accounted s (recordCompleted t sig s).
Proof. apply accounted_effect with (e := Recorded sig); [reflexivity|reflexivity|easy]. Qed.

Lemma accounted_emitOutputs h os s : accounted s (emitOutputs h os s).
Proof.
  destruct (emitOutputs_state h os s) as [Ha Ht].
  exists (map (Out h) os). split; [assumption|].
  now rewrite Ha, marked_outputs, union_empty_r_L.
Qed.

Lemma checkTimer_accounted p h s : accounted s (snd (checkTimer p h s)).
Proof.
  unfold checkTimer.
  destruct (negb (initializationComplete s)); [apply accounted_refl|].
  destruct (navigationProtectionActive s); [apply accounted_refl|].
  destruct (bool_decide (h ∈ alertedTimers s)) eqn:Hal; [apply accounted_refl|].
  cbv zeta.
  destruct (getWidthPercent (Some (element (timerOf p h)))) as [w|]; [|apply accounted_refl].
  set (s1 := if float_gt w 1 then markProgress h s else s).
  assert (Hs1 : accounted s s1)
    by (subst s1; destruct (float_gt w 1); [now apply accounted_same|apply accounted_refl]).
  assert (Hm : accounted s (markAlerted h s1))
    by (eapply accounted_trans; [exact Hs1|apply accounted_markAlerted]).
  clearbody s1.
  destruct (float_le w 0); [|exact Hs1].
  destruct (_ && _); [exact Hm|].
  destruct (extractContext (timerOf p h)) as [context|]; [|exact Hm].
  destruct (truthy_str (itemName context)); [|exact Hm].
  destruct (duplicateCompletion _ _ _ _); [exact Hs1|].
  pose proof (shouldAlert_state p context (markAlerted h s1)) as (Ha3 & Ht3 & _).
  destruct (shouldAlert p context (markAlerted h s1)) as [alert s3].
  cbn [snd] in Ha3, Ht3.
  assert (H3 : accounted s s3)
    by (eapply accounted_trans; [exact Hm|now apply accounted_same]).
  destruct alert; cbn [snd]; [|exact H3].
  eapply accounted_trans; [exact H3|].
  eapply accounted_trans; [apply accounted_emitOutputs|apply accounted_recordCompleted].
Qed.

Lemma fold_accounted {A} (f : State -> A -> State) l :
  (forall s a, accounted s (f s a)) -> forall s, accounted s (fold_left f l s).
Proof.
  intros Hf. induction l as [|a l IH]; intros s; simpl; [apply accounted_refl|].
  eapply accounted_trans; [apply Hf|apply IH].
Qed.

Lemma maybeAnnounceNewAuction_accounted p h s :
  accounted s (maybeAnnounceNewAuction p h s).
Proof.
  unfold maybeAnnounceNewAuction.
  destruct (bool_decide _); [apply accounted_refl|]. cbv zeta.
  repeat match goal with
         | |- context [if ?b then _ else _] => destruct b
         end;
    try (now apply accounted_same).
  apply accounted_effect with (e := Announced h); [reflexivity|reflexivity|easy].
Qed.

Lemma addTimer_accounted h s : accounted s (addTimer h s).
Proof.
  unfold addTimer. destruct (bool_decide _); [apply accounted_refl|now apply accounted_same].
Qed.

Lemma registerTimer_accounted p s h : accounted s (registerTimer p s h).
Proof.
  unfold registerTimer. destruct (bool_decide _); [apply accounted_refl|]. cbv zeta.
  assert (H : accounted s (maybeAnnounceNewAuction p h (addTimer h s)))
    by (eapply accounted_trans; [apply addTimer_accounted|apply maybeAnnounceNewAuction_accounted]).
  destruct (_ && _); [|exact H].
  eapply accounted_trans; [exact H|apply accounted_markAlerted].
Qed.

Lemma checkOrDrop_accounted p s h : accounted s (checkOrDrop p s h).
Proof.
  unfold checkOrDrop. destruct (negb _); [now apply accounted_same|].
  apply checkTimer_accounted.
Qed.

Lemma markCompleted_accounted p s h : accounted s (markCompleted p s h).
Proof.
  unfold markCompleted. cbv zeta.
  eapply accounted_trans; [apply accounted_markAlerted|apply accounted_recordCompleted].
Qed.

Lemma step_accounted s e : accounted s (step s e).
Proof.
  destruct e as [p| | |p|p|p|stored|p]; simpl; try (now apply accounted_same).
  - unfold initialize. cbv zeta.
    eapply accounted_trans; [|now apply accounted_same].
    eapply accounted_trans;
      [|apply (fold_accounted (markCompleted p)), markCompleted_accounted].
    now apply accounted_same.
  - unfold checkAllTimers. cbv zeta.
    eapply accounted_trans.
    + apply (fold_accounted (registerTimer p)), registerTimer_accounted.
    + apply (fold_accounted (checkOrDrop p)), checkOrDrop_accounted.
  - unfold mutationObserved. apply fold_accounted. intros s0 h.
    destruct (bool_decide _); [apply accounted_refl|].
    eapply accounted_trans; [apply addTimer_accounted|apply maybeAnnounceNewAuction_accounted].
  - unfold becameVisible. cbv zeta.
    eapply accounted_trans; [|apply fold_accounted].
    + now apply accounted_same.
    + intros s0 h. destruct (isCompleted p h);
        [apply markCompleted_accounted|apply accounted_refl].
Qed.

Lemma runEvents_accounted events : forall s, accounted s (runEvents s events).
Proof. unfold runEvents. apply fold_accounted, step_accounted. Qed.

Lemma outputsFor_marked h' h t : outputsFor h' (t ++ [Marked h]) = outputsFor h' t.
Proof. rewrite outputsFor_app. apply app_nil_r. Qed.

(** A check starts no output, or it alerts after the marking. *)
Lemma checkTimer_marks_first p h s :
  (forall h', outputsFor h' (trace (snd (checkTimer p h s))) = outputsFor h' (trace s)) \/
  alerts_marked_first p h s.
Proof.
  unfold alerts_marked_first, checkTimer.
  destruct (negb (initializationComplete s)); [now left|].
  destruct (navigationProtectionActive s); [now left|].
  destruct (bool_decide (h ∈ alertedTimers s)) eqn:Hal; [now left|].
  apply bool_decide_eq_false in Hal. cbv zeta.
  destruct (getWidthPercent (Some (element (timerOf p h)))) as [w|]; [|now left].
  set (s1 := if float_gt w 1 then markProgress h s else s).
  assert (H1 : alertedTimers s1 = alertedTimers s /\ trace s1 = trace s)
    by (subst s1; destruct (float_gt w 1); auto).
  destruct H1 as [Ha1 Ht1]. clearbody s1.
  assert (Hm : forall h', outputsFor h' (trace (markAlerted h s1)) = outputsFor h' (trace s)).
  { intros h'. rewrite <- Ht1. apply outputsFor_marked. }
  destruct (float_le w 0); [|left; intros h'; cbn [snd]; now rewrite Ht1].
  destruct (_ && _); [now left|].
  destruct (extractContext (timerOf p h)) as [context|]; [|now left].
  destruct (truthy_str (itemName context)); [|now left].
  destruct (duplicateCompletion _ _ _ _); [left; intros h'; cbn [snd]; now rewrite Ht1|].
  pose proof (shouldAlert_state p context (markAlerted h s1)) as (Ha3 & Ht3 & _).
  destruct (shouldAlert p context (markAlerted h s1)) as [alert s3].
  cbn [snd] in Ha3, Ht3.
  destruct alert; cbn [snd].
  - right. split; [exact Hal|].
    exists s3, (showNotification p (settings s3) context),
           (buildCompletionSignature (Some context)).
    split; [|split; [|reflexivity]].
    + rewrite Ha3. cbn. now rewrite Ha1.
    + intros h'. rewrite Ht3. apply Hm.
  - left. intros h'. rewrite Ht3. apply Hm.
Qed.

End Machine.

(** C1.  Along every sequence of callbacks: a handle in the alerted set
    stays in it and gets no further output (no later check dispatches an
    alert for it again, and its check changes nothing); the alerted set
    grows by exactly the handles the new effects mark, and every output
    that is started for a handle comes after the effect that added this
    handle, which was not alerted before, to the alerted set; and a check
    from the state reached either starts no output at all or alerts with
    the marking first: the outputs are started from a state in which the
    handle is already in the alerted set and no output has been started. *)
Theorem alerted_once_and_marked_first (s : State) (events : list Event) :
  (forall h, h ∈ alertedTimers s ->
     (h ∈ alertedTimers (runEvents s events)) /\
     outputsFor h (trace (runEvents s events)) = outputsFor h (trace s) /\
     forall p, checkTimer p h (runEvents s events) = (false, runEvents s events)) /\
  (exists new, trace (runEvents s events) = trace s ++ new /\
     alertedTimers (runEvents s events) = alertedTimers s ∪ marked new /\
     forall pre h o post, new = pre ++ Out h o :: post ->
       In (Marked h) pre /\ (h ∉ alertedTimers s)) /\
  (forall p h,
     (forall h', outputsFor h' (trace (snd (checkTimer p h (runEvents s events))))
                 = outputsFor h' (trace (runEvents s events))) \/
     alerts_marked_first p h (runEvents s events)).
Proof.
  destruct (runEvents_advances events s) as [Hsub (new & Ht & Hfresh)].
  destruct (runEvents_accounted events s) as (new' & Ht' & Hacc).
  assert (new' = new) as -> by (rewrite Ht in Ht'; now apply app_inv_head in Ht').
  split; [|split].
  - intros h Hh. split; [now apply Hsub|]. split.
    + rewrite Ht, outputsFor_app, (outputsFor_nil h new), app_nil_r; [reflexivity|].
      intros o Ho. apply in_split in Ho as (pre & post & E).
      now destruct (Hfresh _ _ _ _ E).
    + intros p. apply checkTimer_alerted. now apply Hsub.
  - exists new. split; [assumption|]. split; [assumption|].
    intros pre h o post E. destruct (Hfresh _ _ _ _ E) as [Hn Hin]. now split.
  - intros p h. apply checkTimer_marks_first.
Qed.

(** The scenario of an alert: after monitoring has started, the tick that
    finds the timer 7 completed starts its five outputs with the timer
    already in the alerted set, and the next tick starts none. *)
Example alert_marks_first_scenario :
  let page := noonPage [7%nat] (str "0%") in
  let s := runEvents initialState
             [Initialize (noonPage [] (str "0%")); MonitoringStarts; ProtectionEnds] in
  alerts_marked_first page 7%nat (setAllTimers [7%nat] s) /\
  length (outputsFor 7%nat (trace (runEvents s [Tick page]))) = 5%nat /\
  bool_decide (7%nat ∈ alertedTimers (runEvents s [Tick page])) = true /\
  outputsFor 7%nat (trace (runEvents s [Tick page; Tick page]))
  = outputsFor 7%nat (trace (runEvents s [Tick page])).
Proof.
  intros page s. split; [|vm_compute; repeat split].
  destruct (checkTimer_marks_first page 7%nat (setAllTimers [7%nat] s)) as [H|H];
    [|exact H].
  specialize (H 7%nat). vm_compute in H. discriminate H.
Qed.

(** ** The deduplication rule *)

Section Dedup.

Lemma isUserBidding_setRecent p ctx s m :
  isUserBidding p ctx (setRecent m s)
  = (fst (isUserBidding p ctx s), setRecent m (snd (isUserBidding p ctx s))).
Proof.
  unfold isUserBidding. simpl.
  destruct (userCharacterNames s); simpl;
    repeat match goal with
           | |- context [match ?x with _ => _ end] => destruct x; simpl; auto
           end.
Qed.

Lemma shouldAlert_setRecent p ctx s m :
  shouldAlert p ctx (setRecent m s)
  = (fst (shouldAlert p ctx s), setRecent m (snd (shouldAlert p ctx s))).
Proof.
  unfold shouldAlert, smartBiddingFilter. simpl.
  destruct (noBid ctx); [reflexivity|].
  destruct (_ && _).
  - rewrite isUserBidding_setRecent.
    pose proof (isUserBidding_state p ctx s) as (_ & _ & Hs).
    destruct (isUserBidding p ctx s) as [pass s1]. simpl in *.
    repeat match goal with
           | |- context [if ?b then _ else _] => destruct b; simpl; auto
           end.
  - simpl.
    repeat match goal with
           | |- context [if ?b then _ else _] => destruct b; simpl; auto
           end.
Qed.

Lemma emitOutputs_setRecent h os : forall s m,
  emitOutputs h os (setRecent m s) = setRecent m (emitOutputs h os s).
Proof.
  unfold emitOutputs. induction os as [|o os IH]; intros s m; simpl; [reflexivity|].
  rewrite <- IH. reflexivity.
Qed.

Lemma duplicateCompletion_spec nowMs sig h s :
  duplicateCompletion nowMs sig h s = true <->
  isRecentlyCompleted nowMs sig s = true /\ h ∈ alertedTimers s.
Proof.
  unfold duplicateCompletion. cbv zeta. rewrite andb_true_iff, bool_decide_eq_true.
  reflexivity.
Qed.

Lemma duplicateCompletion_fresh nowMs sig h s :
  h ∉ alertedTimers s -> duplicateCompletion nowMs sig h s = false.
Proof.
  intros Hh. unfold duplicateCompletion. cbv zeta.
  rewrite (bool_decide_eq_false_2 _ Hh). apply andb_false_r.
Qed.

(** The outcome of a check does not depend on the recent completions. *)
Lemma checkTimer_setRecent p h s m :
  exists m', checkTimer p h (setRecent m s)
             = (fst (checkTimer p h s), setRecent m' (snd (checkTimer p h s))).
Proof.
  unfold checkTimer.
  cbn [initializationComplete navigationProtectionActive alertedTimers setRecent].
  destruct (negb (initializationComplete s)); [now exists m|].
  destruct (navigationProtectionActive s); [now exists m|].
  destruct (bool_decide (h ∈ alertedTimers s)) eqn:Hal; [now exists m|].
  apply bool_decide_eq_false in Hal.
  cbv zeta.
  destruct (getWidthPercent (Some (element (timerOf p h)))) as [w|]; [|now exists m].
  assert (Hs1 : (if float_gt w 1 then markProgress h (setRecent m s) else setRecent m s)
                = setRecent m (if float_gt w 1 then markProgress h s else s))
    by (destruct (float_gt w 1); reflexivity).
  rewrite Hs1. clear Hs1.
  set (s1 := if float_gt w 1 then markProgress h s else s).
  assert (Ha1 : alertedTimers s1 = alertedTimers s)
    by (subst s1; destruct (float_gt w 1); reflexivity).
  clearbody s1. cbn [timersWithProgress alertedTimers setRecent].
  destruct (float_le w 0); [|now exists m].
  match goal with |- context [if ?b then _ else _] => destruct b end; [now exists m|].
  destruct (extractContext (timerOf p h)) as [context|]; [|now exists m].
  destruct (truthy_str (itemName context)); [|now exists m].
  rewrite !duplicateCompletion_fresh by (simpl; now rewrite Ha1).
  change (markAlerted h (setRecent m s1)) with (setRecent m (markAlerted h s1)).
  rewrite shouldAlert_setRecent.
  destruct (shouldAlert p context (markAlerted h s1)) as [alert s3].
  cbn [fst snd settings setRecent].
  destruct alert; [|now exists m].
  rewrite emitOutputs_setRecent. eexists. reflexivity.
Qed.

End Dedup.

(** C2.  The deduplication rule of a check suppresses only when the
    signature was recorded within the window and the handle is in the
    alerted set, both; it never holds for a handle that is not alerted;
    and whatever the map of recent completions holds, a check of a handle
    takes the same decision, marks the same handles and starts the same
    outputs: a recently recorded identical signature alone suppresses
    nothing. *)
Theorem dedup_needs_both :
  (forall nowMs sig h s,
     duplicateCompletion nowMs sig h s = true <->
     isRecentlyCompleted nowMs sig s = true /\ h ∈ alertedTimers s) /\
  (forall nowMs sig h s,
     h ∉ alertedTimers s -> duplicateCompletion nowMs sig h s = false) /\
  (forall p h s m,
     fst (checkTimer p h (setRecent m s)) = fst (checkTimer p h s) /\
     alertedTimers (snd (checkTimer p h (setRecent m s)))
       = alertedTimers (snd (checkTimer p h s)) /\
     trace (snd (checkTimer p h (setRecent m s))) = trace (snd (checkTimer p h s))).
Proof.
  split; [apply duplicateCompletion_spec|].
  split; [apply duplicateCompletion_fresh|].
  intros p h s m. destruct (checkTimer_setRecent p h s m) as [m' ->]. auto.
Qed.

(** A handle seen for the first time at 0% alerts although the signature of
    its auction was recorded at this very moment. *)
Example fresh_handle_alerts_despite_recent_signature :
  let sig := str "yelinak's talisman|bob|150" in
  let s := setFlags true false (setRecent {[sig := 1000000]} initialState) in
  let page := noonPage [7%nat] (str "0%") in
  buildCompletionSignature (extractContext (timerOf page 7%nat)) = sig /\
  isRecentlyCompleted (now (clock page)) sig s = true /\
  fst (checkTimer page 7%nat s) = true /\
  map audible (outputsFor 7%nat (trace (snd (checkTimer page 7%nat s))))
  = [false; false; false; true; true].
Proof. vm_compute. repeat split. Qed.

(** ** Timers found completed while navigation protection is active *)

Section Protection.

Variable p : Page.

Let stamp := now (clock p).
Let signatureOf (h : handle) := buildCompletionSignature (extractContext (timerOf p h)).

Lemma recordCompleted_lookup sig k s :
  k = sig \/ recentCompletedMap s !! k = Some stamp ->
  recentCompletedMap (recordCompleted stamp sig s) !! k = Some stamp.
Proof.
  intros Hk. unfold recordCompleted. cbv zeta. simpl.
  assert (Hm : <[sig := stamp]> (recentCompletedMap s) !! k = Some stamp).
  { destruct (decide (k = sig)) as [->|Hne].
    - apply lookup_insert_eq.
    - rewrite lookup_insert_ne by congruence. now destruct Hk. }
  destruct (200 <? _); [|exact Hm].
  apply map_lookup_filter_Some. split; [exact Hm|].
  simpl. unfold COMPLETED_SUPPRESS_MS. lia.
Qed.

(** What marking one completed timer does. *)
Lemma markCompleted_spec s h :
  alertedTimers (markCompleted p s h) = {[h]} ∪ alertedTimers s /\
  recentCompletedMap (markCompleted p s h) !! signatureOf h = Some stamp /\
  (forall k, recentCompletedMap s !! k = Some stamp ->
             recentCompletedMap (markCompleted p s h) !! k = Some stamp) /\
  (forall h', outputsFor h' (trace (markCompleted p s h)) = outputsFor h' (trace s)) /\
  navigationProtectionActive (markCompleted p s h) = navigationProtectionActive s.
Proof.
  unfold markCompleted. cbv zeta. repeat split.
  - apply recordCompleted_lookup. now left.
  - intros k Hk. apply recordCompleted_lookup. now right.
  - intros h'. unfold recordCompleted. cbv zeta. simpl.
    rewrite !outputsFor_app. simpl. now rewrite !app_nil_r.
Qed.

Lemma fold_markCompleted_spec l : forall s,
  let s' := fold_left (markCompleted p) l s in
  (forall h, In h l -> h ∈ alertedTimers s' /\
                       recentCompletedMap s' !! signatureOf h = Some stamp) /\
  (alertedTimers s ⊆ alertedTimers s') /\
  (forall k, recentCompletedMap s !! k = Some stamp ->
             recentCompletedMap s' !! k = Some stamp) /\
  (forall h', outputsFor h' (trace s') = outputsFor h' (trace s)) /\
  navigationProtectionActive s' = navigationProtectionActive s.
Proof.
  induction l as [|h0 l IH]; intros s; cbn [fold_left]; cbv zeta.
  - split; [intros h []|]. split; [reflexivity|]. auto.
  - destruct (markCompleted_spec s h0) as (Ha & Hsig & Hkeep & Hout & Hprot).
    destruct (IH (markCompleted p s h0)) as (IH1 & IH2 & IH3 & IH4 & IH5).
    split; [|split; [|split; [|split]]].
    + intros h [<-|Hin]; [|now apply IH1]. split.
      * apply IH2. rewrite Ha. now apply elem_of_union_l, elem_of_singleton.
      * now apply IH3.
    + etransitivity; [|exact IH2]. rewrite Ha. apply union_subseteq_r.
    + intros k Hk. now apply IH3, Hkeep.
    + intros h'. now rewrite IH4.
    + now rewrite IH5.
Qed.

(** Every timer [initialize] finds at 0% is marked alerted and its
    signature is recorded, with protection on and without any output. *)
Lemma initialize_marks_and_records s h :
  In h (timers p) -> isCompleted p h = true ->
  navigationProtectionActive (initialize p s) = true /\
  (h ∈ alertedTimers (initialize p s)) /\
  recentCompletedMap (initialize p s) !! signatureOf h = Some stamp /\
  forall h', outputsFor h' (trace (initialize p s)) = outputsFor h' (trace s).
Proof.
  intros Hin Hdone. unfold initialize. cbv zeta. simpl.
  match goal with |- context [fold_left _ ?l ?s0] =>
    destruct (fold_markCompleted_spec l s0) as (H1 & _ & _ & H4 & H5) end.
  assert (Hf : In h (List.filter (isCompleted p) (timers p)))
    by (apply filter_In; auto).
  destruct (H1 h Hf) as [Ha Hs]. auto.
Qed.

End Protection.

(** C3.  A timer found at 0% by [initialize] is marked alerted, its
    signature is recorded and nothing is output.  The two other ways a timer
    is found during the protection window do less: the polling loop marks it
    and outputs nothing but records no signature, and the mutation observer
    does not even mark it, so that the alert of the old auction fires on the
    first tick after the window. *)
Theorem protection_window_discovery :
  let sig := str "yelinak's talisman|bob|150" in
  let empty := auctionPage [] (str "0%") in
  let page := auctionPage [7%nat] (str "0%") in
  buildCompletionSignature (extractContext (timerOf page 7%nat)) = sig /\
  isCompleted page 7%nat = true /\
  (let s := runEvents initialState [Initialize page] in
   navigationProtectionActive s = true /\
   bool_decide (7%nat ∈ alertedTimers s) = true /\
   recentCompletedMap s !! sig = Some 1000000 /\
   outputsFor 7%nat (trace s) = []) /\
  (let s := runEvents initialState [Initialize empty; MonitoringStarts; Tick page] in
   navigationProtectionActive s = true /\
   bool_decide (7%nat ∈ alertedTimers s) = true /\
   recentCompletedMap s !! sig = None /\
   trace s = [Marked 7%nat]) /\
  (let s := runEvents initialState [Initialize empty; MonitoringStarts; Mutation page; Tick page] in
   navigationProtectionActive s = true /\
   bool_decide (7%nat ∈ allTimers s) = true /\
   bool_decide (7%nat ∈ alertedTimers s) = false /\
   recentCompletedMap s !! sig = None /\
   map audible (outputsFor 7%nat (trace (runEvents s [ProtectionEnds; Tick page])))
   = [false; false; false; true; true]).
Proof. vm_compute. repeat split. Qed.

(** ** Quiet hours *)

Section QuietHours.

Variable p : Page.
Variable context : Context.
Variable s : State.

Lemma shouldAlert_quiet :
  noBid context = false ->
  fst (smartBiddingFilter p context s) = true ->
  isQuietHours (clock p) (settings s) = true ->
  fst (shouldAlert p context s) = negb (DISABLE_VISUALS (settings s)).
Proof.
  intros Hbid Hpass Hquiet. unfold shouldAlert. rewrite Hbid.
  pose proof (smartBiddingFilter_state p context s) as (_ & _ & Hs).
  destruct (smartBiddingFilter p context s) as [pass s1]. simpl in *. subst pass.
  simpl. rewrite Hs, Hquiet. reflexivity.
Qed.

Lemma showNotification_quiet st :
  isQuietHours (clock p) st = true ->
  DISABLE_VISUALS st = false ->
  showNotification p st context =
    (if BROWSER_NOTIFICATIONS st then
       match permission p with
       | Granted => [BrowserNotification (cleanContext context)]
       | Default => [PermissionRequest]
       | Denied => []
       end
     else []) ++
    [ConsoleMessage] ++ (if FLASH_SCREEN st then [Flash] else []).
Proof.
  intros Hquiet Hvis. unfold showNotification. cbv zeta. rewrite Hquiet, Hvis.
  rewrite !andb_true_r. cbn [negb]. now rewrite app_nil_r.
Qed.

Lemma showNotification_quiet_outputs st :
  isQuietHours (clock p) st = true ->
  DISABLE_VISUALS st = false ->
  forallb (fun o => negb (audible o)) (showNotification p st context) = true /\
  In ConsoleMessage (showNotification p st context) /\
  (FLASH_SCREEN st = true -> In Flash (showNotification p st context)) /\
  (BROWSER_NOTIFICATIONS st = true -> permission p = Granted ->
   In (BrowserNotification (cleanContext context)) (showNotification p st context)) /\
  (BROWSER_NOTIFICATIONS st = true -> permission p = Default ->
   In PermissionRequest (showNotification p st context)).
Proof.
  intros Hquiet Hvis. rewrite (showNotification_quiet st Hquiet Hvis).
  split; [|split; [|split; [|split]]].
  - destruct (BROWSER_NOTIFICATIONS st), (permission p), (FLASH_SCREEN st); reflexivity.
  - apply in_or_app. right. left. reflexivity.
  - intros ->. apply in_or_app. right. right. left. reflexivity.
  - intros -> ->. left. reflexivity.
  - intros -> ->. left. reflexivity.
Qed.

End QuietHours.

(** C9 (as amended).  For a context with bids that passes the smart
    bidding rule, when quiet hours are active and visuals are not
    disabled, [shouldAlert] returns true, with the settings unchanged, and
    the outputs of [showNotification] are the visual ones and nothing
    else: the browser notification when notifications are switched on and
    permitted (the request for the permission when it is undecided,
    nothing when it is denied), then the console message, then the screen
    flash when it is switched on; no sound, no beep and no speech. *)
Theorem quiet_hours_visual_only (p : Page) (context : Context) (s : State) :
  noBid context = false ->
  fst (smartBiddingFilter p context s) = true ->
  isQuietHours (clock p) (settings s) = true ->
  DISABLE_VISUALS (settings s) = false ->
  fst (shouldAlert p context s) = true /\
  settings (snd (shouldAlert p context s)) = settings s /\
  (let outputs := showNotification p (settings s) context in
   outputs =
     (if BROWSER_NOTIFICATIONS (settings s) then
        match permission p with
        | Granted => [BrowserNotification (cleanContext context)]
        | Default => [PermissionRequest]
        | Denied => []
        end
      else []) ++
     [ConsoleMessage] ++ (if FLASH_SCREEN (settings s) then [Flash] else []) /\
   forallb (fun o => negb (audible o)) outputs = true /\
   In ConsoleMessage outputs /\
   (FLASH_SCREEN (settings s) = true -> In Flash outputs) /\
   (BROWSER_NOTIFICATIONS (settings s) = true -> permission p = Granted ->
    In (BrowserNotification (cleanContext context)) outputs) /\
   (BROWSER_NOTIFICATIONS (settings s) = true -> permission p = Default ->
    In PermissionRequest outputs)).
Proof.
  intros Hbid Hpass Hquiet Hvis. split; [|split].
  - rewrite shouldAlert_quiet, Hvis by assumption. reflexivity.
  - apply shouldAlert_state.
  - cbv zeta. split; [now apply showNotification_quiet|].
    now apply showNotification_quiet_outputs.
Qed.

(** Bob's win at 23:30 with the default sounds, the flash and the
    notifications switched on and permitted: the alert is the browser
    notification, the console message and the flash. *)
Lemma quiet_hours_visual_only_witness :
  let p := auctionPage [7%nat] (str "0%") in
  let s := stateWith quietSettings [] in
  (noBid bobContext = false /\
   fst (smartBiddingFilter p bobContext s) = true /\
   isQuietHours (clock p) (settings s) = true /\
   DISABLE_VISUALS (settings s) = false) /\
  fst (shouldAlert p bobContext s) = true /\
  showNotification p (settings s) bobContext
  = [BrowserNotification (cleanContext bobContext); ConsoleMessage; Flash].
Proof.
  intros p s. split; [vm_compute; repeat split|].
  destruct (quiet_hours_visual_only p bobContext s) as (H1 & _ & H2 & _);
    try (vm_compute; reflexivity).
  split; [exact H1|]. rewrite H2. reflexivity.
Defined.

(** C9, the claim as stated, fails under smart bidding: with the raider
    profile, Bob's single win in quiet hours gives no alert to the user who
    plays Alice, the rule on the user's own bids coming first. *)
Lemma quiet_hours_no_alert :
  let p := auctionPage [7%nat] (str "0%") in
  let s := stateWith raiderSettings [str "Alice"] in
  truthy_str (winner bobContext) = true /\
  rollOffWinners bobContext = None /\
  noBid bobContext = false /\
  isQuietHours (clock p) (settings s) = true /\
  DISABLE_VISUALS (settings s) = false /\
  fst (shouldAlert p bobContext s) = false.
Proof. vm_compute. repeat split. Qed.

(** ** The map of recent completions *)

Section RecentCompletions.

Variable nowMs : Z.
Variable sig : jsstring.
Variable s : State.

Lemma recordCompleted_self :
  recentCompletedMap (recordCompleted nowMs sig s) !! sig = Some nowMs.
Proof.
  unfold recordCompleted. cbv zeta. simpl.
  destruct (200 <? _); [|apply lookup_insert_eq].
  apply map_lookup_filter_Some. split; [apply lookup_insert_eq|].
  simpl. unfold COMPLETED_SUPPRESS_MS. lia.
Qed.

(** What is left of another signature after a record: its entry, unless
    the pruning ran and found it older than the window. *)
Lemma recordCompleted_other k :
  k <> sig ->
  recentCompletedMap (recordCompleted nowMs sig s) !! k = recentCompletedMap s !! k \/
  (recentCompletedMap (recordCompleted nowMs sig s) !! k = None /\
   exists ts, recentCompletedMap s !! k = Some ts /\ COMPLETED_SUPPRESS_MS < nowMs - ts).
Proof.
  intros Hk. unfold recordCompleted. cbv zeta. simpl.
  destruct (200 <? _).
  - destruct (recentCompletedMap s !! k) as [ts|] eqn:E.
    + destruct (Z_lt_dec COMPLETED_SUPPRESS_MS (nowMs - ts)) as [Hold|Hfresh].
      * right. split; [|eauto].
        apply map_lookup_filter_None. right. intros x Hx.
        rewrite lookup_insert_ne in Hx by congruence.
        rewrite E in Hx. injection Hx as <-. simpl. tauto.
      * left. apply map_lookup_filter_Some. split.
        -- now rewrite lookup_insert_ne by congruence.
        -- exact Hfresh.
    + left. apply map_lookup_filter_None. left.
      now rewrite lookup_insert_ne by congruence.
  - left. now rewrite lookup_insert_ne by congruence.
Qed.

End RecentCompletions.

(** X1.  A signature that was just recorded is recent for the two minutes
    that follow and not after: recorded at [nowMs] (a time other than 0,
    which the map takes for "never"), it is reported recent at the time
    [t] exactly when [t - nowMs] is below the window. *)
Theorem recorded_signature_is_recent (nowMs t : Z) (sig : jsstring) (s : State) :
  nowMs <> 0 ->
  isRecentlyCompleted t sig (recordCompleted nowMs sig s)
  = (t - nowMs <? COMPLETED_SUPPRESS_MS).
Proof.
  intros Hnow. unfold isRecentlyCompleted. rewrite recordCompleted_self.
  destruct (nowMs =? 0) eqn:E; [apply Z.eqb_eq in E; contradiction|reflexivity].
Qed.

Lemma recorded_signature_is_recent_witness :
  isRecentlyCompleted 1119999 (str "epic sword|bob|150")
    (recordCompleted 1000000 (str "epic sword|bob|150") initialState) = true /\
  isRecentlyCompleted 1120000 (str "epic sword|bob|150")
    (recordCompleted 1000000 (str "epic sword|bob|150") initialState) = false.
Proof.
  split.
  - rewrite (recorded_signature_is_recent 1000000 1119999 _ initialState); [reflexivity|lia].
  - rewrite (recorded_signature_is_recent 1000000 1120000 _ initialState); [reflexivity|lia].
Defined.

(** X2.  The pruning of the map cannot be observed: after a record at
    [nowMs], every other signature is reported recent or not at any later
    time exactly as before the record. *)
Theorem pruning_is_not_observable (nowMs t : Z) (sig other : jsstring) (s : State) :
  other <> sig ->
  nowMs <= t ->
  isRecentlyCompleted t other (recordCompleted nowMs sig s)
  = isRecentlyCompleted t other s.
Proof.
  intros Hk Ht. unfold isRecentlyCompleted.
  destruct (recordCompleted_other nowMs sig s other Hk) as [->|[-> (ts & -> & Hold)]];
    [reflexivity|].
  destruct (ts =? 0); [reflexivity|].
  symmetry. apply Z.ltb_ge. lia.
Qed.

Lemma pruning_is_not_observable_witness :
  isRecentlyCompleted 1000500 (str "old|amy|10")
    (recordCompleted 1000000 (str "new|bob|20")
       (recordCompleted 999000 (str "old|amy|10") initialState))
  = isRecentlyCompleted 1000500 (str "old|amy|10")
      (recordCompleted 999000 (str "old|amy|10") initialState).
Proof.
  apply (pruning_is_not_observable 1000000 1000500); [discriminate|lia].
Defined.

(** X3.  The map grows past 200 entries only with completions of the last
    two minutes: when it holds more than 200 entries after a record, none
    of them is older than the window. *)
Theorem recent_map_bounded (nowMs : Z) (sig : jsstring) (s : State) :
  (200 < size (recentCompletedMap (recordCompleted nowMs sig s)))%nat ->
  forall k ts,
    recentCompletedMap (recordCompleted nowMs sig s) !! k = Some ts ->
    nowMs - ts <= COMPLETED_SUPPRESS_MS.
Proof.
  unfold recordCompleted. cbv zeta. simpl.
  destruct (200 <? _) eqn:E.
  - intros _ k ts Hk. apply map_lookup_filter_Some in Hk as [_ Hk].
    simpl in Hk. lia.
  - apply Z.ltb_ge in E. intros Hsize. lia.
Qed.

Lemma recent_map_bounded_witness :
  let m : gmap jsstring Z :=
    list_to_map (map (fun i => (number_to_string (Z.of_nat i), 1000000)) (seq 0 201)) in
  let s := recordCompleted 1000001 (str "epic sword|bob|150") (setRecent m initialState) in
  (200 < size (recentCompletedMap s))%nat /\
  forall k ts, recentCompletedMap s !! k = Some ts -> 1000001 - ts <= COMPLETED_SUPPRESS_MS.
Proof.
  intros m s.
  assert (H : (200 < size (recentCompletedMap s))%nat)
    by (apply Nat.ltb_lt; vm_compute; reflexivity).
  split; [exact H|].
  exact (recent_map_bounded 1000001 (str "epic sword|bob|150") (setRecent m initialState) H).
Defined.

(** ** The polling loop *)

Section Polling.

Variable p : Page.

Lemma isUserBidding_monitoring ctx s :
  monitoring (snd (isUserBidding p ctx s)) = monitoring s.
Proof.
  unfold isUserBidding. cbv zeta.
  set (s1 := match userCharacterNames s with [] => _ | _ => s end).
  assert (H : monitoring s1 = monitoring s)
    by (subst s1; destruct (userCharacterNames s); reflexivity).
  clearbody s1.
  repeat match goal with
         | |- context [match ?x with _ => _ end] => destruct x; simpl; auto
         end.
Qed.

Lemma shouldAlert_monitoring ctx s :
  monitoring (snd (shouldAlert p ctx s)) = monitoring s.
Proof.
  unfold shouldAlert. destruct (noBid ctx); [reflexivity|].
  assert (H : monitoring (snd (smartBiddingFilter p ctx s)) = monitoring s).
  { unfold smartBiddingFilter. destruct (_ && _); [apply isUserBidding_monitoring|reflexivity]. }
  destruct (smartBiddingFilter p ctx s) as [pass s1]. simpl in H.
  repeat match goal with
         | |- context [if ?b then _ else _] => destruct b; simpl; auto
         end.
Qed.

Lemma emitOutputs_monitoring h os : forall s,
  monitoring (emitOutputs h os s) = monitoring s.
Proof.
  unfold emitOutputs. induction os as [|o os IH]; intros s; simpl; [reflexivity|].
  now rewrite IH.
Qed.

Lemma checkTimer_monitoring h s :
  monitoring (snd (checkTimer p h s)) = monitoring s.
Proof.
  unfold checkTimer.
  destruct (negb (initializationComplete s)); [reflexivity|].
  destruct (navigationProtectionActive s); [reflexivity|].
  destruct (bool_decide (h ∈ alertedTimers s)); [reflexivity|].
  cbv zeta.
  destruct (getWidthPercent (Some (element (timerOf p h)))) as [w|]; [|reflexivity].
  set (s1 := if float_gt w 1 then markProgress h s else s).
  assert (H1 : monitoring s1 = monitoring s)
    by (subst s1; destruct (float_gt w 1); reflexivity).
  clearbody s1. rewrite <- H1.
  destruct (float_le w 0); [|reflexivity].
  match goal with |- context [if ?b then _ else _] => destruct b end; [reflexivity|].
  destruct (extractContext (timerOf p h)) as [context|]; [|reflexivity].
  destruct (truthy_str (itemName context)); [|reflexivity].
  destruct (duplicateCompletion _ _ _ _); [reflexivity|].
  pose proof (shouldAlert_monitoring context (markAlerted h s1)) as H3.
  destruct (shouldAlert p context (markAlerted h s1)) as [alert s3]. simpl in H3.
  destruct alert; simpl; [|exact H3].
  change (monitoring (recordCompleted ?t ?g ?x)) with (monitoring x).
  now rewrite emitOutputs_monitoring.
Qed.

Lemma checkTimer_allTimers h s : allTimers (snd (checkTimer p h s)) = allTimers s.
Proof. now pose proof (checkTimer_monitoring h s) as [= -> _ _ _ _ _]. Qed.

Lemma maybeAnnounceNewAuction_allTimers h s :
  allTimers (maybeAnnounceNewAuction p h s) = allTimers s.
Proof.
  unfold maybeAnnounceNewAuction. cbv zeta.
  repeat match goal with
         | |- context [if ?b then _ else _] => destruct b; simpl; auto
         end.
Qed.

Lemma addTimer_elem h s x :
  x ∈ allTimers (addTimer h s) <-> x ∈ allTimers s \/ x = h.
Proof.
  unfold addTimer. destruct (bool_decide (h ∈ allTimers s)) eqn:E.
  - apply bool_decide_eq_true in E. split; [auto|]. now intros [H| ->].
  - simpl. rewrite elem_of_app, list_elem_of_singleton. reflexivity.
Qed.

Lemma registerTimer_elem s h x :
  x ∈ allTimers (registerTimer p s h) <-> x ∈ allTimers s \/ x = h.
Proof.
  unfold registerTimer. destruct (bool_decide (h ∈ allTimers s)) eqn:E.
  - apply bool_decide_eq_true in E. split; [auto|]. now intros [H| ->].
  - cbv zeta.
    assert (H : allTimers (maybeAnnounceNewAuction p h (addTimer h s))
                = allTimers (addTimer h s)) by apply maybeAnnounceNewAuction_allTimers.
    destruct (_ && _); simpl; rewrite H; apply addTimer_elem.
Qed.

Lemma fold_registerTimer_elem l : forall s x,
  x ∈ allTimers (fold_left (registerTimer p) l s) <-> x ∈ allTimers s \/ x ∈ l.
Proof.
  induction l as [|h l IH]; intros s x; cbn [fold_left].
  - rewrite elem_of_nil. tauto.
  - rewrite IH, registerTimer_elem, elem_of_cons. tauto.
Qed.

Lemma checkOrDrop_elem s h x :
  x ∈ allTimers (checkOrDrop p s h) <->
  x ∈ allTimers s /\ (x = h -> contains p h = true).
Proof.
  unfold checkOrDrop. destruct (contains p h) eqn:E; simpl.
  - rewrite checkTimer_allTimers. tauto.
  - rewrite list_elem_of_In, filter_In, <- list_elem_of_In.
    rewrite negb_true_iff, Nat.eqb_neq. split.
    + intros [Hx Hne]. split; [exact Hx|]. intros ->. contradiction.
    + intros [Hx Hc]. split; [exact Hx|]. intros ->. now specialize (Hc eq_refl).
Qed.

Lemma fold_checkOrDrop_elem l : forall s x,
  x ∈ allTimers (fold_left (checkOrDrop p) l s) <->
  x ∈ allTimers s /\ (x ∈ l -> contains p x = true).
Proof.
  induction l as [|h l IH]; intros s x; cbn [fold_left].
  - rewrite elem_of_nil. tauto.
  - rewrite IH, checkOrDrop_elem, elem_of_cons. split.
    + intros [[Hx Hh] Hl]. split; [exact Hx|]. intros [->|Hin]; auto.
    + intros [Hx Hc]. repeat split; auto. intros ->. auto.
Qed.

End Polling.

(** X4.  After a tick of the polling loop the monitored timers are exactly
    the timers still in the document among those that were monitored or
    that the scan of this tick found: a timer that left the document is
    dropped, and none is lost otherwise. *)
Theorem monitored_after_tick (p : Page) (s : State) (h : handle) :
  h ∈ allTimers (checkAllTimers p s) <->
  contains p h = true /\ (h ∈ allTimers s \/ h ∈ timers p).
Proof.
  unfold checkAllTimers. cbv zeta.
  rewrite fold_checkOrDrop_elem, fold_registerTimer_elem. tauto.
Qed.

Section Protected.

Variable p : Page.

Lemma silent_refl s : silent s s.
Proof. repeat split. Qed.

Lemma silent_trans s1 s2 s3 : silent s1 s2 -> silent s2 s3 -> silent s1 s3.
Proof.
  intros (A1 & B1 & C1 & D1) (A2 & B2 & C2 & D2).
  repeat split; try congruence; intros h; now rewrite D2.
Qed.

Lemma fold_silent {A} (f : State -> A -> State) (P : State -> Prop) l :
  (forall s x, P s -> silent s (f s x) /\ P (f s x)) ->
  forall s, P s -> silent s (fold_left f l s).
Proof.
  intros Hf. induction l as [|x l IH]; intros s Hs; cbn [fold_left].
  - apply silent_refl.
  - destruct (Hf s x Hs) as [H1 H2].
    eapply silent_trans; [exact H1|now apply IH].
Qed.

Lemma outputsFor_snoc h t e :
  (forall h' o, e <> Out h' o) -> outputsFor h (t ++ [e]) = outputsFor h t.
Proof.
  intros He. rewrite outputsFor_app. destruct e; simpl; try apply app_nil_r.
  now specialize (He h0 o).
Qed.

Lemma outputsFor_emit h e s :
  (forall h' o, e <> Out h' o) -> outputsFor h (trace (emit e s)) = outputsFor h (trace s).
Proof. intros He. exact (outputsFor_snoc h (trace s) e He). Qed.

Lemma maybeAnnounceNewAuction_silent h s : silent s (maybeAnnounceNewAuction p h s).
Proof.
  unfold maybeAnnounceNewAuction. cbv zeta.
  repeat match goal with
         | |- context [if ?b then _ else _] => destruct b; simpl
         end; try apply silent_refl.
  all: split; [reflexivity|]; split; [reflexivity|]; split; [reflexivity|].
  all: intros h'; first
    [ reflexivity
    | exact (outputsFor_emit h' (Announced h) (markAnnounced h s)
               ltac:(intros; discriminate)) ].
Qed.

Lemma markAlerted_silent h s : silent s (markAlerted h s).
Proof.
  split; [reflexivity|]. split; [reflexivity|]. split; [reflexivity|].
  intros h'. exact (outputsFor_snoc h' (trace s) (Marked h) ltac:(intros; discriminate)).
Qed.

Lemma registerTimer_silent s h : silent s (registerTimer p s h).
Proof.
  unfold registerTimer. destruct (bool_decide _); [apply silent_refl|].
  cbv zeta.
  assert (H : silent s (maybeAnnounceNewAuction p h (addTimer h s))).
  { eapply silent_trans; [|apply maybeAnnounceNewAuction_silent].
    unfold addTimer. destruct (bool_decide _); repeat split. }
  destruct (_ && _); [|exact H].
  eapply silent_trans; [exact H|apply markAlerted_silent].
Qed.

Lemma checkOrDrop_silent s h :
  initializationComplete s = false \/ navigationProtectionActive s = true ->
  silent s (checkOrDrop p s h).
Proof.
  intros Hs. unfold checkOrDrop. destruct (negb (contains p h)); [repeat split|].
  unfold checkTimer. destruct Hs as [-> | Hs]; simpl; [apply silent_refl|].
  rewrite Hs. destruct (negb _); apply silent_refl.
Qed.

End Protected.

(** X5.  Before monitoring starts and during the navigation-protection
    window a tick of the polling loop alerts for nothing: whatever the page
    shows, it starts no output and records no completion (it only
    registers, announces and pre-marks timers), and it leaves the two flags
    as they are. *)
Theorem tick_is_silent_under_protection (p : Page) (s : State) :
  initializationComplete s = false \/ navigationProtectionActive s = true ->
  silent s (checkAllTimers p s).
Proof.
  intros Hs. unfold checkAllTimers. cbv zeta.
  pose (P := fun s' : State => silent s s').
  assert (H1 : silent s (fold_left (registerTimer p) (timers p) s)).
  { apply (fold_silent (registerTimer p) (fun _ => True)); [|exact I].
    intros s' h _. split; [apply registerTimer_silent|exact I]. }
  eapply silent_trans; [exact H1|].
  apply (fold_silent (checkOrDrop p)
           (fun s' => initializationComplete s' = false \/
                      navigationProtectionActive s' = true)).
  - intros s' h Hs'. pose proof (checkOrDrop_silent p s' h Hs') as Hc.
    split; [exact Hc|]. destruct Hc as (-> & -> & _). exact Hs'.
  - destruct H1 as (-> & -> & _). exact Hs.
Qed.

Lemma tick_is_silent_under_protection_witness :
  let page := auctionPage [7%nat] (str "0%") in
  let s := runEvents initialState [Initialize (auctionPage [] (str "0%")); MonitoringStarts] in
  navigationProtectionActive s = true /\
  silent s (checkAllTimers page s) /\
  outputsFor 7%nat (trace (checkAllTimers page s)) = [].
Proof.
  intros page s. split; [reflexivity|]. split.
  - apply (tick_is_silent_under_protection page s). right. reflexivity.
  - vm_compute. reflexivity.
Defined.

(** ** The announcement of new auctions *)

Section Announcements.

Lemma announcedCount_app h a b :
  announcedCount h (a ++ b) = (announcedCount h a + announcedCount h b)%nat.
Proof. unfold announcedCount. now rewrite omap_app, length_app. Qed.

Lemma announcedCount_outputs h h' os : announcedCount h (map (Out h') os) = 0%nat.
Proof. induction os as [|o os IH]; [reflexivity|exact IH]. Qed.

Lemma announcedCount_snoc h t e :
  (forall h', e <> Announced h') -> announcedCount h (t ++ [e]) = announcedCount h t.
Proof.
  intros He. rewrite announcedCount_app.
  destruct e;
    first [ now specialize (He h0)
          | match goal with |- context [announcedCount h [?x]] =>
              change (announcedCount h [x]) with 0%nat end; lia ].
Qed.

Lemma announcedCount_self h t :
  announcedCount h (t ++ [Announced h]) = S (announcedCount h t).
Proof.
  rewrite announcedCount_app. unfold announcedCount at 2. cbn.
  rewrite Nat.eqb_refl. simpl. lia.
Qed.

Lemma announces_refl s : announces s s.
Proof. intros h. split; auto. Qed.

Lemma announces_trans s1 s2 s3 : announces s1 s2 -> announces s2 s3 -> announces s1 s3.
Proof.
  intros H1 H2 h. destruct (H1 h) as [A1 B1]. destruct (H2 h) as [A2 B2]. split.
  - intros Hh. destruct (A1 Hh) as [Hh2 E1]. destruct (A2 Hh2) as [Hh3 E2].
    split; [exact Hh3|congruence].
  - intros Hh. destruct (B1 Hh) as [E1|[E1 Hh2]].
    + destruct (decide (h ∈ announcedNewAuctions s2)) as [Hh2|Hh2].
      * destruct (A2 Hh2) as [Hh3 E2]. left. congruence.
      * destruct (B2 Hh2) as [E2|[E2 Hh3]]; [left|right; split; auto]; congruence.
    + destruct (A2 Hh2) as [Hh3 E2]. right. split; [congruence|exact Hh3].
Qed.

(** A step that announces nothing. *)
Lemma announces_same s s' :
  announcedNewAuctions s' = announcedNewAuctions s ->
  (forall h, announcedCount h (trace s') = announcedCount h (trace s)) ->
  announces s s'.
Proof. intros Ha Hc h. rewrite Ha, Hc. split; auto. Qed.

Lemma fold_announces {A} (f : State -> A -> State) l :
  (forall s x, announces s (f s x)) -> forall s, announces s (fold_left f l s).
Proof.
  intros Hf. induction l as [|x l IH]; intros s; cbn [fold_left].
  - apply announces_refl.
  - eapply announces_trans; [apply Hf|apply IH].
Qed.

Variable p : Page.

Lemma checkTimer_announces h s : announces s (snd (checkTimer p h s)).
Proof.
  apply announces_same.
  - now pose proof (checkTimer_monitoring p h s) as [= _ -> _ _ _ _].
  - intros h'. unfold checkTimer.
    destruct (negb (initializationComplete s)); [reflexivity|].
    destruct (navigationProtectionActive s); [reflexivity|].
    destruct (bool_decide (h ∈ alertedTimers s)); [reflexivity|].
    cbv zeta.
    destruct (getWidthPercent (Some (element (timerOf p h)))) as [w|]; [|reflexivity].
    set (s1 := if float_gt w 1 then markProgress h s else s).
    assert (H1 : trace s1 = trace s) by (subst s1; destruct (float_gt w 1); reflexivity).
    clearbody s1. rewrite <- H1.
    assert (Hm : announcedCount h' (trace (markAlerted h s1)) = announcedCount h' (trace s1)).
    { change (trace (markAlerted h s1)) with (trace s1 ++ [Marked h]).
      now apply announcedCount_snoc. }
    destruct (float_le w 0); [|reflexivity].
    match goal with |- context [if ?b then _ else _] => destruct b end; [exact Hm|].
    destruct (extractContext (timerOf p h)) as [context|]; [|exact Hm].
    destruct (truthy_str (itemName context)); [|exact Hm].
    destruct (duplicateCompletion _ _ _ _); [reflexivity|].
    pose proof (shouldAlert_state p context (markAlerted h s1)) as (_ & H3 & _).
    destruct (shouldAlert p context (markAlerted h s1)) as [alert s3]. simpl in H3.
    destruct alert; cbn [snd]; [|now rewrite H3].
    match goal with |- context [recordCompleted ?t ?g ?x] =>
      change (trace (recordCompleted t g x)) with (trace x ++ [Recorded g]) end.
    destruct (emitOutputs_state h (showNotification p (settings s3) context) s3) as [_ ->].
    rewrite announcedCount_snoc by easy.
    rewrite announcedCount_app, announcedCount_outputs, H3.
    change (trace (markAlerted h s1)) with (trace s1 ++ [Marked h]).
    rewrite announcedCount_snoc by easy. lia.
Qed.

Lemma maybeAnnounceNewAuction_announces h s : announces s (maybeAnnounceNewAuction p h s).
Proof.
  unfold maybeAnnounceNewAuction.
  destruct (bool_decide (h ∈ announcedNewAuctions s)) eqn:E; [apply announces_refl|].
  apply bool_decide_eq_false in E. cbv zeta.
  assert (Hmark : announces s (markAnnounced h s)).
  { intros h'. split.
    - intros Hh. split; [|reflexivity]. simpl. now apply elem_of_union_r.
    - intros _. left. reflexivity. }
  assert (Hemit : announces s (emit (Announced h) (markAnnounced h s))).
  { intros h'.
    change (trace (emit (Announced h) (markAnnounced h s))) with (trace s ++ [Announced h]).
    destruct (Nat.eq_dec h' h) as [->|Hne].
    - rewrite announcedCount_self. split; [contradiction|]. intros _. right.
      split; [reflexivity|]. now apply elem_of_union_l, elem_of_singleton.
    - assert (Hc : announcedCount h' (trace s ++ [Announced h]) = announcedCount h' (trace s)).
      { rewrite announcedCount_app. unfold announcedCount at 2. cbn.
        apply Nat.eqb_neq in Hne. rewrite Hne. simpl. lia. }
      rewrite Hc. split; [|auto]. intros Hh. split; [|reflexivity].
      now apply elem_of_union_r. }
  repeat match goal with
         | |- context [if ?b then _ else _] => destruct b
         end; assumption.
Qed.

Lemma registerTimer_announces s h : announces s (registerTimer p s h).
Proof.
  unfold registerTimer. destruct (bool_decide _); [apply announces_refl|].
  cbv zeta.
  assert (H : announces s (maybeAnnounceNewAuction p h (addTimer h s))).
  { eapply announces_trans; [|apply maybeAnnounceNewAuction_announces].
    unfold addTimer. destruct (bool_decide _); apply announces_same; reflexivity. }
  destruct (_ && _); [|exact H].
  eapply announces_trans; [exact H|].
  apply announces_same; [reflexivity|]. intros h'.
  change (trace (markAlerted h ?x)) with (trace x ++ [Marked h]).
  now apply announcedCount_snoc.
Qed.

Lemma checkOrDrop_announces s h : announces s (checkOrDrop p s h).
Proof.
  unfold checkOrDrop. destruct (negb (contains p h)).
  - apply announces_same; reflexivity.
  - apply checkTimer_announces.
Qed.

Lemma markCompleted_announces s h : announces s (markCompleted p s h).
Proof.
  apply announces_same; [reflexivity|]. intros h'.
  unfold markCompleted. cbv zeta.
  match goal with |- context [recordCompleted ?t ?g ?x] =>
    change (trace (recordCompleted t g x)) with (trace x ++ [Recorded g]) end.
  rewrite announcedCount_snoc by easy.
  change (trace (markAlerted h s)) with (trace s ++ [Marked h]).
  now apply announcedCount_snoc.
Qed.

End Announcements.

Lemma step_announces s e : announces s (step s e).
Proof.
  destruct e as [p| | |p|p|p|stored|p]; cbn [step];
    try (apply announces_same; reflexivity).
  - unfold initialize. cbv zeta.
    match goal with |- announces _ (setCharacterNames _ (fold_left _ ?l ?s0)) =>
      apply announces_trans with (s2 := fold_left (markCompleted p) l s0);
        [apply announces_trans with (s2 := s0)|] end.
    + apply announces_same; reflexivity.
    + apply fold_announces. intros. apply markCompleted_announces.
    + apply announces_same; reflexivity.
  - unfold checkAllTimers. cbv zeta.
    apply announces_trans with (s2 := fold_left (registerTimer p) (timers p) s);
      apply fold_announces; intros.
    + apply registerTimer_announces.
    + apply checkOrDrop_announces.
  - unfold mutationObserved. apply fold_announces. intros s' h.
    destruct (bool_decide _); [apply announces_refl|].
    eapply announces_trans; [|apply maybeAnnounceNewAuction_announces].
    unfold addTimer. destruct (bool_decide _); apply announces_same; reflexivity.
  - unfold becameVisible. cbv zeta.
    match goal with |- announces _ (fold_left ?f ?l ?s0) =>
      apply announces_trans with (s2 := s0) end.
    + apply announces_same; reflexivity.
    + apply fold_announces. intros s' h.
      destruct (isCompleted p h); [apply markCompleted_announces|apply announces_refl].
Qed.

Lemma runEvents_announces events : forall s, announces s (runEvents s events).
Proof.
  unfold runEvents. apply fold_announces. intros. apply step_announces.
Qed.

(** X6.  A new auction is announced at most once per timer: from the start
    of the content script, along every sequence of callbacks (scans, ticks,
    mutations, returns to the tab, settings loads), the announcement of a
    given timer starts once at most, and only for a timer that is then
    marked announced. *)
Theorem announced_at_most_once (events : list Event) (h : handle) :
  (announcedCount h (trace (runEvents initialState events)) <= 1)%nat /\
  (announcedCount h (trace (runEvents initialState events)) = 1%nat ->
   h ∈ announcedNewAuctions (runEvents initialState events)).
Proof.
  destruct (runEvents_announces events initialState h) as [_ H].
  specialize (H (not_elem_of_empty h)).
  change (announcedCount h (trace initialState)) with 0%nat in H.
  destruct H as [E|[E Hh]]; rewrite E.
  - split; [lia|discriminate].
  - split; [lia|]. intros _. exact Hh.
Qed.

(** A timer found at 90% after the settings were loaded with the
    announcements on, at noon: two ticks and a mutation announce it once. *)
Example announced_once_scenario :
  let st := {| SOUND_TYPE := str "bell"; SOUND_PROFILE := str "raidleader";
               RAID_LEADER_SOUNDS := []; RAIDER_SOUNDS := [];
               FLASH_SCREEN := true; BROWSER_NOTIFICATIONS := true;
               SMART_BIDDING := false; QUIET_HOURS := false;
               QUIET_START := str "22:00"; QUIET_END := str "08:00";
               DISABLE_VISUALS := false; ENABLE_TTS := true;
               ANNOUNCE_NEW_AUCTIONS := Some true |} in
  let page := noonPage [7%nat] (str "90%") in
  let s := runEvents initialState
             [Initialize (noonPage [] (str "90%")); SettingsLoaded st; MonitoringStarts;
              Tick page; Mutation page; Tick page] in
  announcedCount 7%nat (trace s) = 1%nat.
Proof. vm_compute. reflexivity. Qed.

(** ** The alert policy *)

Section Policy.

Variable p : Page.

Lemma isUserBidding_silent ctx s : silent s (snd (isUserBidding p ctx s)).
Proof.
  unfold isUserBidding. cbv zeta.
  set (s1 := match userCharacterNames s with [] => _ | _ => s end).
  assert (H : silent s s1) by (subst s1; destruct (userCharacterNames s); repeat split).
  clearbody s1.
  repeat match goal with
         | |- context [match ?x with _ => _ end] => destruct x; simpl; auto
         end.
Qed.

Lemma shouldAlert_silent ctx s : silent s (snd (shouldAlert p ctx s)).
Proof.
  unfold shouldAlert. destruct (noBid ctx); [apply silent_refl|].
  assert (H : silent s (snd (smartBiddingFilter p ctx s))).
  { unfold smartBiddingFilter. destruct (_ && _); [apply isUserBidding_silent|apply silent_refl]. }
  destruct (smartBiddingFilter p ctx s) as [pass s1]. simpl in H.
  repeat match goal with
         | |- context [if ?b then _ else _] => destruct b; simpl; auto
         end.
Qed.

(** A check whose policy says no starts nothing. *)
Lemma checkTimer_no_alert h s :
  (forall ctx s', extractContext (timerOf p h) = Some ctx ->
                  settings s' = settings s ->
                  fst (shouldAlert p ctx s') = false) ->
  silent s (snd (checkTimer p h s)).
Proof.
  intros Hno. unfold checkTimer.
  destruct (negb (initializationComplete s)); [apply silent_refl|].
  destruct (navigationProtectionActive s); [apply silent_refl|].
  destruct (bool_decide (h ∈ alertedTimers s)); [apply silent_refl|].
  cbv zeta.
  destruct (getWidthPercent (Some (element (timerOf p h)))) as [w|]; [|apply silent_refl].
  set (s1 := if float_gt w 1 then markProgress h s else s).
  assert (H1 : silent s s1 /\ settings s1 = settings s)
    by (subst s1; destruct (float_gt w 1); repeat split).
  clearbody s1. destruct H1 as [H1 Hs1].
  assert (Hm : silent s (markAlerted h s1))
    by (eapply silent_trans; [exact H1|apply markAlerted_silent]).
  destruct (float_le w 0); [|exact H1].
  match goal with |- context [if ?b then _ else _] => destruct b end; [exact Hm|].
  destruct (extractContext (timerOf p h)) as [context|] eqn:Ectx; [|exact Hm].
  destruct (truthy_str (itemName context)); [|exact Hm].
  destruct (duplicateCompletion _ _ _ _); [exact H1|].
  pose proof (shouldAlert_silent context (markAlerted h s1)) as H3.
  pose proof (Hno context (markAlerted h s1) eq_refl Hs1) as Hf.
  destruct (shouldAlert p context (markAlerted h s1)) as [alert s3].
  simpl in H3, Hf. subst alert. simpl.
  eapply silent_trans; [exact Hm|exact H3].
Qed.

Lemma extractContext_resolved timerElement ctx :
  extractContext timerElement = Some ctx -> resolved ctx.
Proof.
  unfold extractContext.
  destruct (extractTableContext timerElement) as [c|] eqn:E.
  - intros [= <-]. now apply extractTableContext_resolved in E.
  - apply extractTimerContext_resolved.
Qed.

End Policy.

(** X7.  In smart bidding mode with the raider profile, once the user's
    character names are known, an auction with a winner alerts only when
    that winner is one of the user's characters, compared without regard
    to case: the other participants of a roll-off are not looked at. *)
Theorem smart_bidding_only_own_wins (p : Page) (ctx : Context) (s : State) (w : jsstring) :
  SMART_BIDDING (settings s) = true ->
  SOUND_PROFILE (settings s) = str "raider" ->
  userCharacterNames s <> [] ->
  winner ctx = Some w -> w <> [] ->
  fst (shouldAlert p ctx s) = true ->
  exists name, In name (userCharacterNames s) /\ toLowerCase name = toLowerCase w.
Proof.
  intros Hsmart Hprof Hnames Hw Hne. unfold shouldAlert.
  destruct (noBid ctx); [discriminate|].
  unfold smartBiddingFilter. rewrite Hsmart, Hprof. simpl andb.
  unfold isUserBidding. cbv zeta.
  destruct (userCharacterNames s) as [|n ns] eqn:En; [contradiction|].
  rewrite En, Hw. destruct w as [|c w]; [contradiction|].
  destruct (isUserCharacter (n :: ns) (c :: w)) eqn:Eu; [|discriminate].
  intros _. unfold isUserCharacter in Eu.
  apply existsb_exists in Eu as (name & Hin & Hsame).
  exists name. split; [exact Hin|].
  unfold same_name, str_eqb in Hsame. now apply bool_decide_eq_true in Hsame.
Qed.

Lemma smart_bidding_only_own_wins_witness :
  let p := auctionPage [7%nat] (str "0%") in
  let s := stateWith raiderSettings [str "Alice"; str "BOB"] in
  fst (shouldAlert p bobContext s) = true /\
  exists name, In name (userCharacterNames s) /\ toLowerCase name = toLowerCase (str "Bob").
Proof.
  intros p s.
  assert (H : fst (shouldAlert p bobContext s) = true) by (vm_compute; reflexivity).
  split; [exact H|].
  apply (smart_bidding_only_own_wins p bobContext s (str "Bob"));
    try reflexivity; try discriminate; exact H.
Defined.

(** X8.  In quiet hours with the visuals disabled a completed auction
    gives nothing at all: the check of its timer starts no output and
    records no completion. *)
Theorem nothing_in_quiet_hours_without_visuals (p : Page) (h : handle) (s : State) :
  isQuietHours (clock p) (settings s) = true ->
  DISABLE_VISUALS (settings s) = true ->
  silent s (snd (checkTimer p h s)).
Proof.
  intros Hquiet Hvis. apply checkTimer_no_alert. intros ctx s' _ Hs'.
  unfold shouldAlert. destruct (noBid ctx); [reflexivity|].
  pose proof (smartBiddingFilter_state p ctx s') as (_ & _ & Hset).
  destruct (smartBiddingFilter p ctx s') as [pass s1]. simpl in Hset.
  destruct pass; [|reflexivity]. simpl.
  rewrite Hset, Hs', Hquiet, Hvis. reflexivity.
Qed.

Lemma nothing_in_quiet_hours_without_visuals_witness :
  let st := {| SOUND_TYPE := str "bell"; SOUND_PROFILE := str "raidleader";
               RAID_LEADER_SOUNDS := str "bell"; RAIDER_SOUNDS := str "chime";
               FLASH_SCREEN := true; BROWSER_NOTIFICATIONS := true;
               SMART_BIDDING := false; QUIET_HOURS := true;
               QUIET_START := str "22:00"; QUIET_END := str "08:00";
               DISABLE_VISUALS := true; ENABLE_TTS := true;
               ANNOUNCE_NEW_AUCTIONS := Some false |} in
  let p := auctionPage [7%nat] (str "0%") in
  let s := setFlags true false (stateWith st []) in
  fst (checkTimer p 7%nat s) = true /\
  silent s (snd (checkTimer p 7%nat s)).
Proof.
  intros st p s. split; [vm_compute; reflexivity|].
  apply (nothing_in_quiet_hours_without_visuals p 7%nat s); vm_compute; reflexivity.
Defined.

(** X9.  An auction nobody bid on never alerts: when the context of a
    timer carries no bid amount (none was read, or it is not a number, or
    it is 0), the check of the timer starts no output and records no
    completion. *)
Theorem no_alert_without_bid (p : Page) (h : handle) (s : State) :
  (forall ctx, extractContext (timerOf p h) = Some ctx -> truthy (bidAmount ctx) = false) ->
  silent s (snd (checkTimer p h s)).
Proof.
  intros Hbid. apply checkTimer_no_alert. intros ctx s' Hctx _.
  destruct (extractContext_resolved _ _ Hctx) as (_ & _ & _ & Hno & _).
  unfold shouldAlert. rewrite Hno, (Hbid ctx Hctx). reflexivity.
Qed.

Lemma no_alert_without_bid_witness :
  let p := {| timers := [7%nat];
              timerOf := fun _ =>
                table_timer (str "0%")
                  (auction_row (str "1") (str "Bob") (str "Epic Sword x 1") (str "")) [];
              contains := fun _ => true;
              characterLinks := [];
              bidElements := false;
              bidActivity := None;
              permission := Granted;
              announceWindow := true;
              clock := {| now := 1000000; hours := 12; minutes := 0 |} |} in
  let s := setFlags true false initialState in
  fst (checkTimer p 7%nat s) = true /\
  silent s (snd (checkTimer p 7%nat s)).
Proof.
  intros p s. split; [vm_compute; reflexivity|].
  apply (no_alert_without_bid p 7%nat s).
  intros ctx E. vm_compute in E. injection E as <-. reflexivity.
Defined.

(** ** The user's character names *)

Section Trim.

Lemma trimStart_head (s : jsstring) :
  match trimStart s with c :: _ => is_space c = false | [] => True end.
Proof.
  induction s as [|c s IH]; simpl; [exact I|].
  destruct (is_space c) eqn:E; [exact IH|exact E].
Qed.

Lemma trimStart_In x (s : jsstring) : In x (trimStart s) -> In x s.
Proof.
  induction s as [|c s IH]; simpl; [easy|].
  destruct (is_space c); [auto|]. simpl. tauto.
Qed.

Lemma trimStart_fix (s : jsstring) :
  match s with c :: _ => is_space c = false | [] => True end -> trimStart s = s.
Proof. destruct s as [|c s]; simpl; [easy|]. now intros ->. Qed.

Lemma trimStart_idem (s : jsstring) : trimStart (trimStart s) = trimStart s.
Proof. apply trimStart_fix, trimStart_head. Qed.

Lemma trimEnd_In x (s : jsstring) : In x (trimEnd s) -> In x s.
Proof.
  unfold trimEnd. rewrite <- in_rev. intros H. apply trimStart_In in H.
  now rewrite <- in_rev in H.
Qed.

Lemma trimEnd_idem (s : jsstring) : trimEnd (trimEnd s) = trimEnd s.
Proof. unfold trimEnd. now rewrite rev_involutive, trimStart_idem. Qed.

Lemma trim_In x (s : jsstring) : In x (trim s) -> In x s.
Proof. unfold trim. intros H. now apply trimStart_In, trimEnd_In. Qed.

(** A trimmed string is empty or begins with a character that is not
    white space. *)
Lemma trim_first (s : jsstring) :
  match trim s with c :: _ => is_space c = false | [] => True end.
Proof.
  unfold trim. pose proof (trimStart_head s) as H.
  destruct (trimStart s) as [|c t]; [exact I|].
  now rewrite trimEnd_cons.
Qed.

Lemma trim_idem (s : jsstring) : trim (trim s) = trim s.
Proof.
  unfold trim. pose proof (trimStart_head s) as H.
  destruct (trimStart s) as [|c t]; [reflexivity|].
  rewrite trimEnd_cons by assumption. simpl trimStart. rewrite H.
  rewrite trimEnd_cons by assumption. now rewrite trimEnd_idem.
Qed.

End Trim.

(** X10.  The character names read from the top bar are proper names:
    each one is the text of a link before its first bracket, so it is not
    empty, holds no opening bracket and has no white space around it. *)
Theorem character_names_are_proper (p : Page) (name : jsstring) :
  In name (extractUserCharacterNames p) ->
  name <> [] /\ forallb is_not_lbracket name = true /\ trim name = name.
Proof.
  unfold extractUserCharacterNames. intros Hin.
  apply list_elem_of_In, list_elem_of_omap in Hin as (text & _ & Hname).
  destruct (match_anchored CHARACTER_RE (trim text)) as [m|] eqn:E; [|discriminate].
  injection Hname as <-.
  apply match_anchored_Some in E as (s' & Hrun).
  unfold CHARACTER_RE in Hrun. simpl seqs in Hrun.
  apply run_group_seq in Hrun as (w1 & w2 & Htext & -> & [Hne Hall] & _);
    [|reflexivity|reflexivity].
  unfold grp. simpl group.
  pose proof (trim_first text) as Hfirst. rewrite Htext in Hfirst.
  destruct w1 as [|c w1]; [contradiction|]. simpl in Hfirst.
  rewrite trim_head by assumption. split; [discriminate|]. split.
  - apply forallb_forall. intros x Hx. rewrite forallb_forall in Hall.
    apply Hall. destruct Hx as [<-|Hx]; [apply in_eq|].
    apply in_cons. now apply trimEnd_In.
  - rewrite <- (trim_head c w1) by assumption. apply trim_idem.
Qed.

Lemma character_names_are_proper_witness :
  let p := auctionPage [] (str "0%") in
  extractUserCharacterNames p = [str "Alice"] /\
  str "Alice" <> [] /\ forallb is_not_lbracket (str "Alice") = true /\
  trim (str "Alice") = str "Alice".
Proof.
  intros p. split; [vm_compute; reflexivity|].
  apply (character_names_are_proper p (str "Alice")). vm_compute. auto.
Defined.

(** ** The reminder scheduler *)

Section Reminders.

Import Background.

Variable c : TickClock.

Lemma firedBy_app a b : firedBy (a ++ b) = firedBy a ++ firedBy b.
Proof. unfold firedBy. apply omap_app. Qed.

Lemma firedBy_ackWrite rs x : firedBy (ackWrite rs x) = [].
Proof. unfold ackWrite. destruct (forallb _ rs); reflexivity. Qed.

(** One turn of the loop, on the reminder at the head of what is left. *)
Lemma tickReminder_head pre r suf st out :
  reminders st = pre ++ r :: suf ->
  exists st' out',
    tickReminder c (st, out) (length pre) = (st', out') /\
    soundProfile st' = soundProfile st /\ enabledDays st' = enabledDays st /\
    match r with
    | None =>
        reminders st' = pre ++ r :: suf /\
        lastFiredBoundary st' = lastFiredBoundary st /\ firedBy out' = firedBy out
    | Some rem =>
        if negb (enabled rem) then
          reminders st' = pre ++ r :: suf /\
          lastFiredBoundary st' = lastFiredBoundary st /\ firedBy out' = firedBy out
        else if negb (inWindow c rem) then
          reminders st' = pre ++ r :: suf /\
          lastFiredBoundary st' = boundary_delete (id rem) (lastFiredBoundary st) /\
          firedBy out' = firedBy out
        else if due c (lastFiredBoundary st) rem then
          reminders st' = pre ++ Some (asFired rem) :: suf /\
          lastFiredBoundary st' = boundary_set (id rem) (boundaryOf c) (lastFiredBoundary st) /\
          firedBy out' = firedBy out ++ [asFired rem]
        else
          reminders st' = pre ++ r :: suf /\
          lastFiredBoundary st' = lastFiredBoundary st /\ firedBy out' = firedBy out
    end.
Proof.
  intros Hrs. unfold tickReminder.
  rewrite Hrs, list_lookup_middle by reflexivity.
  destruct r as [rem|]; [|eauto 10].
  unfold due. destruct (enabled rem); cbn [negb andb]; [|eauto 10].
  change (withinWindow (boundaryOf c) (or_str (start rem) (str "19:00"))
            (or_str (stop rem) (str "23:00"))) with (inWindow c rem).
  destruct (inWindow c rem); cbn [negb andb]; [|eauto 10].
  change (match lastAckTs rem with Some a => a | None => 0 end) with (ackUntil rem).
  assert (Hf : match boundary_get (lastFiredBoundary st) (id rem) with
               | Some lastBoundary => str_eqb lastBoundary (boundaryOf c)
               | None => false
               end = firedAt c (lastFiredBoundary st) rem).
  { unfold firedAt, str_eqb.
    destruct (boundary_get (lastFiredBoundary st) (id rem)) as [b|].
    - apply bool_decide_ext. split; congruence.
    - symmetry. now apply bool_decide_eq_false_2. }
  rewrite Hf. destruct (firedAt c (lastFiredBoundary st) rem); cbn [negb andb]; [eauto 10|].
  unfold held, asFired.
  destruct (0 <? ackUntil rem) eqn:Ea; cbn [negb andb].
  - destruct (timestamp c <? ackUntil rem); cbn [negb]; [eauto 10|].
    rewrite insert_app_r_alt, Nat.sub_diag by lia. cbn [insert list_insert].
    do 2 eexists. split; [reflexivity|]. cbn.
    rewrite !firedBy_app, firedBy_ackWrite, app_nil_r. auto.
  - do 2 eexists. split; [reflexivity|]. cbn.
    rewrite firedBy_app, Hrs. auto.
Qed.

(** The loop of [onTick] is the sweep of the list. *)
Lemma fold_sweep suf : forall pre st out,
  reminders st = pre ++ suf ->
  exists st' out',
    fold_left (tickReminder c) (seq (length pre) (length suf)) (st, out) = (st', out') /\
    soundProfile st' = soundProfile st /\ enabledDays st' = enabledDays st /\
    reminders st' = pre ++ (sweep c suf (lastFiredBoundary st)).1.1 /\
    lastFiredBoundary st' = (sweep c suf (lastFiredBoundary st)).1.2 /\
    firedBy out' = firedBy out ++ (sweep c suf (lastFiredBoundary st)).2.
Proof.
  induction suf as [|r suf IH]; intros pre st out Hrs.
  - exists st, out. simpl. rewrite !app_nil_r. rewrite app_nil_r in Hrs.
    repeat split; auto.
  - cbn [length seq fold_left].
    destruct (tickReminder_head pre r suf st out Hrs)
      as (st1 & out1 & -> & Hp1 & Hd1 & H1).
    assert (Hgo : forall r' m' f',
      reminders st1 = pre ++ r' :: suf -> lastFiredBoundary st1 = m' ->
      firedBy out1 = firedBy out ++ f' ->
      exists st' out',
        fold_left (tickReminder c) (seq (S (length pre)) (length suf)) (st1, out1)
        = (st', out') /\
        soundProfile st' = soundProfile st /\ enabledDays st' = enabledDays st /\
        reminders st' = pre ++ r' :: (sweep c suf m').1.1 /\
        lastFiredBoundary st' = (sweep c suf m').1.2 /\
        firedBy out' = firedBy out ++ f' ++ (sweep c suf m').2).
    { intros r' m' f' Hr Hm Hf.
      assert (Hr' : reminders st1 = (pre ++ [r']) ++ suf) by now rewrite <- app_assoc.
      destruct (IH (pre ++ [r']) st1 out1 Hr') as (st' & out' & E & Hp & Hd & A & B & C).
      rewrite length_app, Nat.add_1_r in E.
      exists st', out'. rewrite E, Hp, Hd, A, B, C, Hm, Hf, <- !app_assoc.
      repeat split; auto. }
    destruct r as [rem|]; cbn [sweep].
    + destruct (negb (enabled rem)).
      { destruct H1 as (A & B & C).
        destruct (Hgo _ _ [] A B ltac:(now rewrite app_nil_r)) as (st' & out' & E & D).
        exists st', out'. destruct (sweep c suf (lastFiredBoundary st)) as [[? ?] ?].
        exact (conj E D). }
      destruct (negb (inWindow c rem)).
      { destruct H1 as (A & B & C).
        destruct (Hgo _ _ [] A B ltac:(now rewrite app_nil_r)) as (st' & out' & E & D).
        exists st', out'. destruct (sweep c suf _) as [[? ?] ?]. exact (conj E D). }
      destruct (due c (lastFiredBoundary st) rem).
      { destruct H1 as (A & B & C).
        destruct (Hgo _ _ [asFired rem] A B C) as (st' & out' & E & D).
        exists st', out'. destruct (sweep c suf _) as [[? ?] ?]. exact (conj E D). }
      destruct H1 as (A & B & C).
      destruct (Hgo _ _ [] A B ltac:(now rewrite app_nil_r)) as (st' & out' & E & D).
      exists st', out'. destruct (sweep c suf _) as [[? ?] ?]. exact (conj E D).
    + destruct H1 as (A & B & C).
      destruct (Hgo _ _ [] A B ltac:(now rewrite app_nil_r)) as (st' & out' & E & D).
      exists st', out'. destruct (sweep c suf _) as [[? ?] ?]. exact (conj E D).
Qed.

Lemma existsb_present (rs : list (option Reminder)) :
  existsb (fun r => match r with Some x => enabled x | None => false end) rs
  = existsb enabled (present rs).
Proof.
  induction rs as [|[rem|] rs IH]; [reflexivity| |exact IH].
  cbn. now rewrite IH.
Qed.

(** A tick does nothing unless it is ticking, and sweeps the list when it
    is. *)
Lemma onTick_sweep st :
  if ticking c st then
    exists st' out,
      onTick c st = (st', out) /\
      soundProfile st' = soundProfile st /\ enabledDays st' = enabledDays st /\
      reminders st' = (sweep c (reminders st) (lastFiredBoundary st)).1.1 /\
      lastFiredBoundary st' = (sweep c (reminders st) (lastFiredBoundary st)).1.2 /\
      firedBy out = (sweep c (reminders st) (lastFiredBoundary st)).2
  else onTick c st = (st, []).
Proof.
  unfold ticking, onTick. rewrite existsb_present.
  destruct (str_eqb (soundProfile st) (str "raidleader")); [|reflexivity].
  destruct (existsb enabled (present (reminders st))); [|reflexivity].
  destruct (existsb (Z.eqb (getDay c)) _); [|reflexivity].
  destruct (Z.rem (getMinutes c) 5 =? 0); [|reflexivity].
  cbn [andb negb].
  apply (fold_sweep (reminders st) [] st []). reflexivity.
Qed.

End Reminders.

Section Sweep.

Import Background.

Variable c : TickClock.

Lemma present_some r rs : present (Some r :: rs) = r :: present rs.
Proof. reflexivity. Qed.

Lemma present_none rs : present (None :: rs) = present rs.
Proof. reflexivity. Qed.

Lemma asFired_id rem : id (asFired rem) = id rem.
Proof. unfold asFired. now destruct (0 <? ackUntil rem). Qed.

Lemma boundary_get_set_eq k v m : k <> PROTO -> boundary_get (boundary_set k v m) k = Some v.
Proof.
  intros Hk. unfold boundary_get, boundary_set, str_eqb.
  rewrite bool_decide_eq_false_2 by exact Hk. apply lookup_insert_eq.
Qed.

Lemma boundary_get_set_ne k v m x :
  x <> k -> boundary_get (boundary_set k v m) x = boundary_get m x.
Proof.
  intros Hx. unfold boundary_get, boundary_set.
  destruct (str_eqb x PROTO); [reflexivity|].
  destruct (str_eqb k PROTO); [reflexivity|].
  apply lookup_insert_ne. congruence.
Qed.

Lemma boundary_get_delete_ne k m x :
  x <> k -> boundary_get (boundary_delete k m) x = boundary_get m x.
Proof.
  intros Hx. unfold boundary_get, boundary_delete.
  destruct (str_eqb x PROTO); [reflexivity|].
  destruct (str_eqb k PROTO); [reflexivity|].
  apply lookup_delete_ne. congruence.
Qed.

(** Nothing is ever read under the key of the prototype. *)
Lemma boundary_get_proto m : boundary_get m PROTO = None.
Proof. unfold boundary_get, str_eqb. now rewrite bool_decide_eq_true_2. Qed.

Lemma sweep_ids rs : forall m,
  map id (present (sweep c rs m).1.1) = map id (present rs).
Proof.
  induction rs as [|[rem|] rs IH]; intros m; cbn [sweep]; [reflexivity| |].
  - repeat match goal with
           | |- context [if ?b then _ else _] => destruct b
           end;
      match goal with |- context [sweep c rs ?m'] =>
        specialize (IH m'); destruct (sweep c rs m') as [[rs1 m1] f] end;
      cbn [fst snd] in *; rewrite !present_some; cbn [map];
      rewrite ?asFired_id; now f_equal.
  - specialize (IH m). destruct (sweep c rs m) as [[rs1 m1] f]. exact IH.
Qed.

(** What fires is enabled, inside its window and not held. *)
Lemma sweep_sound rs : forall m rem,
  rem ∈ (sweep c rs m).2 ->
  exists r0, r0 ∈ present rs /\ enabled r0 = true /\ inWindow c r0 = true /\
             held c r0 = false /\ rem = asFired r0.
Proof.
  induction rs as [|[r|] rs IH]; intros m rem; cbn [sweep].
  - intros H. now apply elem_of_nil in H.
  - assert (Hrec : forall m', rem ∈ (sweep c rs m').2 ->
        exists r0, r0 ∈ present (Some r :: rs) /\ enabled r0 = true /\
                   inWindow c r0 = true /\ held c r0 = false /\ rem = asFired r0).
    { intros m' H. destruct (IH m' rem H) as (r0 & Hin & Hr).
      exists r0. split; [|exact Hr]. rewrite present_some. now apply elem_of_cons; right. }
    destruct (enabled r) eqn:Een; cbn [negb].
    2:{ specialize (Hrec m). destruct (sweep c rs m) as [[? ?] ?]. exact Hrec. }
    destruct (inWindow c r) eqn:Ewin; cbn [negb].
    2:{ specialize (Hrec (boundary_delete (id r) m)). destruct (sweep c rs _) as [[? ?] ?].
        exact Hrec. }
    destruct (due c m r) eqn:Edue.
    2:{ specialize (Hrec m). destruct (sweep c rs m) as [[? ?] ?]. exact Hrec. }
    specialize (Hrec (boundary_set (id r) (boundaryOf c) m)).
    destruct (sweep c rs _) as [[? ?] f]. cbn [fst snd] in *.
    intros [->|H]%elem_of_cons; [|auto].
    exists r. split; [rewrite present_some; now apply elem_of_cons; left|].
    unfold due in Edue. rewrite Een, Ewin in Edue. cbn [andb] in Edue.
    apply andb_prop in Edue as [_ Hh]. apply negb_true_iff in Hh. auto.
  - specialize (IH m rem). destruct (sweep c rs m) as [[? ?] ?]. exact IH.
Qed.

(** The sweep touches the boundaries of the reminders of the list only. *)
Lemma sweep_other rs : forall m x,
  x ∉ map id (present rs) -> boundary_get (sweep c rs m).1.2 x = boundary_get m x.
Proof.
  induction rs as [|[r|] rs IH]; intros m x Hx; cbn [sweep]; [reflexivity| |].
  - rewrite present_some in Hx. cbn [map] in Hx.
    apply not_elem_of_cons in Hx as [Hne Hx].
    repeat match goal with
           | |- context [if ?b then _ else _] => destruct b
           end;
      match goal with |- context [sweep c rs ?m'] =>
        specialize (IH m' x Hx); destruct (sweep c rs m') as [[rs1 m1] f] end;
      cbn [fst snd] in *; rewrite IH;
      rewrite ?boundary_get_delete_ne, ?boundary_get_set_ne by congruence; reflexivity.
  - specialize (IH m x Hx). destruct (sweep c rs m) as [[? ?] ?]. exact IH.
Qed.

Lemma due_ext m m' r :
  boundary_get m' (id r) = boundary_get m (id r) -> due c m' r = due c m r.
Proof. intros H. unfold due, firedAt. now rewrite H. Qed.

(** With identifiers that are all different, the reminders that fire are
    the ones that are due when the tick starts, and each of them has the
    boundary of this minute afterwards. *)
Lemma sweep_exact rs : forall m,
  NoDup (map id (present rs)) ->
  (forall rem, rem ∈ (sweep c rs m).2 <->
     exists r0, r0 ∈ present rs /\ due c m r0 = true /\ rem = asFired r0) /\
  (forall r0, r0 ∈ present rs -> due c m r0 = true -> id r0 <> PROTO ->
     boundary_get (sweep c rs m).1.2 (id r0) = Some (boundaryOf c)).
Proof.
  induction rs as [|[r|] rs IH]; intros m Hnd; cbn [sweep].
  - split.
    + intros rem. split; [intros H; now apply elem_of_nil in H|].
      intros (r0 & H & _). now apply elem_of_nil in H.
    + intros r0 H. now apply elem_of_nil in H.
  - rewrite present_some in Hnd. cbn [map] in Hnd. apply NoDup_cons in Hnd as [Hr Hnd].
    assert (Hfresh : forall r0, r0 ∈ present rs -> id r0 <> id r).
    { intros r0 Hin E. apply Hr. rewrite <- E. now apply list_elem_of_fmap_2. }
    assert (Htail : forall m',
      (forall x, x <> id r -> boundary_get m' x = boundary_get m x) ->
      (forall rem, rem ∈ (sweep c rs m').2 <->
         exists r0, r0 ∈ present rs /\ due c m r0 = true /\ rem = asFired r0) /\
      (forall r0, r0 ∈ present rs -> due c m r0 = true -> id r0 <> PROTO ->
         boundary_get (sweep c rs m').1.2 (id r0) = Some (boundaryOf c))).
    { intros m' Hm'. destruct (IH m' Hnd) as [A B]. split.
      - intros rem. rewrite A. split; intros (r0 & Hin & Hd & ->); exists r0;
          (split; [exact Hin|split; [|reflexivity]]).
        + now rewrite <- (due_ext m m') by (apply Hm', Hfresh, Hin).
        + now rewrite (due_ext m m') by (apply Hm', Hfresh, Hin).
      - intros r0 Hin Hd Hp. apply B; [exact Hin| |exact Hp].
        now rewrite (due_ext m m') by (apply Hm', Hfresh, Hin). }
    assert (Hskip : due c m r = false ->
      forall m', (forall x, x <> id r -> boundary_get m' x = boundary_get m x) ->
      (forall rem, rem ∈ (sweep c rs m').2 <->
         exists r0, r0 ∈ present (Some r :: rs) /\ due c m r0 = true /\ rem = asFired r0) /\
      (forall r0, r0 ∈ present (Some r :: rs) -> due c m r0 = true -> id r0 <> PROTO ->
         boundary_get (sweep c rs m').1.2 (id r0) = Some (boundaryOf c))).
    { intros Hnot m' Hm'. destruct (Htail m' Hm') as [A B]. split.
      - intros rem. rewrite A. split; intros (r0 & Hin & Hd & ->); exists r0;
          (split; [|split; [exact Hd|reflexivity]]).
        + rewrite present_some. now apply elem_of_cons; right.
        + rewrite present_some in Hin.
          apply elem_of_cons in Hin as [->|Hin]; [congruence|exact Hin].
      - intros r0 Hin Hd Hp. rewrite present_some in Hin.
        apply elem_of_cons in Hin as [->|Hin]; [congruence|now apply B]. }
    destruct (enabled r) eqn:Een; cbn [negb].
    2:{ assert (Hnot : due c m r = false) by (unfold due; now rewrite Een).
        specialize (Hskip Hnot m (fun _ _ => eq_refl)).
        destruct (sweep c rs m) as [[? ?] ?]. exact Hskip. }
    destruct (inWindow c r) eqn:Ewin; cbn [negb].
    2:{ assert (Hnot : due c m r = false) by (unfold due; now rewrite Een, Ewin).
        specialize (Hskip Hnot (boundary_delete (id r) m)
                      (fun x Hx => boundary_get_delete_ne (id r) m x Hx)).
        destruct (sweep c rs _) as [[? ?] ?]. exact Hskip. }
    destruct (due c m r) eqn:Edue.
    2:{ specialize (Hskip eq_refl m (fun _ _ => eq_refl)).
        destruct (sweep c rs m) as [[? ?] ?]. exact Hskip. }
    pose proof (sweep_other rs (boundary_set (id r) (boundaryOf c) m) (id r) Hr) as Hkeep.
    destruct (Htail (boundary_set (id r) (boundaryOf c) m)
                (fun x Hx => boundary_get_set_ne (id r) (boundaryOf c) m x Hx))
      as [A B].
    destruct (sweep c rs _) as [[rs1 m1] f]. cbn [fst snd] in *.
    rewrite present_some. split.
    + intros rem. rewrite elem_of_cons, A. split.
      * intros [->|(r0 & Hin & Hd & ->)].
        -- exists r. split; [now apply elem_of_cons; left|auto].
        -- exists r0. split; [now apply elem_of_cons; right|auto].
      * intros (r0 & Hin & Hd & ->). apply elem_of_cons in Hin as [->|Hin]; [now left|].
        right. eauto.
    + intros r0 Hin Hd Hp. apply elem_of_cons in Hin as [->|Hin]; [|now apply B].
      rewrite Hkeep. now apply boundary_get_set_eq.
  - rewrite present_none in Hnd. specialize (IH m Hnd).
    destruct (sweep c rs m) as [[? ?] ?]. exact IH.
Qed.

End Sweep.

(** X11.  A reminder fires only when it is due: the tick fires nothing
    unless the profile is the raid leader's, the day is enabled and the
    minute is a multiple of 5, and every reminder it fires is an enabled
    reminder of the list whose window holds the minute and that no
    acknowledgment holds back; it is handed over with its acknowledgment
    cleared. *)
Theorem reminder_fires_only_when_due
    (c : Background.TickClock) (st : Background.Scheduler) (rem : Background.Reminder) :
  rem ∈ Background.firedBy (Background.onTick c st).2 ->
  Background.soundProfile st = str "raidleader" /\
  Z.rem (Background.getMinutes c) 5 = 0 /\
  (Background.getDay c ∈ match Background.enabledDays st with
                          | Some l => l
                          | None => [0; 1; 2; 3; 4; 5; 6]
                          end) /\
  exists r0,
    (Some r0 ∈ Background.reminders st) /\
    Background.enabled r0 = true /\
    Background.inWindow c r0 = true /\
    (0 < Background.ackUntil r0 -> Background.ackUntil r0 <= Background.timestamp c) /\
    rem = Background.asFired r0.
Proof.
  intros Hin. pose proof (onTick_sweep c st) as H.
  destruct (Background.ticking c st) eqn:Et.
  - destruct H as (st' & out & E & _ & _ & _ & _ & Hf).
    rewrite E in Hin. cbn [snd] in Hin. rewrite Hf in Hin.
    unfold Background.ticking in Et.
    apply andb_prop in Et as [Et Hmin]. apply andb_prop in Et as [Et Hday].
    apply andb_prop in Et as [Hprof _].
    split; [now apply bool_decide_eq_true in Hprof|].
    split; [now apply Z.eqb_eq in Hmin|]. split.
    + apply existsb_exists in Hday as (d & Hd & ->%Z.eqb_eq). now apply list_elem_of_In.
    + destruct (sweep_sound c _ _ _ Hin) as (r0 & Hr0 & Hen & Hwin & Hheld & ->).
      exists r0. split; [|split; [exact Hen|split; [exact Hwin|split; [|reflexivity]]]].
      * apply list_elem_of_omap in Hr0 as ([r|] & Hr & [= <-]). exact Hr.
      * intros Hpos. unfold Background.held in Hheld.
        apply Z.ltb_lt in Hpos. rewrite Hpos in Hheld. cbn [andb] in Hheld.
        now apply Z.ltb_ge in Hheld.
  - rewrite H in Hin. now apply elem_of_nil in Hin.
Qed.

Lemma reminder_fires_only_when_due_witness :
  let c := Background.sampleClock 1000 in
  let st := Background.sampleScheduler in
  map Background.id (Background.firedBy (Background.onTick c st).2) = [str "r-1"; str "r-2"] /\
  exists r0,
    (Some r0 ∈ Background.reminders st) /\
    Background.enabled r0 = true /\
    Background.inWindow c r0 = true /\
    (0 < Background.ackUntil r0 -> Background.ackUntil r0 <= Background.timestamp c) /\
    Background.id r0 = str "r-2".
Proof.
  intros c st. split; [vm_compute; reflexivity|].
  destruct (reminder_fires_only_when_due c st
              {| Background.id := str "r-2"; Background.enabled := true;
                 Background.start := Some (str "20:00");
                 Background.stop := Some (str "02:00");
                 Background.message := Some (str "Run /outputfile raidlist");
                 Background.lastAckTs := Some 0 |})
    as (_ & _ & _ & r0 & H1 & H2 & H3 & H4 & H5).
  - apply list_elem_of_In. vm_compute. right. left. reflexivity.
  - exists r0. repeat split; auto.
    pose proof (f_equal Background.id H5) as E. rewrite asFired_id in E. now rewrite <- E.
Defined.

(** X12.  When the identifiers of the reminders are all different, a tick
    that looks at the reminders fires exactly those that are due when it
    starts: enabled, inside their window, not yet fired at this minute and
    not held by an acknowledgment.  None is skipped and none fires on
    account of another. *)
Theorem due_reminders_all_fire
    (c : Background.TickClock) (st : Background.Scheduler) (rem : Background.Reminder) :
  Background.ticking c st = true ->
  NoDup (map Background.id (Background.present (Background.reminders st))) ->
  rem ∈ Background.firedBy (Background.onTick c st).2 <->
  exists r0,
    (r0 ∈ Background.present (Background.reminders st)) /\
    Background.due c (Background.lastFiredBoundary st) r0 = true /\
    rem = Background.asFired r0.
Proof.
  intros Et Hnd. pose proof (onTick_sweep c st) as H. rewrite Et in H.
  destruct H as (st' & out & E & _ & _ & _ & _ & Hf).
  rewrite E. cbn [snd]. rewrite Hf.
  apply (sweep_exact c (Background.reminders st) (Background.lastFiredBoundary st) Hnd).
Qed.

Lemma due_reminders_all_fire_witness :
  let c := Background.sampleClock 400 in
  let st := Background.sampleScheduler in
  map Background.id (Background.firedBy (Background.onTick c st).2) = [str "r-1"] /\
  forall rem,
    rem ∈ Background.firedBy (Background.onTick c st).2 <->
    exists r0,
      (r0 ∈ Background.present (Background.reminders st)) /\
      Background.due c (Background.lastFiredBoundary st) r0 = true /\
      rem = Background.asFired r0.
Proof.
  intros c st. split; [vm_compute; reflexivity|]. intros rem.
  apply (due_reminders_all_fire c st rem); [vm_compute; reflexivity|].
  apply (bool_decide_unpack _). vm_compute. exact I.
Defined.

(** X13.  A reminder fires once per minute: when the identifiers are all
    different, one tick never fires the same reminder twice, and of two
    ticks in a row at the same hour and minute the second fires none of
    the reminders the first fired, but for a reminder whose identifier is
    ["__proto__"], the one key under which the boundary object stores
    nothing. *)
Theorem reminder_fires_once_per_minute
    (c1 c2 : Background.TickClock) (st : Background.Scheduler) :
  NoDup (map Background.id (Background.present (Background.reminders st))) ->
  Background.getHours c2 = Background.getHours c1 ->
  Background.getMinutes c2 = Background.getMinutes c1 ->
  let first := Background.onTick c1 st in
  let second := Background.onTick c2 first.1 in
  NoDup (map Background.id (Background.firedBy first.2)) /\
  forall rem1 rem2,
    rem1 ∈ Background.firedBy first.2 ->
    rem2 ∈ Background.firedBy second.2 ->
    Background.id rem1 <> Background.PROTO ->
    Background.id rem1 <> Background.id rem2.
Proof.
  intros Hnd Hh Hm first second.
  assert (Hb : Background.boundaryOf c2 = Background.boundaryOf c1)
    by (unfold Background.boundaryOf; now rewrite Hh, Hm).
  subst first second.
  pose proof (onTick_sweep c1 st) as H1.
  destruct (Background.ticking c1 st).
  2:{ rewrite H1. cbn [fst snd]. split; [constructor|].
      intros rem1 rem2 Hin. now apply elem_of_nil in Hin. }
  destruct H1 as (st1 & out1 & -> & _ & _ & Hrs1 & Hm1 & Hf1). cbn [fst snd].
  destruct (sweep_exact c1 (Background.reminders st) (Background.lastFiredBoundary st) Hnd)
    as [Hex1 Hbd1].
  assert (Hnd1 : NoDup (map Background.id (Background.present (Background.reminders st1))))
    by (rewrite Hrs1, sweep_ids; exact Hnd).
  split.
  - rewrite Hf1. clear -Hnd.
    revert Hnd. generalize (Background.lastFiredBoundary st).
    induction (Background.reminders st) as [|[r|] rs IH]; intros m Hnd; cbn [Background.sweep].
    + constructor.
    + rewrite present_some in Hnd. cbn [map] in Hnd. apply NoDup_cons in Hnd as [Hr Hnd].
      repeat match goal with
             | |- context [if ?b then _ else _] => destruct b eqn:?
             end;
        match goal with |- context [Background.sweep c1 rs ?m'] =>
          pose proof (IH m' Hnd) as IH';
          pose proof (sweep_sound c1 rs m') as Hs;
          destruct (Background.sweep c1 rs m') as [[rs1 m1'] f] end;
        cbn [fst snd] in *; try exact IH'.
      cbn [map]. apply NoDup_cons. split; [|exact IH'].
      rewrite asFired_id. intros Hin.
      apply list_elem_of_fmap in Hin as (x & Hx & Hin).
      destruct (Hs x Hin) as (r0 & Hr0 & _ & _ & _ & ->).
      apply Hr. rewrite Hx, asFired_id. now apply list_elem_of_fmap_2.
    + rewrite present_none in Hnd. pose proof (IH m Hnd) as IH'.
      destruct (Background.sweep c1 rs m) as [[? ?] ?]. exact IH'.
  - intros rem1 rem2 Hin1 Hin2 Hproto Eid.
    rewrite Hf1 in Hin1. apply Hex1 in Hin1 as (r1 & Hr1 & Hd1 & ->).
    rewrite asFired_id in Hproto.
    pose proof (Hbd1 r1 Hr1 Hd1 Hproto) as Hfired. rewrite <- Hm1 in Hfired.
    pose proof (onTick_sweep c2 st1) as H2.
    destruct (Background.ticking c2 st1).
    2:{ rewrite H2 in Hin2. now apply elem_of_nil in Hin2. }
    destruct H2 as (st2 & out2 & E2 & _ & _ & _ & _ & Hf2).
    rewrite E2 in Hin2. cbn [snd] in Hin2. rewrite Hf2 in Hin2.
    apply (sweep_exact c2 _ _ Hnd1) in Hin2 as (r2 & Hr2 & Hd2 & ->).
    rewrite !asFired_id in Eid.
    unfold Background.due in Hd2. apply andb_prop in Hd2 as [Hd2 _].
    apply andb_prop in Hd2 as [_ Hnf]. apply negb_true_iff in Hnf.
    unfold Background.firedAt in Hnf. apply bool_decide_eq_false in Hnf.
    apply Hnf. now rewrite <- Eid, Hb.
Qed.

Lemma reminder_fires_once_per_minute_witness :
  let c1 := Background.sampleClock 1000 in
  let c2 := Background.sampleClock 31000 in
  let st := Background.sampleScheduler in
  let first := Background.onTick c1 st in
  let second := Background.onTick c2 first.1 in
  map Background.id (Background.firedBy first.2) = [str "r-1"; str "r-2"] /\
  Background.firedBy second.2 = [] /\
  NoDup (map Background.id (Background.firedBy first.2)) /\
  forall rem1 rem2,
    rem1 ∈ Background.firedBy first.2 ->
    rem2 ∈ Background.firedBy second.2 ->
    Background.id rem1 <> Background.PROTO ->
    Background.id rem1 <> Background.id rem2.
Proof.
  intros c1 c2 st first second.
  split; [vm_compute; reflexivity|]. split; [vm_compute; reflexivity|].
  apply (reminder_fires_once_per_minute c1 c2 st); [|reflexivity|reflexivity].
  apply (bool_decide_unpack _). vm_compute. exact I.
Defined.

(** The reminder the boundary object cannot keep track of: with the
    identifier ["__proto__"] it fires again at the second tick of the same
    minute. *)
Example proto_reminder_fires_twice :
  let rem := {| Background.id := Background.PROTO; Background.enabled := true;
                Background.start := Some (str "19:00"); Background.stop := Some (str "23:00");
                Background.message := None; Background.lastAckTs := None |} in
  let st := {| Background.reminders := [Some rem]; Background.enabledDays := None;
               Background.soundProfile := str "raidleader";
               Background.lastFiredBoundary := ∅ |} in
  let first := Background.onTick (Background.sampleClock 1000) st in
  let second := Background.onTick (Background.sampleClock 31000) first.1 in
  Background.firedBy first.2 = [rem] /\ Background.firedBy second.2 = [rem].
Proof. vm_compute. split; reflexivity. Qed.

(** ** The RaidTick copy window *)

Section RaidTickCopy.

Import RaidTick.

Lemma split_on_nonempty c (s : jsstring) : split_on c s <> [].
Proof.
  destruct s as [|x s]; simpl; [discriminate|].
  destruct (Ascii.eqb c x); [discriminate|]. now destruct (split_on c s).
Qed.

Lemma join_cons c (a : jsstring) l : l <> [] -> join c (a :: l) = a ++ c :: join c l.
Proof. destruct l; [contradiction|reflexivity]. Qed.

(** Joining the pieces of a split gives the text back. *)
Lemma join_split c (s : jsstring) : join c (split_on c s) = s.
Proof.
  induction s as [|x s IH]; [reflexivity|]. cbn [split_on].
  pose proof (split_on_nonempty c s) as Hn.
  destruct (Ascii.eqb_spec c x) as [->|Hne].
  - rewrite join_cons by assumption. now rewrite IH.
  - destruct (split_on c s) as [|l ls]; [contradiction|].
    destruct ls as [|l' ls].
    + cbn [join] in *. now rewrite IH.
    + rewrite join_cons by discriminate. rewrite join_cons in IH by discriminate.
      cbn [app]. now rewrite IH.
Qed.

(** The pieces after the first one are the pieces of what follows the
    first separator. *)
Lemma split_on_tail c (s : jsstring) :
  tl (split_on c s) = match after_first c s with
                      | Some rest => split_on c rest
                      | None => []
                      end.
Proof.
  induction s as [|x s IH]; [reflexivity|]. simpl.
  destruct (Ascii.eqb c x); [reflexivity|].
  pose proof (split_on_nonempty c s) as Hn.
  destruct (split_on c s) as [|l ls]; [contradiction|]. exact IH.
Qed.

Lemma join_tail_split (text : jsstring) :
  join newline (tl (split_on newline text)) = afterFirstLine text.
Proof.
  rewrite split_on_tail. unfold afterFirstLine.
  destruct (after_first newline text); [apply join_split|reflexivity].
Qed.

Lemma stripHeaderRow_cases (text : jsstring) :
  stripHeaderRow text = text \/ stripHeaderRow text = afterFirstLine text.
Proof.
  unfold stripHeaderRow. cbv zeta.
  pose proof (join_tail_split text) as H.
  destruct (split_on newline text) as [|first rest]; [now left|].
  cbn [tl] in H. rewrite H.
  destruct (headerWords _); [now right|].
  destruct (test HEADER_RE _); [now right|now left].
Qed.

End RaidTickCopy.

(** X14.  [stripHeaderRow] never alters the data: it returns the text as it
    is, or exactly what follows the first line break of the text (nothing
    when the text is a single line). *)
Theorem stripHeaderRow_keeps_the_data (text : jsstring) :
  RaidTick.stripHeaderRow text = text \/
  RaidTick.stripHeaderRow text = RaidTick.afterFirstLine text.
Proof. exact (stripHeaderRow_cases text). Qed.

(** The header of a RaidTick file, in any case and with tabs, is removed;
    a file without it is left alone. *)
Example stripHeaderRow_scenarios :
  RaidTick.stripHeaderRow
    (str "Player" ++ [ascii_of_nat 9] ++ str "LEVEL  class Timestamp" ++ [ascii_of_nat 9] ++
     str "Points" ++ [RaidTick.newline] ++ str "Bob 60 Warrior" ++ [RaidTick.newline] ++
     str "Amy 60 Cleric")
  = str "Bob 60 Warrior" ++ [RaidTick.newline] ++ str "Amy 60 Cleric" /\
  RaidTick.stripHeaderRow (str "Bob 60 Warrior" ++ [RaidTick.newline] ++ str "Amy 60 Cleric")
  = str "Bob 60 Warrior" ++ [RaidTick.newline] ++ str "Amy 60 Cleric" /\
  RaidTick.stripHeaderRow (str "player level class timestamp points") = [].
Proof. vm_compute. repeat split. Qed.

Lemma countDataLines_first (text : jsstring) :
  RaidTick.countDataLines text
  = ((if RaidTick.isDataLine (hd [] (split_on RaidTick.newline text)) then 1 else 0)
     + RaidTick.countDataLines (RaidTick.afterFirstLine text))%nat.
Proof.
  unfold RaidTick.countDataLines, RaidTick.afterFirstLine.
  pose proof (split_on_tail RaidTick.newline text) as Ht.
  pose proof (split_on_nonempty RaidTick.newline text) as Hn.
  destruct (split_on RaidTick.newline text) as [|first rest]; [contradiction|].
  cbn [tl hd] in *. subst rest. cbn [List.filter].
  destruct (RaidTick.isDataLine first);
    destruct (after_first RaidTick.newline text); reflexivity.
Qed.

(** X15.  The count of data lines reported after the copy never exceeds
    the count of the file: stripping the header takes away one counted
    line at most. *)
Theorem strip_removes_one_counted_line_at_most (text : jsstring) :
  RaidTick.countDataLines (RaidTick.stripHeaderRow text) = RaidTick.countDataLines text \/
  RaidTick.countDataLines text = S (RaidTick.countDataLines (RaidTick.stripHeaderRow text)).
Proof.
  destruct (stripHeaderRow_cases text) as [->| ->]; [now left|].
  rewrite (countDataLines_first text).
  destruct (RaidTick.isDataLine _); [now right|now left].
Qed.

(** ** The escaping of attribute values *)

Section Escape.

Import Popup.

Lemma replace_all_app c rep (a b : jsstring) :
  replace_all c rep (a ++ b) = replace_all c rep a ++ replace_all c rep b.
Proof. unfold replace_all. apply flat_map_app. Qed.

Lemma escape_cons x (s : jsstring) :
  escapeHtmlAttr (Some (x :: s)) = escapeHtmlAttr (Some [x]) ++ escapeHtmlAttr (Some s).
Proof.
  unfold escapeHtmlAttr. change (x :: s) with ([x] ++ s).
  now rewrite !replace_all_app.
Qed.

(** The five replacements in a row replace each character by its entity. *)
Lemma escape_one x : escapeHtmlAttr (Some [x]) = entity x.
Proof.
  unfold escapeHtmlAttr, entity, replace_all.
  destruct (Ascii.eqb_spec amp x) as [<-|H1]; [reflexivity|].
  destruct (Ascii.eqb_spec quot x) as [<-|H2]; [reflexivity|].
  destruct (Ascii.eqb_spec apos x) as [<-|H3]; [reflexivity|].
  destruct (Ascii.eqb_spec lt x) as [<-|H4]; [reflexivity|].
  destruct (Ascii.eqb_spec gt x) as [<-|H5]; [reflexivity|].
  cbn [flat_map app].
  repeat match goal with
         | H : ?c <> x |- context [Ascii.eqb ?c x] =>
             rewrite (proj2 (Ascii.eqb_neq c x) H); cbn [flat_map app]
         end.
  reflexivity.
Qed.

Lemma escape_flat_map (s : jsstring) : escapeHtmlAttr (Some s) = flat_map entity s.
Proof.
  induction s as [|x s IH]; [reflexivity|].
  rewrite escape_cons, escape_one, IH. reflexivity.
Qed.

Lemma entity_cases x :
  (special x = false /\ entity x = [x]) \/
  (special x = true /\ exists k rest, entity x = amp :: k :: rest /\
     forallb (fun c => negb (special c)) (k :: rest) = true /\
     ((x = amp /\ k = "a"%char) \/ (x = quot /\ k = "q"%char) \/ (x = apos /\ k = "#"%char) \/
      (x = lt /\ k = "l"%char) \/ (x = gt /\ k = "g"%char))).
Proof.
  unfold special, entity.
  destruct (Ascii.eqb_spec amp x) as [<-|H1];
    [right; split; [reflexivity|]; do 2 eexists; split; [reflexivity|]; split;
       [reflexivity|tauto]|].
  destruct (Ascii.eqb_spec quot x) as [<-|H2];
    [right; split; [reflexivity|]; do 2 eexists; split; [reflexivity|]; split;
       [reflexivity|tauto]|].
  destruct (Ascii.eqb_spec apos x) as [<-|H3];
    [right; split; [reflexivity|]; do 2 eexists; split; [reflexivity|]; split;
       [reflexivity|tauto]|].
  destruct (Ascii.eqb_spec lt x) as [<-|H4];
    [right; split; [reflexivity|]; do 2 eexists; split; [reflexivity|]; split;
       [reflexivity|tauto]|].
  destruct (Ascii.eqb_spec gt x) as [<-|H5];
    [right; split; [reflexivity|]; do 2 eexists; split; [reflexivity|]; split;
       [reflexivity|tauto]|].
  left. split; reflexivity.
Qed.

(** Two entities in front of two texts that agree are the same. *)
Lemma entity_head x y (r1 r2 : jsstring) :
  entity x ++ r1 = entity y ++ r2 -> x = y /\ r1 = r2.
Proof.
  destruct (entity_cases x) as [[Sx Ex]|[Sx (kx & tx & Ex & _ & Kx)]];
    destruct (entity_cases y) as [[Sy Ey]|[Sy (ky & ty & Ey & _ & Ky)]];
    rewrite Ex, Ey; cbn [app]; intros H.
  - now injection H.
  - injection H as -> _. unfold special in Sx. now rewrite Ascii.eqb_refl in Sx.
  - injection H as <- _. unfold special in Sy. now rewrite Ascii.eqb_refl in Sy.
  - injection H as Hk Ht.
    assert (x = y).
    { destruct Kx as [[-> ->]|[[-> ->]|[[-> ->]|[[-> ->]|[-> ->]]]]];
        destruct Ky as [[-> E]|[[-> E]|[[-> E]|[[-> E]|[-> E]]]]];
        first [reflexivity | rewrite E in Hk; discriminate]. }
    subst y. rewrite Ex in Ey. injection Ey as <- <-.
    split; [reflexivity|]. now apply app_inv_head in Ht.
Qed.

End Escape.

(** X16.  The escaped value of an attribute holds no double quote, no
    single quote and no angle bracket, whatever the value. *)
Theorem escapeHtmlAttr_is_safe (value : option jsstring) :
  forallb (fun c => negb (Ascii.eqb Popup.quot c || Ascii.eqb Popup.apos c ||
                          Ascii.eqb Popup.lt c || Ascii.eqb Popup.gt c))
          (Popup.escapeHtmlAttr value) = true.
Proof.
  destruct value as [s|]; [|reflexivity].
  rewrite escape_flat_map. induction s as [|x s IH]; [reflexivity|].
  cbn [flat_map]. rewrite forallb_app, IH, andb_true_r.
  destruct (entity_cases x) as [[Sx ->]|[_ (k & t & -> & Hs & _)]].
  - cbn [forallb]. rewrite andb_true_r. unfold Popup.special in Sx.
    apply orb_false_elim in Sx as [Sx H5]. apply orb_false_elim in Sx as [Sx H4].
    apply orb_false_elim in Sx as [Sx H3]. apply orb_false_elim in Sx as [_ H2].
    now rewrite H2, H3, H4, H5.
  - apply forallb_forall. intros c Hc. rewrite forallb_forall in Hs.
    destruct Hc as [<-|Hc]; [reflexivity|].
    specialize (Hs c Hc). unfold Popup.special in Hs.
    apply negb_true_iff in Hs.
    apply orb_false_elim in Hs as [Hs H5]. apply orb_false_elim in Hs as [Hs H4].
    apply orb_false_elim in Hs as [Hs H3]. apply orb_false_elim in Hs as [_ H2].
    now rewrite H2, H3, H4, H5.
Qed.

(** X17.  Escaping loses nothing: two values with the same escaped form
    are the same value. *)
Theorem escapeHtmlAttr_is_injective (v1 v2 : jsstring) :
  Popup.escapeHtmlAttr (Some v1) = Popup.escapeHtmlAttr (Some v2) -> v1 = v2.
Proof.
  rewrite !escape_flat_map. revert v2.
  induction v1 as [|x s1 IH]; intros [|y s2]; cbn [flat_map]; intros H.
  - reflexivity.
  - destruct (entity_cases y) as [[_ E]|[_ (k & t & E & _)]]; rewrite E in H;
      discriminate.
  - destruct (entity_cases x) as [[_ E]|[_ (k & t & E & _)]]; rewrite E in H;
      discriminate.
  - apply entity_head in H as [-> H]. f_equal. now apply IH.
Qed.

Lemma escapeHtmlAttr_is_injective_witness :
  Popup.escapeHtmlAttr (Some (str "Tom & Jerry's <raid>.txt"))
  = str "Tom &amp; Jerry&#39;s &lt;raid&gt;.txt" /\
  str "Tom & Jerry's <raid>.txt" = str "Tom & Jerry's <raid>.txt".
Proof.
  split; [vm_compute; reflexivity|].
  exact (escapeHtmlAttr_is_injective (str "Tom & Jerry's <raid>.txt")
           (str "Tom & Jerry's <raid>.txt") eq_refl).
Defined.

(** X18.  A value comes back unchanged from the escaping exactly when it
    holds none of the five characters [&], the two quotes, [<] and [>]: a
    file name with one of them is not its own data attribute. *)
Theorem escapeHtmlAttr_fixed_point (v : jsstring) :
  Popup.escapeHtmlAttr (Some v) = v <-> forallb (fun c => negb (Popup.special c)) v = true.
Proof.
  rewrite escape_flat_map. induction v as [|x s IH]; [easy|].
  cbn [flat_map forallb].
  destruct (entity_cases x) as [[Sx ->]|[Sx (k & t & -> & Hs & Hk)]]; rewrite Sx.
  - cbn [app negb andb]. rewrite <- IH. split; [now intros [= H]|now intros ->].
  - cbn [negb andb app]. split; [|discriminate].
    intros [= _ Hrest]. exfalso.
    (* the text after the ampersand would have to hold its own escaped form *)
    assert (Hlen : length (k :: t ++ flat_map Popup.entity s) = length s)
      by (cbn [app] in Hrest; now rewrite Hrest).
    assert (Hge : forall l : jsstring, (length l <= length (flat_map Popup.entity l))%nat).
    { induction l as [|y l IHl]; [reflexivity|]. cbn [flat_map]. rewrite length_app.
      destruct (entity_cases y) as [[_ ->]|[_ (k' & t' & -> & _)]]; simpl; lia. }
    specialize (Hge s). cbn [length] in Hlen. rewrite length_app in Hlen. lia.
Qed.

(** ** The EQ log monitor *)

Section LogPoll.

Import LogMonitor.

Variable isLoot : jsstring -> bool.

(** Every line the scan collects is a loot line, trimmed and not empty. *)
Lemma collect_loot seen fromEnd line :
  In line (collect isLoot seen fromEnd).1 ->
  isLoot line = true /\ line <> [] /\ exists l, In l fromEnd /\ line = trim l.
Proof.
  induction fromEnd as [|l rest IH]; cbn [collect]; [easy|].
  assert (Hrec : In line (collect isLoot seen rest).1 ->
                 isLoot line = true /\ line <> [] /\
                 exists l', In l' (l :: rest) /\ line = trim l').
  { intros H. destruct (IH H) as (A & B & l' & Hl & E). eauto 8 using in_cons. }
  destruct (trim l) as [|x t] eqn:El; [exact Hrec|].
  destruct (isLoot (x :: t)) eqn:Eloot; cbn [negb]; [|exact Hrec].
  match goal with |- context [if ?b then _ else _] => destruct b end;
    [cbn [fst]; intros []|].
  destruct (collect isLoot seen rest) as [found met]. cbn [fst] in *.
  intros [<-|H]; [|auto].
  split; [exact Eloot|]. split; [discriminate|].
  exists l. split; [apply in_eq|now rewrite El].
Qed.

(** The newest line the scan collected is met first when it is the last
    seen one. *)
Lemma collect_again seen fromEnd line found met :
  collect isLoot seen fromEnd = (line :: found, met) ->
  collect isLoot (Some line) fromEnd = ([], true).
Proof.
  induction fromEnd as [|l rest IH]; cbn [collect]; [discriminate|].
  destruct (trim l) as [|x t] eqn:El; [exact IH|].
  destruct (isLoot (x :: t)); cbn [negb]; [|exact IH].
  match goal with |- context [if ?b then _ else _] => destruct b end;
    [discriminate|].
  destruct (collect isLoot seen rest) as [found' met']. intros [= <- _ _].
  unfold str_eqb. now rewrite bool_decide_eq_true_2.
Qed.

Lemma last_drop {A} (l : list A) n : (n < length l)%nat -> last (drop n l) = last l.
Proof.
  revert n. induction l as [|x l IH]; intros n Hn; [simpl in Hn; lia|].
  destruct n as [|n]; [reflexivity|]. cbn [drop]. simpl in Hn.
  rewrite IH by lia. destruct l; [simpl in Hn; lia|reflexivity].
Qed.

Lemma linesToProcess_last (l : list jsstring) : last (linesToProcess l) = last l.
Proof.
  unfold linesToProcess. destruct (maxProcessPerPoll <? length l)%nat eqn:E; [|reflexivity].
  apply Nat.ltb_lt in E. unfold maxProcessPerPoll in *. apply last_drop. lia.
Qed.

Lemma linesToProcess_bound (l : list jsstring) :
  (length (linesToProcess l) <= maxProcessPerPoll)%nat /\
  forall x, In x (linesToProcess l) -> In x l.
Proof.
  unfold linesToProcess. destruct (maxProcessPerPoll <? length l)%nat eqn:E.
  - apply Nat.ltb_lt in E. rewrite length_drop. split; [lia|].
    intros x Hx. apply list_elem_of_In. apply list_elem_of_In in Hx.
    apply list_elem_of_lookup in Hx as (i & Hi). rewrite lookup_drop in Hi.
    now apply list_elem_of_lookup_2 in Hi.
  - apply Nat.ltb_ge in E. split; [exact E|auto].
Qed.

End LogPoll.

(** X19.  One poll of the log hands at most ten lines over, and only loot
    lines of the file: each is a line of the text, trimmed, not empty,
    that the detection accepts. *)
Theorem poll_pushes_loot_lines
    (isLoot : jsstring -> bool) (text : jsstring) (seen : option jsstring) (line : jsstring) :
  (length (LogMonitor.poll isLoot text seen).1 <= 10)%nat /\
  (In line (LogMonitor.poll isLoot text seen).1 ->
   isLoot line = true /\ line <> [] /\
   exists l, In l (split_on RaidTick.newline text) /\ line = trim l).
Proof.
  unfold LogMonitor.poll. cbv zeta.
  destruct (rev (LogMonitor.collect isLoot seen (rev (split_on RaidTick.newline text))).1)
    as [|x new] eqn:E; cbn [fst]; [split; [simpl; lia|easy]|].
  destruct (linesToProcess_bound (x :: new)) as [Hlen Hsub]. split; [exact Hlen|].
  intros Hin. apply Hsub in Hin. rewrite <- E in Hin. apply in_rev in Hin.
  destruct (collect_loot isLoot _ _ _ Hin) as (A & B & l & Hl & El).
  split; [exact A|]. split; [exact B|]. exists l. split; [now apply in_rev|exact El].
Qed.

(** X20.  A second poll of a file that did not change hands nothing over:
    after a poll, the last seen line is the newest loot line of the file,
    so the next poll of the same text stops at once and leaves the last
    seen line as it is. *)
Theorem poll_twice_pushes_nothing
    (isLoot : jsstring -> bool) (text : jsstring) (seen : option jsstring) :
  let after := (LogMonitor.poll isLoot text seen).2 in
  LogMonitor.poll isLoot text after = ([], after).
Proof.
  intros after.
  assert (Hafter :
    (after = seen /\ exists met,
       LogMonitor.collect isLoot seen (rev (split_on RaidTick.newline text)) = ([], met)) \/
    (exists line found met,
       LogMonitor.collect isLoot seen (rev (split_on RaidTick.newline text))
       = (line :: found, met) /\ after = Some line)).
  { subst after. unfold LogMonitor.poll. cbv zeta.
    destruct (LogMonitor.collect isLoot seen (rev (split_on RaidTick.newline text)))
      as [found met] eqn:E. cbn [fst].
    destruct found as [|line found]; [left; eauto|].
    right. exists line, found, met. split; [reflexivity|].
    assert (Hlast : last (rev (line :: found)) = Some line)
      by (cbn [rev]; apply last_snoc).
    destruct (rev (line :: found)) as [|y ys] eqn:Er.
    { apply (f_equal (@length _)) in Er. rewrite length_rev in Er. discriminate. }
    cbn [snd]. now rewrite linesToProcess_last, Hlast. }
  clearbody after. unfold LogMonitor.poll. cbv zeta.
  destruct Hafter as [[-> [met E]]|(line & found & met & E & ->)].
  - now rewrite E.
  - now rewrite (collect_again isLoot _ _ _ _ _ E).
Qed.

(** Three loot lines with the tag in a log of five lines: the first poll
    hands them over oldest first, the second nothing. *)
Example poll_scenario :
  let isLoot := fun line : jsstring => RaidTick.includes_str line (str "'FG ") in
  let nl := [RaidTick.newline] in
  let text := str "[Mon] Bob tells the raid, 'FG Sword'" ++ nl ++
              str "[Mon] Amy says, 'hello'" ++ nl ++
              str "  [Mon] Bob tells the raid, 'FG Shield | Helm'  " ++ nl ++ nl ++
              str "[Mon] Bob tells the raid, 'FG Ring'" in
  LogMonitor.poll isLoot text None
  = ([str "[Mon] Bob tells the raid, 'FG Sword'";
      str "[Mon] Bob tells the raid, 'FG Shield | Helm'";
      str "[Mon] Bob tells the raid, 'FG Ring'"],
     Some (str "[Mon] Bob tells the raid, 'FG Ring'")) /\
  LogMonitor.poll isLoot text (Some (str "[Mon] Bob tells the raid, 'FG Sword'"))
  = ([str "[Mon] Bob tells the raid, 'FG Shield | Helm'";
      str "[Mon] Bob tells the raid, 'FG Ring'"],
     Some (str "[Mon] Bob tells the raid, 'FG Ring'")).
Proof. vm_compute. split; reflexivity. Qed.

(** ** The announce window *)

Section AnnounceWindow.

Import Announce.

Lemma heads_cls p c x (s : jsstring) : p x = true -> heads (Cls p) (c, x :: s) (c, s).
Proof. intros H. unfold heads. simpl. rewrite H. eauto. Qed.

Lemma heads_chr a c (s : jsstring) : heads (Chr a) (c, a :: s) (c, s).
Proof. unfold heads. simpl. rewrite Ascii.eqb_refl. eauto. Qed.

Lemma heads_opt_take r st x : heads r st x -> heads (Opt r) st x.
Proof. intros [l H]. unfold heads. destruct st. simpl. rewrite H. simpl. eauto. Qed.

Lemma heads_opt_skip r st : run r st = [] -> heads (Opt r) st st.
Proof. intros H. unfold heads. destruct st. simpl. rewrite H. simpl. eauto. Qed.

Lemma digit_not_colon x : is_digit x = true -> Ascii.eqb ":" x = false.
Proof. intros H. apply (digit_not_char ":" x H). reflexivity. Qed.

Lemma heads_hours c hs (rest : jsstring) :
  all_digits hs -> (length hs <= 2)%nat ->
  heads (Grp 1 (Seq (Cls is_digit) (Opt (Cls is_digit))))
    (c, hs ++ ":"%char :: rest) ((1%nat, hs) :: c, ":"%char :: rest).
Proof.
  intros [Hne Hd] Hlen.
  destruct hs as [|d1 [|d2 [|d3 hs]]]; [contradiction| | |simpl in Hlen; lia].
  - simpl in Hd. rewrite andb_true_r in Hd.
    replace ((1%nat, [d1]) :: c) with ((1%nat, consumed ([d1] ++ ":"%char :: rest) (":"%char :: rest)) :: c)
      by now rewrite consumed_app.
    apply heads_grp. eapply heads_seq; [now apply heads_cls|].
    apply heads_opt_skip. reflexivity.
  - simpl in Hd. apply andb_prop in Hd as [H1 H2]. rewrite andb_true_r in H2.
    replace ((1%nat, [d1; d2]) :: c)
      with ((1%nat, consumed ([d1; d2] ++ ":"%char :: rest) (":"%char :: rest)) :: c)
      by now rewrite consumed_app.
    apply heads_grp. eapply heads_seq; [now apply heads_cls|].
    apply heads_opt_take. now apply heads_cls.
Qed.

Lemma heads_minutes c m1 m2 (rest : jsstring) :
  is_digit m1 = true -> is_digit m2 = true ->
  heads (Grp 2 (Seq (Cls is_digit) (Cls is_digit)))
    (c, m1 :: m2 :: rest) ((2%nat, [m1; m2]) :: c, rest).
Proof.
  intros H1 H2.
  replace ((2%nat, [m1; m2]) :: c)
    with ((2%nat, consumed ([m1; m2] ++ rest) rest) :: c) by now rewrite consumed_app.
  apply heads_grp. eapply heads_seq; now apply heads_cls.
Qed.

Lemma TIME_RE_24 hs m1 m2 :
  all_digits hs -> (length hs <= 2)%nat -> is_digit m1 = true -> is_digit m2 = true ->
  match_anchored TIME_RE (hs ++ ":"%char :: [m1; m2]) = Some [(2%nat, [m1; m2]); (1%nat, hs)].
Proof.
  intros Hh Hl H1 H2. apply heads_match with (s' := []).
  unfold TIME_RE. simpl seqs.
  eapply heads_seq; [now apply heads_hours|].
  eapply heads_seq; [apply heads_chr|].
  eapply heads_seq; [now apply heads_minutes|].
  eapply heads_seq; [apply heads_opt_skip; reflexivity|].
  eapply heads_seq; [apply heads_eos|apply heads_eps].
Qed.

Lemma TIME_RE_12 hs m1 m2 ws a b :
  all_digits hs -> (length hs <= 2)%nat -> is_digit m1 = true -> is_digit m2 = true ->
  forallb is_space ws = true -> is_a_or_p a = true -> is_m b = true -> is_space a = false ->
  match_anchored TIME_RE (hs ++ ":"%char :: m1 :: m2 :: ws ++ [a; b])
  = Some [(3%nat, [a; b]); (2%nat, [m1; m2]); (1%nat, hs)].
Proof.
  intros Hh Hl H1 H2 Hws Ha Hb Hsp. apply heads_match with (s' := []).
  unfold TIME_RE. simpl seqs.
  eapply heads_seq; [now apply heads_hours|].
  eapply heads_seq; [apply heads_chr|].
  eapply heads_seq; [now apply heads_minutes|].
  eapply heads_seq.
  { apply heads_opt_take. eapply heads_seq; [now apply heads_star_greedy|].
    replace [a; b] with (consumed ([a; b] ++ []) []) at 2 by now rewrite consumed_app.
    apply heads_grp. eapply heads_seq; now apply heads_cls. }
  eapply heads_seq; [apply heads_eos|apply heads_eps].
Qed.

Lemma parseInt10_digits w : all_digits w -> parseInt10 w = Int (decimal_value w).
Proof.
  intros [Hne Hd]. destruct w as [|c w]; [easy|].
  pose proof Hd as Hall.
  simpl in Hd. apply andb_prop in Hd as [Hc Hw].
  unfold parseInt10. simpl trimStart. rewrite (digit_not_space _ Hc).
  rewrite !(digit_not_char _ c Hc) by reflexivity.
  rewrite (span_all _ _ Hall). reflexivity.
Qed.

Lemma letter_cases (x a : ascii) :
  (x = "a" \/ x = "p" \/ x = "m")%char -> lower_char a = x ->
  a = x \/ a = ascii_of_N (code x - 32).
Proof.
  intros Hx Ha.
  destruct a as [[] [] [] [] [] [] [] []];
    destruct Hx as [-> | [-> | ->]]; vm_compute in Ha; try discriminate Ha;
    vm_compute; auto.
Qed.

Lemma meridiem_not_space mer a b : meridiemLetters mer a b ->
  is_space a = false /\ is_a_or_p a = true /\ is_m b = true.
Proof.
  destruct mer; cbn [meridiemLetters]; [easy| |]; intros [Ha Hb].
  all: apply letter_cases in Ha; [|auto]; apply letter_cases in Hb; [|auto].
  all: destruct Ha as [-> | ->], Hb as [-> | ->]; vm_compute; auto.
Qed.

Lemma meridiem_isPM mer a b : meridiemLetters mer a b ->
  search PM_RE [a; b] = (match mer with PM => Some ([], [], []) | _ => None end).
Proof.
  destruct mer; cbn [meridiemLetters]; [easy| |]; intros [Ha Hb].
  all: apply letter_cases in Ha; [|auto]; apply letter_cases in Hb; [|auto].
  all: destruct Ha as [-> | ->], Hb as [-> | ->]; vm_compute; reflexivity.
Qed.

Lemma two_digits m1 m2 : is_digit m1 = true -> is_digit m2 = true -> all_digits [m1; m2].
Proof. intros H1 H2. split; [easy|]. simpl. now rewrite H1, H2. Qed.

Lemma written_parse h m mer s : written h m mer s ->
  parseTime s = Int (hour24 h mer * 100 + m).
Proof.
  intros W. destruct W as [hs m1 m2 Hh Hl H1 H2 | hs m1 m2 ws a b mer Hh Hl H1 H2 Hws Hab].
  - unfold parseTime. rewrite (TIME_RE_24 hs m1 m2 Hh Hl H1 H2).
    cbn [grp group Nat.eqb].
    rewrite (parseInt10_digits hs Hh), (parseInt10_digits _ (two_digits m1 m2 H1 H2)).
    reflexivity.
  - destruct (meridiem_not_space mer a b Hab) as (Hsp & Ha & Hb).
    unfold parseTime. rewrite (TIME_RE_12 hs m1 m2 ws a b Hh Hl H1 H2 Hws Ha Hb Hsp).
    cbn [grp group Nat.eqb].
    rewrite (parseInt10_digits hs Hh), (parseInt10_digits _ (two_digits m1 m2 H1 H2)).
    rewrite (meridiem_isPM mer a b Hab). cbn [int_is].
    destruct mer; [destruct Hab| |]; cbn [hour24];
      destruct (decimal_value hs =? 12); reflexivity.
Qed.

Lemma written_trim h m mer s : written h m mer s -> trim s = s /\ s <> [].
Proof.
  intros W. destruct W as [hs m1 m2 Hh Hl H1 H2 | hs m1 m2 ws a b mer Hh Hl H1 H2 Hws Hab].
  - destruct Hh as [Hne Hd]. destruct hs as [|d hs]; [easy|].
    simpl in Hd. apply andb_prop in Hd as [Hd _].
    split; [|easy]. cbn [app]. rewrite (trim_head _ _ (digit_not_space _ Hd)). f_equal.
    change (hs ++ [":"; m1; m2]%char) with (hs ++ [":"; m1]%char ++ [m2]).
    rewrite !app_assoc. apply trimEnd_snoc, digit_not_space, H2.
  - destruct (meridiem_not_space mer a b Hab) as (Hsp & Ha & Hb).
    destruct Hh as [Hne Hd]. destruct hs as [|d hs]; [easy|].
    simpl in Hd. apply andb_prop in Hd as [Hd _].
    split; [|easy]. cbn [app]. rewrite (trim_head _ _ (digit_not_space _ Hd)). f_equal.
    change (hs ++ ":"%char :: m1 :: m2 :: ws ++ [a; b])
      with (hs ++ [":"; m1; m2]%char ++ ws ++ [a] ++ [b]).
    rewrite !app_assoc. apply trimEnd_snoc.
    unfold is_m, is_char in Hb. apply Ascii.eqb_eq in Hb. symmetry in Hb.
    apply letter_cases in Hb; [|auto]. destruct Hb as [-> | ->]; reflexivity.
Qed.

(** X21.  [parseTime] reads a written time: one or two digits, a colon and
    two digits give hours * 100 + minutes; with AM or PM after any white
    space, in any case, 12 AM is hour 0, 12 PM is hour 12 and any other PM
    hour is moved up by 12.  Neither the hours nor the minutes are checked
    against a range. *)
Theorem parseTime_reads_written_times h m mer s :
  written h m mer s -> parseTime s = Int (hour24 h mer * 100 + m).
Proof. exact (written_parse h m mer s). Qed.

Lemma written_10pm : written 10 0 PM (str "10:00 PM").
Proof.
  apply (written_12 (str "10") "0" "0" (str " ") "P" "M" PM); try reflexivity.
  - split; [discriminate|reflexivity].
  - split; reflexivity.
Qed.

Lemma written_6am : written 6 0 AM (str "6:00am").
Proof.
  apply (written_12 (str "6") "0" "0" [] "a" "m" AM); try reflexivity.
  - split; [discriminate|reflexivity].
  - repeat constructor.
  - split; reflexivity.
Qed.

Lemma parseTime_reads_written_times_witness :
  written 10 0 PM (str "10:00 PM") /\ parseTime (str "10:00 PM") = Int 2200.
Proof.
  split; [exact written_10pm|].
  exact (parseTime_reads_written_times 10 0 PM (str "10:00 PM") written_10pm).
Defined.

(** X22.  With both times written, the announce window is the closed
    interval from start to end when start is before end, the two ends of
    the day (from start on, or up to end) when start is after end, and the
    whole day when they are equal. *)
Theorem announce_window_of_written_times c h1 m1 mer1 s1 h2 m2 mer2 s2 :
  written h1 m1 mer1 s1 -> written h2 m2 mer2 s2 ->
  let current := hours c * 100 + minutes c in
  let start := hour24 h1 mer1 * 100 + m1 in
  let stop := hour24 h2 mer2 * 100 + m2 in
  isWithinAnnounceWindow c (Some s1) (Some s2) = true <->
  start = stop \/
  (start < stop /\ start <= current <= stop) \/
  (stop < start /\ (start <= current \/ current <= stop)).
Proof.
  intros W1 W2 current start stop.
  destruct (written_trim _ _ _ _ W1) as [T1 N1], (written_trim _ _ _ _ W2) as [T2 N2].
  unfold isWithinAnnounceWindow. cbv zeta.
  assert (O1 : Background.or_str (Some s1) (str "00:00") = s1) by (destruct s1; easy).
  assert (O2 : Background.or_str (Some s2) (str "23:59") = s2) by (destruct s2; easy).
  rewrite O1, O2, T1, T2, (written_parse _ _ _ _ W1), (written_parse _ _ _ _ W2).
  fold start stop current.
  destruct (Z.eqb_spec start stop) as [E|E]; [tauto|].
  destruct (Z.ltb_spec stop start) as [L|L].
  - rewrite orb_true_iff, !Z.leb_le. lia.
  - rewrite andb_true_iff, !Z.leb_le. lia.
Qed.

Lemma announce_window_of_written_times_witness :
  let c := {| now := 0; hours := 23; minutes := 30 |} in
  written 10 0 PM (str "10:00 PM") /\ written 6 0 AM (str "6:00am") /\
  isWithinAnnounceWindow c (Some (str "10:00 PM")) (Some (str "6:00am")) = true.
Proof.
  intros c. split; [exact written_10pm|]. split; [exact written_6am|].
  apply (announce_window_of_written_times c 10 0 PM (str "10:00 PM") 6 0 AM (str "6:00am")
           written_10pm written_6am).
  right. right. cbn. lia.
Defined.

(** X23.  With neither time set (absent or empty) the announce window is
    open at every minute of the day. *)
Theorem announce_window_open_by_default c :
  0 <= hours c <= 23 -> 0 <= minutes c <= 59 ->
  forall a b, (a = None \/ a = Some []) -> (b = None \/ b = Some []) ->
  isWithinAnnounceWindow c a b = true.
Proof.
  intros Hh Hm a b Ha Hb. unfold isWithinAnnounceWindow. cbv zeta.
  assert (O1 : Background.or_str a (str "00:00") = str "00:00") by (destruct Ha as [-> | ->]; easy).
  assert (O2 : Background.or_str b (str "23:59") = str "23:59") by (destruct Hb as [-> | ->]; easy).
  rewrite O1, O2.
  change (parseTime (trim (str "00:00"))) with (Int 0).
  change (parseTime (trim (str "23:59"))) with (Int 2359).
  cbn [Z.eqb Z.ltb Z.compare]. rewrite andb_true_iff, !Z.leb_le. lia.
Qed.

Lemma announce_window_open_by_default_witness :
  let c := {| now := 0; hours := 3; minutes := 7 |} in
  0 <= hours c <= 23 /\ 0 <= minutes c <= 59 /\
  isWithinAnnounceWindow c None (Some []) = true.
Proof.
  intros c. split; [cbn; lia|]. split; [cbn; lia|].
  apply (announce_window_open_by_default c); cbn; auto; lia.
Defined.

End AnnounceWindow.
